(** * TrailSync security core: a shallow embedding of the JavaScript sources

    The development follows the source files one module per component:
    [XSSProtection] (the sanitizer), [ModuleSandbox], [SecurityCore],
    [ThreatMonitor], [GPXParser], [SecureStorage] and [FallbackStorage].
    [Syntax] holds the productions of the language for object literals, for
    the one literal of [SecureStorage.setItem] that does not follow them.

    JavaScript data is modelled as the language has it:
    - a string is its sequence of UTF-16 code units ([jsstring]);
    - a number is an IEEE-754 binary64 value ([float]);
    - an object is the list of its own enumerable string-keyed properties
      in the order [Object.entries] yields them;
    - a method runs on the state of its object, emits the calls it makes
      on its surroundings as effects, and returns or throws ([Run.M]);
    - [btoa] and [atob] are written out; the other built-ins of the host
      (the HTML parser, [toLowerCase], [toFixed], [JSON], [crypto.subtle],
      the URI helpers) are operations of a class, so that a statement holds
      for every host that implements them.  The hosts [AsciiHost],
      [MiniBrowser] and [Double] implement them on small inputs, for running
      the model on examples.

    The definitions come first, module by module; the properties follow
    from the heading "Properties" on. *)

From Stdlib Require Import ZArith NArith List String Ascii Bool Lia PrimFloat.
From Stdlib Require Import DecimalString DecimalNat.
From stdpp Require Import gmap.
Import ListNotations.

Set Warnings "-register-all".
Local Open Scope N_scope.

(** Linear arithmetic over [N] with divisions by constants. *)
Ltac nlia := zify; Z.to_euclidean_division_equations; lia.

(** ** JavaScript strings *)

Module JS.

(** A string value is a finite sequence of 16-bit code units. *)
Definition jsstring := list N.

(** The code units of an ASCII literal. *)
Definition js (s : string) : jsstring :=
  List.map N_of_ascii (list_ascii_of_string s).

Definition streq (a b : jsstring) : bool := bool_decide (a = b).

(** [arr.includes(x)] for an array of strings. *)
Definition includes (arr : list jsstring) (x : jsstring) : bool :=
  existsb (streq x) arr.

(** [String.fromCharCode(n)]: the argument is taken modulo 2^16. *)
Definition fromCharCode (n : Z) : N := Z.to_N (n mod 65536).

(** [s.replace(/c/g, r)] for a one-character pattern [c] and a replacement
    [r] that holds no dollar sign: every occurrence of [c] is replaced. *)
Definition replace_all (c : N) (r : jsstring) (s : jsstring) : jsstring :=
  flat_map (fun u => if N.eqb u c then r else [u]) s.

(** [s.endsWith(suffix)] *)
Definition endsWith (s suffix : jsstring) : bool :=
  streq (skipn (length s - length suffix) s) suffix
  && Nat.leb (length suffix) (length s).

(** [s.substring(0, n)] for [0 <= n] *)
Definition substring0 (n : nat) (s : jsstring) : jsstring := firstn n s.

(** Code units of the characters the sanitizer names. *)
Definition c_amp : N := 38.
Definition c_lt : N := 60.
Definition c_gt : N := 62.
Definition c_quot : N := 34.
Definition c_apos : N := 39.
Definition c_slash : N := 47.
Definition c_backslash : N := 92.

(** The values JSON can carry, and [undefined].  A value is a tree: an
    object reached twice, or an object that contains itself, is outside of
    the model. *)
Inductive value : Type :=
| VUndefined
| VNull
| VBool (b : bool)
| VNumber (x : float)
| VString (s : jsstring)
| VArray (xs : list value)
| VObject (props : list (jsstring * value)).


(** Induction over values, through the lists of array elements and of
    properties. *)
Section ValueInd.
Variable P : value -> Prop.
Hypothesis Hundef : P VUndefined.
Hypothesis Hnull : P VNull.
Hypothesis Hbool : forall b, P (VBool b).
Hypothesis Hnum : forall x, P (VNumber x).
Hypothesis Hstr : forall s, P (VString s).
Hypothesis Harr : forall xs, Forall P xs -> P (VArray xs).
Hypothesis Hobj : forall props, Forall (fun kv => P (snd kv)) props -> P (VObject props).

Fixpoint value_ind' (v : value) : P v :=
match v with
| VUndefined => Hundef
| VNull => Hnull
| VBool b => Hbool b
| VNumber x => Hnum x
| VString s => Hstr s
| VArray xs =>
Harr xs ((fix go (l : list value) : Forall P l :=
match l with
| [] => @List.Forall_nil _ _
| x :: l' => @List.Forall_cons _ _ x l' (value_ind' x) (go l')
end) xs)
| VObject props =>
Hobj props ((fix go (l : list (jsstring * value)) : Forall (fun kv => P (snd kv)) l :=
 match l with
 | [] => @List.Forall_nil _ _
 | kv :: l' => @List.Forall_cons _ _ kv l' (value_ind' (snd kv)) (go l')
 end) props)
end.
End ValueInd.

(** [typeof v] *)
Inductive jstype := TUndefined | TObject | TBoolean | TNumber | TString.

Definition typeof (v : value) : jstype :=
  match v with
  | VUndefined => TUndefined
  | VNull => TObject
  | VBool _ => TBoolean
  | VNumber _ => TNumber
  | VString _ => TString
  | VArray _ => TObject
  | VObject _ => TObject
  end.

(** Exceptions carry the [name] and the [message] of the error object. *)
Record exn := Exn { exn_name : jsstring; exn_message : jsstring }.

Inductive result (A : Type) : Type :=
| Ok (a : A)
| Throw (e : exn).
Arguments Ok {A} a.
Arguments Throw {A} e.

Definition bind {A B} (r : result A) (k : A -> result B) : result B :=
  match r with
  | Ok a => k a
  | Throw e => Throw e
  end.

Definition TypeError (msg : string) : exn := Exn (js "TypeError") (js msg).
Definition Error (msg : string) : exn := Exn (js "Error") (js msg).

Definition is_digit (u : N) : bool := (48 <=? u) && (u <=? 57).

(** ASCII case conversion, as the DOM applies it to element names. *)
Definition lower_unit (u : N) : N :=
  if (65 <=? u) && (u <=? 90) then u + 32 else u.
Definition upper_unit (u : N) : N :=
  if (97 <=? u) && (u <=? 122) then u - 32 else u.
Definition asciiLower (s : jsstring) : jsstring := List.map lower_unit s.
Definition asciiUpper (s : jsstring) : jsstring := List.map upper_unit s.

(** The decimal numeral of an array index, as property keys spell it. *)
Definition index_key (i : nat) : jsstring :=
  js (NilEmpty.string_of_uint (Nat.to_uint i)).

Fixpoint indexed_from {A} (i : nat) (xs : list A) : list (jsstring * A) :=
  match xs with
  | [] => []
  | x :: xs' => (index_key i, x) :: indexed_from (S i) xs'
  end.

(** [Object.entries(v)]: the own enumerable string-keyed properties.  It
    throws on [null] and [undefined]; an array yields its indices, a string
    its characters, other primitives nothing. *)
Definition Object_entries (v : value) : result (list (jsstring * value)) :=
  match v with
  | VUndefined | VNull =>
      Throw (TypeError "Cannot convert undefined or null to object")
  | VBool _ | VNumber _ => Ok []
  | VString s => Ok (indexed_from 0 (List.map (fun u => VString [u]) s))
  | VArray xs => Ok (indexed_from 0 xs)
  | VObject props => Ok props
  end.

(** Property read [o[k]] on own properties. *)
Fixpoint obj_get (o : list (jsstring * value)) (k : jsstring) : option value :=
  match o with
  | [] => None
  | (k', v) :: o' => if streq k' k then Some v else obj_get o' k
  end.

Fixpoint upsert (o : list (jsstring * value)) (k : jsstring) (v : value)
  : list (jsstring * value) :=
  match o with
  | [] => [(k, v)]
  | (k', v') :: o' =>
      if streq k' k then (k', v) :: o' else (k', v') :: upsert o' k v
  end.

(** The assignment [o[k] = v] on an object that was created by the literal
    [{}] and only assigned to since.  An existing property keeps its place, a
    new one comes last.  The name [__proto__] is the accessor the object
    inherits from [Object.prototype]: assigning to it creates no own
    property (it changes the prototype link, which this model does not
    carry).  Keys are inserted below in the order of [Object.entries]; the
    reordering of integer-like keys therefore never shows. *)
Definition obj_set (o : list (jsstring * value)) (k : jsstring) (v : value)
  : list (jsstring * value) :=
  if streq k (js "__proto__") then o else upsert o k v.

(** The read [v.k] of a property that is neither an index nor [length]:
    it throws on [null] and [undefined] and finds nothing on a primitive. *)
Definition get_prop (v : value) (k : jsstring) : result value :=
  match v with
  | VUndefined | VNull =>
      Throw (TypeError "Cannot read properties of undefined or null")
  | VObject props => Ok (default VUndefined (obj_get props k))
  | _ => Ok VUndefined
  end.

(** [v === 'literal'] *)
Definition is_string (v : value) (lit : jsstring) : bool :=
  match v with
  | VString s => streq s lit
  | _ => false
  end.

(** *** [btoa] and [atob] *)

Definition InvalidCharacterError : exn :=
  Exn (js "InvalidCharacterError") (js "The string is not correctly encoded").

Definition b64_alphabet : jsstring :=
  js "ABCDEFGHIJKLMNOPQRSTUVWXYZabcdefghijklmnopqrstuvwxyz0123456789+/".

Definition b64_char (n : N) : N := nth (N.to_nat n) b64_alphabet 0.

Definition c_equals : N := 61.

(** Three bytes make four characters; one or two bytes at the end are
    padded with equals signs. *)
Fixpoint b64_encode (bytes : list N) : jsstring :=
  match bytes with
  | [] => []
  | [a] => [b64_char (a / 4); b64_char ((a mod 4) * 16); c_equals; c_equals]
  | [a; b] =>
      [b64_char (a / 4); b64_char ((a mod 4) * 16 + b / 16);
       b64_char ((b mod 16) * 4); c_equals]
  | a :: b :: c :: rest =>
      b64_char (a / 4) :: b64_char ((a mod 4) * 16 + b / 16)
        :: b64_char ((b mod 16) * 4 + c / 64) :: b64_char (c mod 64)
        :: b64_encode rest
  end.

(** The six-bit groups of the bytes, and the padding after them. *)
Fixpoint b64_sextets (bytes : list N) : list N :=
  match bytes with
  | [] => []
  | [a] => [a / 4; (a mod 4) * 16]
  | [a; b] => [a / 4; (a mod 4) * 16 + b / 16; (b mod 16) * 4]
  | a :: b :: c :: rest =>
      a / 4 :: ((a mod 4) * 16 + b / 16) :: ((b mod 16) * 4 + c / 64) :: (c mod 64)
        :: b64_sextets rest
  end.

Fixpoint b64_padding (bytes : list N) : jsstring :=
  match bytes with
  | [] => []
  | [_] => [c_equals; c_equals]
  | [_; _] => [c_equals]
  | _ :: _ :: _ :: rest => b64_padding rest
  end.

(** [btoa(s)]: every code unit has to be a byte. *)
Definition btoa (s : jsstring) : result jsstring :=
  if forallb (fun u => u <? 256) s then Ok (b64_encode s)
  else Throw InvalidCharacterError.

Definition b64_value (u : N) : option N :=
  if (65 <=? u) && (u <=? 90) then Some (u - 65)
  else if (97 <=? u) && (u <=? 122) then Some (u - 71)
  else if (48 <=? u) && (u <=? 57) then Some (u + 4)
  else if u =? 43 then Some 62
  else if u =? 47 then Some 63
  else None.

Fixpoint b64_values (s : jsstring) : option (list N) :=
  match s with
  | [] => Some []
  | u :: s' =>
      match b64_value u, b64_values s' with
      | Some x, Some xs => Some (x :: xs)
      | _, _ => None
      end
  end.

Fixpoint b64_bytes (sextets : list N) : list N :=
  match sextets with
  | a :: b :: c :: d :: rest =>
      (a * 4 + b / 16) :: ((b mod 16) * 16 + c / 4) :: ((c mod 4) * 64 + d)
        :: b64_bytes rest
  | [a; b; c] => [a * 4 + b / 16; (b mod 16) * 16 + c / 4]
  | [a; b] => [a * 4 + b / 16]
  | _ => []
  end.

Definition is_ascii_whitespace (u : N) : bool :=
  (u =? 9) || (u =? 10) || (u =? 12) || (u =? 13) || (u =? 32).

(** Up to two equals signs at the end of a text whose length is a multiple
    of four are padding. *)
Definition strip_padding (s : jsstring) : jsstring :=
  if (length s mod 4 =? 0)%nat then
    match rev s with
    | x :: y :: r =>
        if x =? c_equals then (if y =? c_equals then rev r else rev (y :: r))
        else s
    | [x] => if x =? c_equals then [] else s
    | [] => s
    end
  else s.

(** [atob(s)], the forgiving decoder of the platform. *)
Definition atob (s : jsstring) : result jsstring :=
  let s := strip_padding (List.filter (fun u => negb (is_ascii_whitespace u)) s) in
  if (length s mod 4 =? 1)%nat then Throw InvalidCharacterError
  else
    match b64_values s with
    | Some sextets => Ok (b64_bytes sextets)
    | None => Throw InvalidCharacterError
    end.

(** Built-ins of the host that the sources call on strings and numbers. *)
Class Host := {
  (** [String.prototype.toLowerCase] *)
  toLowerCase : jsstring -> jsstring;
  (** [Number.prototype.toFixed] *)
  toFixed : float -> nat -> jsstring;
  (** the global [parseFloat], applied to a string *)
  parseFloat : jsstring -> float;
  (** the conversion [ToString] of template literals *)
  ToString : value -> jsstring
}.

(** Whether [ToString] returns on a value.  It throws a TypeError on an
    object that has no primitive value.  The values of this model hold no
    function, so that is an object with an own property [toString]: the
    property hides [Object.prototype.toString], is not callable itself, and
    [Object.prototype.valueOf] returns the object.  An array is converted by
    [Array.prototype.join], which converts every element that is neither
    [null] nor [undefined]. *)
Fixpoint convertible (v : value) : bool :=
  match v with
  | VObject props =>
      negb (existsb (fun kv => streq (fst kv) (js "toString")) props)
  | VArray xs =>
      (fix all (l : list value) : bool :=
         match l with
         | [] => true
         | x :: l' => convertible x && all l'
         end) xs
  | _ => true
  end.

(** The text of a substitution [${v}] in a template literal. *)
Definition substitution `{Host} (v : value) : result jsstring :=
  if convertible v then Ok (ToString v)
  else Throw (TypeError "Cannot convert object to primitive value").

End JS.
Import JS.

(** ** The document *)

Module DOM.

(** The nodes the HTML parser builds below an element: text, comments and
    elements.  An element is an HTML element, with its local name in lower
    case as the parser leaves it. *)
Inductive node : Type :=
| Text (data : jsstring)
| Comment (data : jsstring)
| Element (localName : jsstring) (attributes : list (jsstring * jsstring))
    (childNodes : list node).

(** The two directions of [innerHTML]. *)
Class Browser := {
  (** the setter: the fragment parser of the platform, in the context of a
      [div] or of one of the elements [safeInsertHtml] creates *)
  parseFragment : jsstring -> list node;
  (** the getter: the serialization of the children *)
  serializeFragment : list node -> jsstring
}.

(** [node.tagName] of an HTML element in an HTML document. *)
Definition tagName (localName : jsstring) : jsstring := asciiUpper localName.

(** [element.setAttribute(name, value)] for a name in lower case. *)
Fixpoint setAttribute (attributes : list (jsstring * jsstring))
    (name value : jsstring) : list (jsstring * jsstring) :=
  match attributes with
  | [] => [(name, value)]
  | (n, v) :: rest =>
      if streq n name then (n, value) :: rest
      else (n, v) :: setAttribute rest name value
  end.

(** Every element of a subtree, at any depth, with its attributes. *)
Fixpoint elements (n : node) : list (jsstring * list (jsstring * jsstring)) :=
  match n with
  | Element name attributes kids => (name, attributes) :: flat_map elements kids
  | _ => []
  end.

End DOM.

(** ** XSSProtection (src/unnamed/part_000) *)

Module XSSProtection.

(** The chain of [replace] calls of [sanitize], in source order.  The second
    and third calls replace a character by itself, as the source has them. *)
Definition sanitize_string (str : jsstring) : jsstring :=
  replace_all c_backslash (js "&#x5C;")
    (replace_all c_slash (js "&#x2F;")
      (replace_all c_apos (js "&#039;")
        (replace_all c_quot (js "&quot;")
          (replace_all c_gt (js ">")
            (replace_all c_lt (js "<")
              (replace_all c_amp (js "&amp;") str)))))).

(** What the chain makes of one code unit. *)
Definition escape_unit (u : N) : jsstring :=
  if u =? c_amp then js "&amp;"
  else if u =? c_quot then js "&quot;"
  else if u =? c_apos then js "&#039;"
  else if u =? c_slash then js "&#x2F;"
  else if u =? c_backslash then js "&#x5C;"
  else [u].

(** The five characters the chain encodes. *)
Definition encoded (u : N) : bool :=
  (u =? c_amp) || (u =? c_quot) || (u =? c_apos) || (u =? c_slash) || (u =? c_backslash).

(** [sanitize(str)]: non-strings are returned as they are. *)
Definition sanitize (str : value) : value :=
  match str with
  | VString s => VString (sanitize_string s)
  | other => other
  end.

Definition allowedTags : list jsstring :=
  [js "b"; js "strong"; js "i"; js "em"; js "br"; js "span"; js "small";
   js "sup"; js "sub"].

Definition safeAttributes : list jsstring := [js "class"; js "style"].

Section WithBrowser.
Context `{Host} `{DOM.Browser}.

(** The loop over [node.attributes]. *)
Definition copyAttributes (attributes : list (jsstring * jsstring))
: list (jsstring * jsstring) :=
fold_left
(fun safe attr =>
 if includes safeAttributes (fst attr)
 then DOM.setAttribute safe (fst attr) (sanitize_string (snd attr))
 else safe)
attributes [].

(** The body of the [forEach] of [safeInsertHtml]: what one child of the
temporary [div] adds to the fragment.  A node that is neither a text nor
an element has no [tagName], and the call of [toLowerCase] on it
throws. *)
Definition rebuildNode (node : DOM.node) : result (list DOM.node) :=
match node with
| DOM.Text data => Ok [DOM.Text data]
| DOM.Comment _ =>
Throw (TypeError "Cannot read properties of undefined (reading 'toLowerCase')")
| DOM.Element localName attributes childNodes =>
if includes allowedTags (toLowerCase (DOM.tagName localName)) then
Ok [DOM.Element (asciiLower (DOM.tagName localName))
(copyAttributes attributes)
(DOM.parseFragment (DOM.serializeFragment childNodes))]
else Ok []
end.

Fixpoint rebuildAll (nodes fragment : list DOM.node) : result (list DOM.node) :=
match nodes with
| [] => Ok fragment
| node :: rest =>
bind (rebuildNode node) (fun added => rebuildAll rest (fragment ++ added))
end.

(** [safeInsertHtml(element, html)]: the children the element has after
the call, and how the call ended.  The element is emptied first; it
receives the fragment if no child throws. *)
Definition safeInsertHtml (html : jsstring) : list DOM.node * result unit :=
let safeHtml := sanitize_string html in
let tempDiv := DOM.parseFragment safeHtml in
match rebuildAll tempDiv [] with
| Ok fragment => (fragment, Ok tt)
| Throw e => ([], Throw e)
end.
End WithBrowser.

End XSSProtection.


(** ** ModuleSandbox (src/assets/js/core/sandbox.js) *)

Module ModuleSandbox.

Definition droppedKeys : list jsstring :=
  [js "__proto__"; js "constructor"; js "prototype"].

(** One turn of the loop [for (const [key, value] of Object.entries(data))]
    once [value] has been sanitized. *)
Definition assign (safeData : list (jsstring * value)) (key : jsstring)
    (safeValue : value) : list (jsstring * value) :=
  if includes droppedKeys key then safeData else obj_set safeData key safeValue.

(** [sanitizeSandboxData(data)].  Both an array and an object have type
    [object]; the loop over [Object.entries] is written once for each, over
    the indices of the array and over the properties of the object. *)
Fixpoint sanitizeSandboxData (data : value) : value :=
  match data with
  | VString s => XSSProtection.sanitize (VString s)
  | VArray xs =>
      VObject
        ((fix loop (i : nat) (rest : list value) (safeData : list (jsstring * value)) :=
            match rest with
            | [] => safeData
            | val :: rest' =>
                loop (S i) rest' (assign safeData (index_key i) (sanitizeSandboxData val))
            end) 0%nat xs [])
  | VObject props =>
      VObject
        ((fix loop (rest : list (jsstring * value)) (safeData : list (jsstring * value)) :=
            match rest with
            | [] => safeData
            | (key, val) :: rest' =>
                loop rest' (assign safeData key (sanitizeSandboxData val))
            end) props [])
  | other => other
  end.

(** One turn of that loop, on an entry of [Object.entries(data)]. *)
Definition entryStep (acc : list (jsstring * value)) (kv : jsstring * value)
  : list (jsstring * value) :=
  assign acc (fst kv) (sanitizeSandboxData (snd kv)).

(** A message event as the window receives it, and what the handler does
    with it. *)
Record message_event := { origin : jsstring; data : value }.

Inductive effect :=
| ClearTimeout (timer : nat)
| ResolveCreation (moduleId : jsstring)
| DispatchCustomEvent (name : jsstring) (detail : value).

(** The handler state: the creations still waiting for [SANDBOX_READY],
    each with its timer. *)
Record state := { pendingMessages : gmap jsstring nat }.

Section WithHost.
Context `{Host}.
Variable location_origin : jsstring.

(** [handleMessage(event)] *)
Definition handleMessage (st : state) (event : message_event)
: result (state * list effect) :=
if negb (streq (origin event) location_origin) then Ok (st, [])
else
bind (get_prop (data event) (js "type")) (fun ty =>
if is_string ty (js "SANDBOX_READY") then
bind (get_prop (data event) (js "id")) (fun id =>
match id with
| VString moduleId =>
match pendingMessages st !! moduleId with
| Some timer =>
Ok ({| pendingMessages := delete moduleId (pendingMessages st) |},
[ClearTimeout timer; ResolveCreation moduleId])
| None => Ok (st, [])
end
| _ => Ok (st, [])
end)
else if is_string ty (js "SANDBOX_MESSAGE") then
bind (get_prop (data event) (js "data")) (fun payload =>
let safeData := sanitizeSandboxData payload in
bind (get_prop (data event) (js "id")) (fun id =>
bind (substitution id) (fun text =>
Ok (st, [DispatchCustomEvent (js "sandbox-message-" ++ text) safeData]))))
else Ok (st, [])).
End WithHost.

(** *** The life of a creation

    The frames that wait for their [SANDBOX_READY], and the timers the
    platform holds for them.  [setTimeout] returns a number it has not
    returned before; a timer fires at most once, and not after
    [clearTimeout].  A creation is known by its timer. *)
Record page := {
  handler : state;
  (** the armed timers, each with the [moduleId] its callback closes over *)
  armed : gmap nat jsstring;
  nextTimer : nat;
  (** the creations whose [resolve] was called, oldest first *)
  resolved : list nat
}.

Definition emptyPage : page :=
  {| handler := {| pendingMessages := ∅ |}; armed := ∅; nextTimer := 0;
     resolved := [] |}.

(** [createSandbox(moduleId, content)], from the call of [setTimeout] on:
    the creation waits under [moduleId], replacing one that waits there. *)
Definition createSandbox (moduleId : jsstring) (p : page) : page :=
  let timer := nextTimer p in
  {| handler := {| pendingMessages := <[moduleId := timer]> (pendingMessages (handler p)) |};
     armed := <[timer := moduleId]> (armed p);
     nextTimer := S timer;
     resolved := resolved p |}.

(** The callback of that timer:
    [this.pendingMessages.delete(moduleId); resolve(sandbox)]. *)
Definition timeoutFired (timer : nat) (p : page) : page :=
  match armed p !! timer with
  | Some moduleId =>
      {| handler := {| pendingMessages := delete moduleId (pendingMessages (handler p)) |};
         armed := delete timer (armed p);
         nextTimer := nextTimer p;
         resolved := resolved p ++ [timer] |}
  | None => p
  end.

(** What the effects of [handleMessage] do to the timers, and whose
    [resolve] they call: the one of the creation that waited under the
    name when the handler started. *)
Definition disarm (timers : gmap nat jsstring) (x : effect) : gmap nat jsstring :=
  match x with
  | ClearTimeout timer => delete timer timers
  | _ => timers
  end.

Definition resolution (before : state) (x : effect) : list nat :=
  match x with
  | ResolveCreation moduleId =>
      match pendingMessages before !! moduleId with
      | Some timer => [timer]
      | None => []
      end
  | _ => []
  end.

Inductive happening :=
| Create (moduleId : jsstring)
| Message (event : message_event)
| Timeout (timer : nat).

Section Lifecycle.
Context `{Host}.
Variable location_origin : jsstring.

(** A message event reaches the listener; an exception ends the listener
and leaves the page as it was. *)
Definition deliver (event : message_event) (p : page) : page :=
match handleMessage location_origin (handler p) event with
| Ok (st, effects) =>
{| handler := st;
 armed := fold_left disarm effects (armed p);
 nextTimer := nextTimer p;
 resolved := resolved p ++ flat_map (resolution (handler p)) effects |}
| Throw _ => p
end.

Definition happen (p : page) (h : happening) : page :=
match h with
| Create moduleId => createSandbox moduleId p
| Message event => deliver event p
| Timeout timer => timeoutFired timer p
end.

Definition history (hs : list happening) : page := fold_left happen hs emptyPage.
End Lifecycle.

(** What holds of a page at every moment: a creation that waits has its
    timer armed; a creation that was resolved has not; no creation appears
    twice among the resolved; every timer in use was handed out. *)
Record consistent (p : page) : Prop := {
  waiting_armed : forall m t,
    pendingMessages (handler p) !! m = Some t -> armed p !! t = Some m;
  resolved_disarmed : forall t, In t (resolved p) -> armed p !! t = None;
  resolved_once : List.NoDup (resolved p);
  armed_known : forall t m, armed p !! t = Some m -> (t < nextTimer p)%nat;
  resolved_known : forall t, In t (resolved p) -> (t < nextTimer p)%nat
}.

(** [{...message}]: the own enumerable properties, none for [null] and
    [undefined]. *)
Definition spread (message : value) : list (jsstring * value) :=
  match Object_entries message with
  | Ok entries => entries
  | Throw _ => []
  end.

(** [postMessage(moduleId, message)]: what is posted to the frame, if
    [getElementById] finds an element ([frame] is [Some]) that has a
    [contentWindow]. *)
Definition postMessage (frame : option bool) (message : value) : option value :=
  match frame with
  | Some true =>
      Some (VObject (upsert (spread message) (js "origin") (VString (js "main-app"))))
  | _ => None
  end.

End ModuleSandbox.

(** ** SecurityCore (src/assets/js/core/security.js) *)

Module SecurityCore.

Definition droppedFields : list jsstring := [js "route"; js "eph"; js "password"].

(** What the logger of the facade is called with. *)
Inductive sink_call := LoggerLog (eventType : jsstring) (safeDetails : value).

Section WithHost.
Context `{Host}.

(** The three branches on the type of a field of [_sanitizeDetails]. *)
Definition sanitizeField (val : value) : value :=
match val with
| VNumber x => VNumber (parseFloat (toFixed x 2))
| VString s => XSSProtection.sanitize (VString s)
| other => other
end.

Definition sanitizeStep (safe : list (jsstring * value)) (kv : jsstring * value)
: list (jsstring * value) :=
let '(key, val) := kv in
if includes droppedFields (toLowerCase key) then safe
else obj_set safe key (sanitizeField val).

(** [_sanitizeDetails(details)] *)
Definition _sanitizeDetails (details : value) : result value :=
bind (Object_entries details) (fun entries =>
Ok (VObject (fold_left sanitizeStep entries []))).

(** [logSecurityEvent(eventType, details = {})] *)
Definition logSecurityEvent (eventType : jsstring) (details : value)
: result (list sink_call) :=
let details := match details with VUndefined => VObject [] | d => d end in
bind (_sanitizeDetails details) (fun safeDetails =>
Ok [LoggerLog eventType safeDetails]).
End WithHost.

End SecurityCore.

(** ** Methods as runs over a state *)

Module Run.

(** A method runs on the state of its object, emits effects on its
    surroundings, and returns or throws. *)
Definition M (S E A : Type) : Type := S -> S * list E * result A.

Section Monad.
Context {S E : Type}.

Definition ret {A} (a : A) : M S E A := fun st => (st, [], Ok a).
Definition throw {A} (e : exn) : M S E A := fun st => (st, [], Throw e).
Definition emit (e : E) : M S E unit := fun st => (st, [e], Ok tt).
Definition get : M S E S := fun st => (st, [], Ok st).
Definition put (st' : S) : M S E unit := fun _ => (st', [], Ok tt).
Definition modify (f : S -> S) : M S E unit := fun st => (f st, [], Ok tt).
Definition lift {A} (r : result A) : M S E A := fun st => (st, [], r).
Definition seq {A B} (m : M S E A) (k : A -> M S E B) : M S E B :=
fun st =>
let '(st1, e1, r) := m st in
match r with
| Ok a => let '(st2, e2, r2) := k a st1 in (st2, e1 ++ e2, r2)
| Throw e => (st1, e1, Throw e)
end.

(** [try { m } catch (e) { handler e }] *)
Definition try_catch {A} (m : M S E A) (handler : exn -> M S E A) : M S E A :=
fun st =>
let '(st1, e1, r) := m st in
match r with
| Ok a => (st1, e1, Ok a)
| Throw e => let '(st2, e2, r2) := handler e st1 in (st2, e1 ++ e2, r2)
end.

(** The effects and the state a run leaves. *)
Definition effs {A} (x : S * list E * result A) : list E := snd (fst x).
Definition after {A} (x : S * list E * result A) : S := fst (fst x).
End Monad.

Notation "x <- m ;; k" := (seq m (fun x => k))
  (at level 100, m at next level, right associativity).
Notation "m ;;; k" := (seq m (fun _ => k))
  (at level 100, k at level 200, right associativity).

End Run.

(** ** ThreatMonitor (src/assets/js/core/threat-monitor.js) *)

Module ThreatMonitor.
Import Run.

(** What [riskLevels[type] || 1] evaluates to: a number, or, for a name
    that the table inherits from [Object.prototype], a function or object. *)
Inductive risk := Weight (w : Z) | Inherited.

Record event := {
  timestamp : Z;
  type : jsstring;
  details : value;
  riskLevel : risk
}.

Record state := {
  eventHistory : list event;
  warningShown : bool;
  blockedIps : gmap jsstring Z
}.

(** The fields the constructor sets. *)
Definition initial : state :=
  {| eventHistory := []; warningShown := false; blockedIps := ∅ |}.

Definition suspiciousThreshold : Z := 3.
Definition blockThreshold : Z := 5.
Definition blockDuration : Z := 300000.

Definition riskLevels : list (jsstring * Z) :=
  [ (js "CROSS_ORIGIN_MESSAGE", 2%Z);
    (js "DEVELOPER_TOOLS_ATTEMPT", 1%Z);
    (js "RAPID_KEYSTROKES", 3%Z);
    (js "POSSIBLE_XSS_SCAN", 5%Z);
    (js "MODULE_LOAD_FAILED", 2%Z);
    (js "INVALID_GPX", 1%Z);
    (js "TRANSLATION_FAILED", 1%Z) ].

(** The property names every object literal inherits. *)
Definition objectPrototypeNames : list jsstring :=
  [ js "constructor"; js "__proto__"; js "hasOwnProperty"; js "isPrototypeOf";
    js "propertyIsEnumerable"; js "toLocaleString"; js "toString"; js "valueOf";
    js "__defineGetter__"; js "__defineSetter__"; js "__lookupGetter__";
    js "__lookupSetter__" ].

Fixpoint table_get (t : list (jsstring * Z)) (k : jsstring) : option Z :=
  match t with
  | [] => None
  | (k', w) :: t' => if streq k' k then Some w else table_get t' k
  end.

(** [_calculateRiskLevel(type)]; every weight of the table is truthy. *)
Definition _calculateRiskLevel (type : jsstring) : risk :=
  match table_get riskLevels type with
  | Some w => Weight w
  | None => if includes objectPrototypeNames type then Inherited else Weight 1
  end.

(** [sum + e.riskLevel]: once a summand is not a number the sum is a
    string, and stays one; [None] stands for it. *)
Definition add_risk (sum : option Z) (e : event) : option Z :=
  match sum, riskLevel e with
  | Some s, Weight w => Some (s + w)%Z
  | _, _ => None
  end.

(** [riskScore >= t] and [riskScore < t]; a string that is no numeral
    compares false with every number. *)
Definition score_ge (score : option Z) (t : Z) : bool :=
  match score with Some s => (t <=? s)%Z | None => false end.
Definition score_lt (score : option Z) (t : Z) : bool :=
  match score with Some s => (s <? t)%Z | None => false end.

Definition recentEvents (now : Z) (history : list event) : list event :=
  List.filter (fun e => (now - timestamp e <? 60000)%Z) history.

Definition riskScore (now : Z) (history : list event) : option Z :=
  fold_left add_risk (recentEvents now history) (Some 0%Z).

(** What one call of [recordEvent] reads from its surroundings: the three
    readings of [Date.now()], and whether [renderSafeContent] throws. *)
Record env := {
  now_event : Z;
  now_check : Z;
  now_block : Z;
  render_throws : option exn
}.

Inductive effect :=
| RenderWarning
| BlockAccess (ip : jsstring) (blockUntil : Z)
| ScheduleUnblock (ip : jsstring) (blockUntil : Z) (delay : Z)
| LogSecurityEvent (eventType : jsstring) (details : value)
| Sink (call : SecurityCore.sink_call).

(** Methods run on the monitor's state, emit effects, and may throw. *)
Abbreviation M := (Run.M state effect).

Definition scrubbedFields : list jsstring :=
  [js "password"; js "token"; js "cookie"].

(** The value stored for a field of [_sanitizeEventData]. *)
Definition truncate (val : value) : value :=
  match val with
  | VString s =>
      if Nat.ltb 200 (length s) then VString (substring0 200 s ++ js "...")
      else val
  | _ => val
  end.

Definition clientIp : jsstring := js "client-ip-placeholder".

Section WithHost.
Context `{Host}.

Definition scrubStep (safeData : list (jsstring * value)) (kv : jsstring * value)
: list (jsstring * value) :=
let '(key, val) := kv in
if includes scrubbedFields (toLowerCase key) then safeData
else obj_set safeData key (truncate val).

(** [_sanitizeEventData(data)] *)
Definition _sanitizeEventData (data : value) : value :=
match data with
| VArray xs => VObject (fold_left scrubStep (indexed_from 0 xs) [])
| VObject props => VObject (fold_left scrubStep props [])
| other => other
end.

(** [_showWarning()] *)
Definition _showWarning (e : env) : M unit :=
st <- get ;;
if warningShown st then ret tt
else
put {| eventHistory := eventHistory st; warningShown := true;
 blockedIps := blockedIps st |} ;;;
emit RenderWarning ;;;
match render_throws e with
| Some x => throw x
| None => ret tt
end.

(** The click handler [_showWarning] installs on the dismiss button. *)
Definition dismissWarning (st : state) : state :=
{| eventHistory := eventHistory st; warningShown := false;
 blockedIps := blockedIps st |}.

(** [_blockAccess()] *)
Definition _blockAccess (e : env) : M unit :=
let ip := clientIp in
let blockUntil := (now_block e + blockDuration)%Z in
st <- get ;;
put {| eventHistory := eventHistory st; warningShown := warningShown st;
 blockedIps := <[ip := blockUntil]> (blockedIps st) |} ;;;
emit (BlockAccess ip blockUntil) ;;;
match render_throws e with
| Some x => throw x
| None => emit (ScheduleUnblock ip blockUntil blockDuration)
end.

(** [_checkThreatLevel()] *)
Definition _checkThreatLevel (e : env) : M unit :=
st <- get ;;
let score := riskScore (now_check e) (eventHistory st) in
(if score_ge score suspiciousThreshold && score_lt score blockThreshold
 then _showWarning e else ret tt) ;;;
(if score_ge score blockThreshold then _blockAccess e else ret tt).

(** [this.eventHistory.push(event)] and the bound of 100 entries. *)
Definition pushEvent (ev : event) : M unit :=
st <- get ;;
let pushed := eventHistory st ++ [ev] in
let kept := if Nat.ltb 100 (length pushed) then tl pushed else pushed in
put {| eventHistory := kept; warningShown := warningShown st;
 blockedIps := blockedIps st |}.

(** [window.security.logSecurityEvent(type, details)] *)
Definition forward (type : jsstring) (details : value) : M unit :=
emit (LogSecurityEvent type details) ;;;
match SecurityCore.logSecurityEvent type details with
| Ok calls => fun st => (st, List.map Sink calls, Ok tt)
| Throw x => throw x
end.

(** [recordEvent(type, details = {})] *)
Definition recordEvent (e : env) (type : jsstring) (details : value) : M unit :=
let details := match details with VUndefined => VObject [] | d => d end in
let event :=
{| timestamp := now_event e;
 type := type;
 details := _sanitizeEventData details;
 riskLevel := _calculateRiskLevel type |} in
pushEvent event ;;;
_checkThreatLevel e ;;;
forward type details.

(** The entry [recordEvent] builds, and the history it leaves. *)
Definition eventOf (e : env) (type : jsstring) (details : value) : event :=
{| timestamp := now_event e;
 type := type;
 details := _sanitizeEventData
match details with VUndefined => VObject [] | d => d end;
 riskLevel := _calculateRiskLevel type |}.

Definition pushed (ev : event) (history : list event) : list event :=
let p := history ++ [ev] in
if Nat.ltb 100 (length p) then tl p else p.

(** The score each call of a sequence computes in [_checkThreatLevel]. *)
Fixpoint scores (calls : list (env * jsstring * value)) (history : list event)
: list (option Z) :=
match calls with
| [] => []
| (e, type, details) :: calls' =>
let history' := pushed (eventOf e type details) history in
riskScore (now_check e) history' :: scores calls' history'
end.

(** A sequence of calls of [recordEvent], one per task of the event loop:
an exception ends its own call only. *)
Fixpoint recordAll (calls : list (env * jsstring * value)) (st : state)
: state * list effect :=
match calls with
| [] => (st, [])
| (e, type, details) :: calls' =>
let '(st1, effs1, _) := recordEvent e type details st in
let '(st2, effs2) := recordAll calls' st1 in
(st2, effs1 ++ effs2)
end.
End WithHost.

(** An event of risk weight 1. *)
Definition unit_weight (ev : event) : Prop := riskLevel ev = Weight 1.

Definition is_block (e : effect) : bool :=
  match e with BlockAccess _ _ => true | _ => false end.

(** How often the block path was entered. *)
Definition blocks (effs : list effect) : nat := length (List.filter is_block effs).

Definition is_warning (e : effect) : bool :=
  match e with RenderWarning => true | _ => false end.

(** How often the warning was rendered. *)
Definition warnings (effs : list effect) : nat := length (List.filter is_warning effs).

(** The flag [warningShown] as a count, and the methods that keep it in
    step with the warnings they render. *)
Definition raised (st : state) : nat := if warningShown st then 1%nat else 0%nat.

Definition tallies {A} (m : M A) : Prop :=
  forall st, (warnings (effs (m st)) + raised st = raised (after (m st)))%nat.

(** An entry whose risk level is a number, and the sum of the numbers of
    a history. *)
Definition numeric (ev : event) : Prop := exists w, riskLevel ev = Weight w.

Definition weight (ev : event) : Z :=
  match riskLevel ev with Weight w => w | Inherited => 0%Z end.

Definition total (history : list event) : Z :=
  fold_right (fun ev sum => (weight ev + sum)%Z) 0%Z history.

(** [_truncateError(message)] *)
Definition _truncateError (message : jsstring) : jsstring :=
  if Nat.ltb 200 (length message) then substring0 200 message ++ js "..."
  else message.

(** *** The patterns of [handleError]

    A pattern without anchors is looked for at every position.  With the
    flag [i] a letter of the pattern matches itself in either case, and no
    other character; the dot matches everything but a line terminator. *)
Definition is_line_terminator (u : N) : bool :=
  (u =? 10) || (u =? 13) || (u =? 8232) || (u =? 8233).

Fixpoint prefix_ci (literal s : jsstring) : bool :=
  match literal, s with
  | [], _ => true
  | p :: literal', u :: s' => (upper_unit u =? upper_unit p) && prefix_ci literal' s'
  | _ :: _, [] => false
  end.

(** [s] continues with some characters that satisfy [ok], lazily or
    greedily, and then with what [next] accepts. *)
Fixpoint after_some (ok : N -> bool) (next : jsstring -> bool) (s : jsstring) : bool :=
  next s ||
  match s with
  | u :: r => ok u && after_some ok next r
  | [] => false
  end.

Fixpoint anywhere (here : jsstring -> bool) (s : jsstring) : bool :=
  here s ||
  match s with
  | _ :: r => anywhere here r
  | [] => false
  end.

Definition dot (u : N) : bool := negb (is_line_terminator u).

(** [/<script.*?>.*?<\/script>/i] *)
Definition script_pattern (s : jsstring) : bool :=
  anywhere
    (fun s0 =>
       prefix_ci (js "<script") s0 &&
       after_some dot
         (fun s1 =>
            match s1 with
            | u :: s2 => (u =? c_gt) && after_some dot (prefix_ci (js "</script>")) s2
            | [] => false
            end)
         (skipn 7 s0))
    s.

(** [/<img[^>]+onerror=/i] *)
Definition img_pattern (s : jsstring) : bool :=
  anywhere
    (fun s0 =>
       prefix_ci (js "<img") s0 &&
       match skipn 4 s0 with
       | u :: s1 =>
           negb (u =? c_gt)
           && after_some (fun c => negb (c =? c_gt)) (prefix_ci (js "onerror=")) s1
       | [] => false
       end)
    s.

(** [/javascript:/i] and [/eval\(/i] *)
Definition javascript_pattern (s : jsstring) : bool :=
  anywhere (prefix_ci (js "javascript:")) s.
Definition eval_pattern (s : jsstring) : bool :=
  anywhere (prefix_ci (js "eval(")) s.

Definition scanPatterns : list (jsstring -> bool) :=
  [script_pattern; img_pattern; javascript_pattern; eval_pattern].

(** The properties of an [ErrorEvent] that [handleError] reads. *)
Record error_event := { message : jsstring; filename : jsstring; lineno : float }.

(** The properties of a [KeyboardEvent] that [trackKeystrokes] reads. *)
Record keystroke := {
  ctrlKey : bool;
  shiftKey : bool;
  key : jsstring;
  keyCode : float;
  targetTagName : jsstring;
  targetId : jsstring
}.

(** The monitor with the field [lastKeystroke], which the constructor
    leaves unset. *)
Record tracker := { monitor : state; lastKeystroke : option Z }.

(** The tracker the constructor leaves. *)
Definition untouched : tracker := {| monitor := initial; lastKeystroke := None |}.

(** What one call of [trackKeystrokes] reads from its surroundings: the
    clock in the test for rapid input and in the last assignment, and what
    its two calls of [recordEvent] read. *)
Record key_env := {
  devtools_env : env;
  now_compare : Z;
  rapid_env : env;
  now_stamp : Z
}.

Definition onMonitor {A} (m : M A) : Run.M tracker effect A :=
  fun t =>
    let '(st, effects, r) := m (monitor t) in
    ({| monitor := st; lastKeystroke := lastKeystroke t |}, effects, r).

Section Listeners.
Context `{Host}.
Variable location_origin : jsstring.

(** [handleMessage(event)] *)
Definition handleMessage (e : env) (event : ModuleSandbox.message_event) : M unit :=
if negb (streq (ModuleSandbox.origin event) location_origin) then
recordEvent e (js "CROSS_ORIGIN_MESSAGE")
(VObject [(js "origin", VString (ModuleSandbox.origin event));
(js "data", _sanitizeEventData (ModuleSandbox.data event))])
else ret tt.

(** [handleError(event)]: the loop over the patterns ends at the first
one that matches. *)
Definition handleError (e : env) (event : error_event) : M unit :=
if existsb (fun pattern => pattern (message event)) scanPatterns then
recordEvent e (js "POSSIBLE_XSS_SCAN")
(VObject [(js "message", VString (_truncateError (message event)));
(js "filename", VString (filename event));
(js "lineno", VNumber (lineno event))])
else ret tt.

(** [trackKeystrokes(e)] *)
Definition trackKeystrokes (ke : key_env) (e : keystroke) : Run.M tracker effect unit :=
(if (ctrlKey e && shiftKey e && streq (key e) (js "I"))
|| (ctrlKey e && streq (key e) (js "`"))
 then onMonitor (recordEvent (devtools_env ke) (js "DEVELOPER_TOOLS_ATTEMPT")
     (VObject [(js "keyCode", VNumber (keyCode e))]))
 else ret tt) ;;;
t <- get ;;
(if match lastKeystroke t with
| Some last => negb (last =? 0)%Z && (now_compare ke - last <? 50)%Z
| None => false
end && streq (targetTagName e) (js "INPUT")
 then onMonitor (recordEvent (rapid_env ke) (js "RAPID_KEYSTROKES")
     (VObject [(js "target",
                VString match targetId e with
                        | [] => js "unknown"
                        | id => id
                        end)]))
 else ret tt) ;;;
modify (fun t => {| monitor := monitor t; lastKeystroke := Some (now_stamp ke) |}).

(** A sequence of keystrokes, one call of the listener each: an exception
ends its own call only. *)
Fixpoint trackAll (keys : list (key_env * keystroke)) (t : tracker)
: tracker * list effect :=
match keys with
| [] => (t, [])
| (ke, e) :: keys' =>
let '(t1, effs1, _) := trackKeystrokes ke e t in
let '(t2, effs2) := trackAll keys' t1 in
(t2, effs1 ++ effs2)
end.
End Listeners.

End ThreatMonitor.

(** ** GPXParser (src/unnamed/part_001) *)

Module GPXParser.

(** The two properties of a [File] that [parse] looks at. *)
Record file := { name : jsstring; size : Z }.

Inductive effect :=
| ReadAsText (f : file)
| PostMessage (type : jsstring) (id : jsstring) (content : jsstring).

(** Where [parse(file)] stands when it first yields: its promise is
    rejected, or it waits for the reader. *)
Inductive started :=
| Rejected (e : exn)
| AwaitingContent.

Section WithHost.
Context `{Host}.

(** [parse(file)] up to [await contentPromise]. *)
Definition parse (f : file) : started * list effect :=
if negb (endsWith (toLowerCase (name f)) (js ".gpx")) then
(Rejected (Error "INVALID_FILE_EXTENSION"), [])
else if (5 * 1024 * 1024 <? size f)%Z then
(Rejected (Error "FILE_TOO_LARGE"), [])
else (AwaitingContent, [ReadAsText f]).

(** [parse(file)] after the reader has answered: [content] is the text or
the read error, [requestId] the identifier drawn for the request. *)
Definition parse_resume (content : result jsstring) (requestId : jsstring)
(pendingResolvers : gset jsstring) : result (gset jsstring * list effect) :=
match content with
| Throw _ => Throw (Error "FILE_READ_ERROR")
| Ok text =>
Ok ({[requestId]} ∪ pendingResolvers,
[PostMessage (js "PARSE_GPX") requestId text])
end.
End WithHost.

(** How the promise of a request is settled. *)
Inductive settlement :=
| Resolve (id : jsstring) (data : value)
| Reject (id : jsstring) (e : exn).

Definition settled_id (s : settlement) : jsstring :=
  match s with Resolve id _ => id | Reject id _ => id end.

(** [this.pendingResolvers[id]] on the object literal [{}]: the entry of a
    request, or what every object inherits under the name, which is truthy
    and has neither [resolve] nor [reject]. *)
Inductive found := OwnResolver | InheritedMember | Nothing.

Definition resolverAt (pendingResolvers : gset jsstring) (id : jsstring) : found :=
  if bool_decide (id ∈ pendingResolvers) then OwnResolver
  else if includes ThreatMonitor.objectPrototypeNames id then InheritedMember
  else Nothing.

Section Listener.
Context `{Host}.
Variable location_origin : jsstring.

(** The listener that [init()] installs. *)
Definition onMessage (event : ModuleSandbox.message_event)
(pendingResolvers : gset jsstring) : result (gset jsstring * list settlement) :=
let data := ModuleSandbox.data event in
if negb (streq (ModuleSandbox.origin event) location_origin) then
Ok (pendingResolvers, [])
else
bind (get_prop data (js "type")) (fun ty =>
if is_string ty (js "GPX_PARSED") then
bind (get_prop data (js "id")) (fun id =>
match resolverAt pendingResolvers (ToString id) with
| OwnResolver =>
bind (get_prop data (js "data")) (fun parsed =>
Ok (pendingResolvers ∖ {[ToString id]}, [Resolve (ToString id) parsed]))
| InheritedMember => Throw (TypeError "resolver.resolve is not a function")
| Nothing => Ok (pendingResolvers, [])
end)
else if is_string ty (js "GPX_ERROR") then
bind (get_prop data (js "id")) (fun id =>
match resolverAt pendingResolvers (ToString id) with
| OwnResolver =>
bind (get_prop data (js "error")) (fun error =>
let message := match error with VUndefined => [] | x => ToString x end in
Ok (pendingResolvers ∖ {[ToString id]},
[Reject (ToString id) (Exn (js "Error") message)]))
| InheritedMember => Throw (TypeError "resolver.reject is not a function")
| Nothing => Ok (pendingResolvers, [])
end)
else Ok (pendingResolvers, [])).

(** The listener on a sequence of message events; an exception ends the
call it is thrown in. *)
Fixpoint listen (events : list ModuleSandbox.message_event)
(pendingResolvers : gset jsstring) : list settlement :=
match events with
| [] => []
| event :: rest =>
match onMessage event pendingResolvers with
| Ok (pending, settled) => settled ++ listen rest pending
| Throw _ => listen rest pendingResolvers
end
end.
End Listener.

End GPXParser.

(** ** The syntax of object literals

    [SecureStorage.setItem] holds an object literal that has to be read as
    the language reads it.  The productions below are those of ECMA-262
    (13.2.5) for [ObjectLiteral], over the tokens of a source text.  A
    phrase the grammar spells out elsewhere (an expression, a parameter
    list with the function body after it) is any run of tokens whose
    brackets match and that has no comma outside of brackets: every such
    phrase of the language is of that form, so a text that is no
    [ObjectLiteral] here is none of the language. *)

Module Syntax.

Inductive token :=
| Name (s : string)
| Numeric (s : string)
| Quoted (s : string)
| Punct (s : string).

(** *** Tokens of a text

    Names, numerals and punctuators of one character, separated by white
    space: the tokens of a text that holds no string literal, template,
    regular expression or comment.  The three full stops of a spread are
    three tokens. *)
Definition is_name_start (c : ascii) : bool :=
  let u := N_of_ascii c in
  ((65 <=? u) && (u <=? 90)) || ((97 <=? u) && (u <=? 122))
  || (u =? 95) || (u =? 36).

Definition is_numeral (c : ascii) : bool :=
  let u := N_of_ascii c in (48 <=? u) && (u <=? 57).

Definition is_name_part (c : ascii) : bool := is_name_start c || is_numeral c.

Definition is_space (c : ascii) : bool :=
  let u := N_of_ascii c in (u =? 32) || (u =? 9) || (u =? 10) || (u =? 13).

(** The word that has been read, when it ends. *)
Definition word (w : string) : list token :=
  match w with
  | EmptyString => []
  | String c _ => if is_numeral c then [Numeric w] else [Name w]
  end.

Fixpoint scan (text : string) (w : string) : list token :=
  match text with
  | EmptyString => word w
  | String c rest =>
      if is_name_part c then scan rest (String.append w (String c EmptyString))
      else word w
           ++ (if is_space c then [] else [Punct (String c EmptyString)])
           ++ scan rest EmptyString
  end.

Definition tokens (text : string) : list token := scan text EmptyString.

Definition is_punct (p : string) (t : token) : bool :=
  match t with
  | Punct s => String.eqb s p
  | _ => false
  end.

(** *** Phrases

    [enclosed depth ts]: the brackets of [ts] match, [depth] of them being
    open at its start, and no comma of [ts] is outside of all brackets. *)
Definition opens (t : token) : bool :=
  is_punct "(" t || is_punct "[" t || is_punct "{" t.

Definition closes (t : token) : bool :=
  is_punct ")" t || is_punct "]" t || is_punct "}" t.

Fixpoint enclosed (depth : nat) (ts : list token) : bool :=
  match ts with
  | [] => Nat.eqb depth 0
  | t :: ts' =>
      if opens t then enclosed (S depth) ts'
      else if closes t then
        match depth with
        | O => false
        | S depth' => enclosed depth' ts'
        end
      else if is_punct "," t then negb (Nat.eqb depth 0) && enclosed depth ts'
      else enclosed depth ts'
  end.

Definition phrase (ts : list token) : bool :=
  match ts with
  | [] => false
  | _ => enclosed 0 ts
  end.

(** *** The productions *)

(** [ReservedWord] *)
Definition reservedWords : list string :=
  ["await"; "break"; "case"; "catch"; "class"; "const"; "continue";
   "debugger"; "default"; "delete"; "do"; "else"; "enum"; "export";
   "extends"; "false"; "finally"; "for"; "function"; "if"; "import"; "in";
   "instanceof"; "new"; "null"; "return"; "super"; "switch"; "this";
   "throw"; "true"; "try"; "typeof"; "var"; "void"; "while"; "with";
   "yield"]%string.

(** [IdentifierReference : Identifier | yield | await], an [Identifier]
    being a name that is no reserved word. *)
Inductive IdentifierReference : list token -> Prop :=
| IR_identifier x : ~ In x reservedWords -> IdentifierReference [Name x]
| IR_yield : IdentifierReference [Name "yield"]
| IR_await : IdentifierReference [Name "await"].

(** [PropertyName : LiteralPropertyName | ComputedPropertyName] *)
Inductive PropertyName : list token -> Prop :=
| PN_name x : PropertyName [Name x]
| PN_string s : PropertyName [Quoted s]
| PN_numeric n : PropertyName [Numeric n]
| PN_computed e : phrase e = true -> PropertyName (Punct "[" :: e ++ [Punct "]"]).

(** [ClassElementName : PropertyName | PrivateIdentifier] *)
Inductive ClassElementName : list token -> Prop :=
| CE_name n : PropertyName n -> ClassElementName n
| CE_private x : ClassElementName [Punct "#"; Name x].

(** What a [MethodDefinition] may have before its name: nothing, [*],
    [async], [async *], [get] or [set]. *)
Definition methodPrefixes : list (list token) :=
  [[]; [Punct "*"]; [Name "async"]; [Name "async"; Punct "*"];
   [Name "get"]; [Name "set"]].

(** [MethodDefinition]: the name, and the parameter list with the body. *)
Inductive MethodDefinition : list token -> Prop :=
| MD_method pre n rest :
    In pre methodPrefixes -> ClassElementName n ->
    phrase (Punct "(" :: rest) = true ->
    MethodDefinition (pre ++ n ++ Punct "(" :: rest).

(** [PropertyDefinition] *)
Inductive PropertyDefinition : list token -> Prop :=
| PD_reference r : IdentifierReference r -> PropertyDefinition r
| PD_initialized r e :
    IdentifierReference r -> phrase e = true ->
    PropertyDefinition (r ++ Punct "=" :: e)
| PD_property n e :
    PropertyName n -> phrase e = true ->
    PropertyDefinition (n ++ Punct ":" :: e)
| PD_method m : MethodDefinition m -> PropertyDefinition m
| PD_spread e :
    phrase e = true ->
    PropertyDefinition (Punct "." :: Punct "." :: Punct "." :: e).

(** [PropertyDefinitionList] *)
Inductive PropertyDefinitionList : list token -> Prop :=
| PL_one d : PropertyDefinition d -> PropertyDefinitionList d
| PL_more l d :
    PropertyDefinitionList l -> PropertyDefinition d ->
    PropertyDefinitionList (l ++ Punct "," :: d).

(** [ObjectLiteral] *)
Inductive ObjectLiteral : list token -> Prop :=
| OL_empty : ObjectLiteral [Punct "{"; Punct "}"]
| OL_list l :
    PropertyDefinitionList l -> ObjectLiteral (Punct "{" :: l ++ [Punct "}"])
| OL_comma l :
    PropertyDefinitionList l ->
    ObjectLiteral (Punct "{" :: l ++ [Punct ","; Punct "}"]).

(** The ways of cutting a run of tokens at a token [x]. *)
Definition token_eqb (a b : token) : bool :=
  match a, b with
  | Name s, Name s' | Numeric s, Numeric s' | Quoted s, Quoted s'
  | Punct s, Punct s' => String.eqb s s'
  | _, _ => false
  end.

Fixpoint cuts (x : token) (ts : list token) : list (list token * list token) :=
  match ts with
  | [] => []
  | t :: ts' =>
      (if token_eqb t x then [([], ts')] else [])
      ++ List.map (fun cut => (t :: fst cut, snd cut)) (cuts x ts')
  end.

End Syntax.

(** ** What the stores call on the platform (src/assets/js/core/storage.js) *)

Module Storage.
Import Run.

(** What the stores call on the platform: JSON, the text codecs, Web Crypto
    and the URI helpers.  Byte buffers are lists of bytes. *)
Class Platform := {
  CryptoKey : Type;
  (** [JSON.stringify]; [None] when it returns [undefined] *)
  JSON_stringify : value -> option jsstring;
  (** [JSON.parse], which throws a SyntaxError *)
  JSON_parse : jsstring -> result value;
  (** [new TextEncoder().encode] and [new TextDecoder().decode] *)
  utf8_encode : jsstring -> list N;
  utf8_decode : list N -> jsstring;
  (** [crypto.subtle.encrypt] and [decrypt] with AES-GCM: key, iv, data;
      a failed authentication throws an error named OperationError *)
  subtle_encrypt : CryptoKey -> list N -> list N -> result (list N);
  subtle_decrypt : CryptoKey -> list N -> list N -> result (list N);
  (** [importKey('jwk', ...)] and [exportKey('jwk', ...)] *)
  importJwk : value -> result CryptoKey;
  exportJwk : CryptoKey -> result value;
  (** [importKey('raw', ...)] of the fingerprint followed by [deriveKey]
      with PBKDF2, the fixed salt and 100000 iterations *)
  deriveKey : jsstring -> result CryptoKey;
  encodeURIComponent : jsstring -> result jsstring;
  decodeURIComponent : jsstring -> result jsstring;
  escape : jsstring -> jsstring;
  unescape : jsstring -> jsstring
}.

Definition OperationError : exn :=
  Exn (js "OperationError") (js "The operation failed for an operation-specific reason").

(** What a method reads from its surroundings: the device fingerprint of
    [_generateFingerprint()], which changes with the device and the day, and
    the twelve bytes of [crypto.getRandomValues]. *)
Record env := { fingerprint : jsstring; random_iv : list N }.

Inductive effect :=
| LogSecurityEvent (eventType : jsstring) (details : value)
| SubtleDecrypt (iv data : list N)
| DeriveKey (fingerprint : jsstring).

Definition keyBlob : jsstring := js "trailsync_encKey_v2".

(** [if (item)] on the result of [localStorage.getItem]: a missing entry
    and the empty string are both falsy. *)
Definition truthy (item : option jsstring) : option jsstring :=
  match item with
  | Some (u :: s) => Some (u :: s)
  | _ => None
  end.

(** A value where a string is expected: [undefined] reads [undefined]. *)
Definition text_of (o : option jsstring) : jsstring :=
  match o with Some s => s | None => js "undefined" end.

(** The details of the events the stores log. *)
Definition error_details (fields : list (jsstring * value)) (e : exn) : value :=
VObject (fields ++ [(js "error", VString (exn_message e))]).

End Storage.

(** ** SecureStorage (src/assets/js/core/storage.js) *)

Module SecureStorage.
Import Run Storage.

(** [_arrayBufferToBase64(buffer)] *)
Definition _arrayBufferToBase64 (buffer : list N) : result jsstring := btoa buffer.

Section WithPlatform.
Context `{Host} `{Platform}.

Record state := {
localStorage : gmap jsstring jsstring;
encryptionKey : option CryptoKey;
(** how the [_initKey()] of the constructor ended *)
keyPromise : result unit
}.

Abbreviation M := (Run.M state effect).

Definition set_key (k : CryptoKey) (st : state) : state :=
{| localStorage := localStorage st; encryptionKey := Some k;
 keyPromise := keyPromise st |}.

Definition setStored (name text : jsstring) (st : state) : state :=
{| localStorage := <[name := text]> (localStorage st);
 encryptionKey := encryptionKey st; keyPromise := keyPromise st |}.

Definition removeStored (name : jsstring) (st : state) : state :=
{| localStorage := delete name (localStorage st);
 encryptionKey := encryptionKey st; keyPromise := keyPromise st |}.

(** [_importKey(jwkJson)] *)
Definition _importKey (jwkJson : jsstring) : result CryptoKey :=
bind (JSON_parse jwkJson) importJwk.

(** [_initKey()] *)
Definition _initKey (e : env) : M unit :=
try_catch
(st <- get ;;
 match truthy (localStorage st !! keyBlob) with
 | Some storedKey =>
 k <- lift (_importKey storedKey) ;;
 modify (set_key k)
 | None =>
 emit (DeriveKey (fingerprint e)) ;;;
 k <- lift (deriveKey (fingerprint e)) ;;
 modify (set_key k) ;;;
 jwk <- lift (exportJwk k) ;;
 modify (setStored keyBlob (text_of (JSON_stringify jwk)))
 end)
(fun x =>
 emit (LogSecurityEvent (js "KEY_INIT_FAILED") (error_details [] x)) ;;;
 throw (Error "SECURE_STORAGE_INIT_FAILED")).

(** [new SecureStorage()] over a given content of [localStorage]. *)
Definition construct (e : env) (stored : gmap jsstring jsstring)
: state * list effect :=
let '(st, effects, r) :=
_initKey e {| localStorage := stored; encryptionKey := None;
keyPromise := Ok tt |} in
({| localStorage := localStorage st; encryptionKey := encryptionKey st;
keyPromise := r |}, effects).

(** The key in use; the platform throws a TypeError on [null]. *)
Definition currentKey : M CryptoKey :=
st <- get ;;
match encryptionKey st with
| Some k => ret k
| None => throw (TypeError "parameter 2 is not of type CryptoKey")
end.

(** The object literal of [setItem] (lines 110 to 113 of the source), its
line breaks written as spaces.  It is no object literal of the language:
its second member has no property name ([Syntax.ObjectLiteral]). *)
Definition stored_literal : string :=
"{ iv: this._arrayBufferToBase64(iv), this._arrayBufferToBase64(encrypted) }".

(** How far a call of [setItem] is followed: to that literal, with the
vector and the ciphertext its members are computed from.  Of what the
source has from there on the model says nothing. *)
Inductive reached := StoredLiteral (iv encrypted : list N).

(** [setItem(key, value)], up to the object literal. *)
Definition setItem (e : env) (key : jsstring) (val : value) : M reached :=
st0 <- get ;;
lift (keyPromise st0) ;;;
try_catch
(let iv := random_iv e in
 let data := utf8_encode (default [] (JSON_stringify val)) in
 k <- currentKey ;;
 encrypted <- lift (subtle_encrypt k iv data) ;;
 ret (StoredLiteral iv encrypted))
(fun x =>
 emit (LogSecurityEvent (js "ENCRYPTION_FAILED")
 (error_details [(js "key", VString key)] x)) ;;;
 throw (Error "DATA_ENCRYPTION_FAILED")).

(** [_base64ToArrayBuffer(base64)] *)
Definition _base64ToArrayBuffer (base64 : value) : result (list N) :=
atob (ToString base64).

(** The [try] block of [getItem]. *)
Definition readStored (stored : jsstring) : M value :=
parsed <- lift (JSON_parse stored) ;;
iv <- lift (get_prop parsed (js "iv")) ;;
data <- lift (get_prop parsed (js "data")) ;;
ivBuffer <- lift (_base64ToArrayBuffer iv) ;;
dataBuffer <- lift (_base64ToArrayBuffer data) ;;
k <- currentKey ;;
emit (SubtleDecrypt ivBuffer dataBuffer) ;;;
decrypted <- lift (subtle_decrypt k ivBuffer dataBuffer) ;;
lift (JSON_parse (utf8_decode decrypted)).

(** How far a call of [getItem] has come: its promise is resolved, or it
is in one more recursive call. *)
Inductive progress := Resolved (v : value) | Retrying.

(** [getItem(key)]; [fuel] bounds the number of nested calls that are
followed. *)
Fixpoint getItem (fuel : nat) (e : env) (key : jsstring) : M progress :=
match fuel with
| O => ret Retrying
| S fuel' =>
st0 <- get ;;
lift (keyPromise st0) ;;;
match truthy (localStorage st0 !! (js "secure_" ++ key)) with
| None => ret (Resolved VNull)
| Some stored =>
try_catch
(v <- readStored stored ;; ret (Resolved v))
(fun x =>
 if streq (exn_name x) (js "OperationError") then
 modify (removeStored keyBlob) ;;;
 _initKey e ;;;
 getItem fuel' e key
 else
 emit (LogSecurityEvent (js "DECRYPTION_FAILED")
 (error_details [(js "key", VString key)] x)) ;;;
 ret (Resolved VNull))
end
end.

(** The states in which the read of [key] finds the text [stored] and
fails to decipher it, with an error named OperationError. *)
Definition stuck (key stored : jsstring) (ivBuffer dataBuffer : list N)
(st : state) : Prop :=
keyPromise st = Ok tt /\
truthy (localStorage st !! (js "secure_" ++ key)) = Some stored /\
exists k x, encryptionKey st = Some k /\
subtle_decrypt k ivBuffer dataBuffer = Throw x /\
exn_name x = js "OperationError".

Definition is_decrypt (x : effect) : bool :=
match x with SubtleDecrypt _ _ => true | _ => false end.

(** How often [crypto.subtle.decrypt] was called. *)
Definition decrypts (effects : list effect) : nat :=
length (List.filter is_decrypt effects).

(** [clear()] *)
Definition clear (st : state) : state :=
{| localStorage :=
 delete keyBlob
 (filter (fun kv => negb (streq (firstn 7 (fst kv)) (js "secure_")) = true)
(localStorage st));
 encryptionKey := encryptionKey st; keyPromise := keyPromise st |}.

End WithPlatform.

End SecureStorage.

(** ** FallbackStorage (src/assets/js/core/storage.js) *)

Module FallbackStorage.
Import Run Storage.

Section WithPlatform.
Context `{Platform}.

Definition obfuscationKey : jsstring := js "TRAILSYNC_FALLBACK".

(** [_obfuscate(str)] and [_deobfuscate(str)] *)
Definition _obfuscate (str : jsstring) : jsstring :=
List.map (fun c => fromCharCode (Z.of_N c + Z.of_nat (length obfuscationKey))) str.
Definition _deobfuscate (str : jsstring) : jsstring :=
List.map (fun c => fromCharCode (Z.of_N c - Z.of_nat (length obfuscationKey))) str.

(** The fallback store has no field but the obfuscation key; it runs on
the content of [localStorage]. *)
Abbreviation F := (Run.M (gmap jsstring jsstring) effect).

(** [setItem(key, value)] *)
Definition setItem (key : jsstring) (val : value) : F unit :=
try_catch
(uri <- lift (encodeURIComponent (text_of (JSON_stringify val))) ;;
 encrypted <- lift (btoa (unescape uri)) ;;
 let obfuscated := _obfuscate encrypted in
 modify (insert (js "fallback_" ++ key) obfuscated))
(fun x =>
 emit (LogSecurityEvent (js "FALLBACK_STORAGE_SET_FAILED")
 (error_details [(js "key", VString key)] x))).

(** [getItem(key)] *)
Definition getItem (key : jsstring) : F value :=
try_catch
(stored <- get ;;
 match truthy (stored !! (js "fallback_" ++ key)) with
 | None => ret VNull
 | Some obfuscated =>
 let encrypted := _deobfuscate obfuscated in
 binary <- lift (atob encrypted) ;;
 decoded <- lift (decodeURIComponent (escape binary)) ;;
 lift (JSON_parse decoded)
 end)
(fun x =>
 emit (LogSecurityEvent (js "FALLBACK_STORAGE_GET_FAILED")
 (error_details [(js "key", VString key)] x)) ;;;
 ret VNull).
End WithPlatform.

(** [clear()] *)
Definition clear (stored : gmap jsstring jsstring) : gmap jsstring jsstring :=
  filter (fun kv => negb (streq (firstn 9 (fst kv)) (js "fallback_")) = true) stored.

End FallbackStorage.

(** ** SafeProxy (src/unnamed/part_001) *)

Module SafeProxy.
Import Run Storage.

Definition proxyUrl : jsstring := js "/api/proxy".

Definition allowedLangs : list jsstring :=
  [js "zh-TW"; js "en"; js "ja"; js "ko"; js "es"].

(** [_sanitizeLanguage(lang)] *)
Definition _sanitizeLanguage (lang : value) : jsstring :=
  match lang with
  | VString l => if includes allowedLangs l then l else js "zh-TW"
  | _ => js "zh-TW"
  end.

(** What [fetch] resolves to, as far as [translate] reads it: [ok],
    [status] in decimal, and what [json()] resolves to. *)
Record response := { ok : bool; status : jsstring; json : result value }.

(** What [translate] calls on its surroundings:
    [window.security.getCsrfToken()], and the proxy behind [fetch], which
    answers the body of a request or rejects. *)
Record env := {
  getCsrfToken : result value;
  respond : jsstring -> result response
}.

Inductive effect :=
| Fetch (url : jsstring) (csrfToken : value) (body : jsstring)
| LogSecurityEvent (eventType : jsstring) (details : value).

(** [v[0]] *)
Definition first_of (v : value) : result value :=
  match v with
  | VUndefined | VNull =>
      Throw (TypeError "Cannot read properties of undefined or null")
  | VArray xs => Ok (nth 0 xs VUndefined)
  | VString (u :: _) => Ok (VString [u])
  | VObject props => Ok (default VUndefined (obj_get props (js "0")))
  | _ => Ok VUndefined
  end.

(** The address the proxy is asked to fetch. *)
Definition target (lang uri : jsstring) : jsstring :=
  js "https://translate.googleapis.com/translate_a/single?client=gtx&sl=auto&tl="
    ++ lang ++ js "&dt=t&q=" ++ uri.

Definition request (lang uri : jsstring) : value :=
  VObject [(js "target", VString (target lang uri)); (js "method", VString (js "GET"))].

Section WithPlatform.
Context `{Platform}.

(** [translate(text, targetLang = 'zh-TW')] for a text that is a string. *)
Definition translate (e : env) (text : jsstring) (targetLang : value)
: Run.M unit effect value :=
try_catch
(let safeText := XSSProtection.sanitize_string text in
 (if match safeText with [] => true | _ => false end
 || Nat.ltb 2000 (length safeText)
then throw (Error "INVALID_TEXT") else ret tt) ;;;
 let safeTargetLang :=
 _sanitizeLanguage
 match targetLang with VUndefined => VString (js "zh-TW") | l => l end in
 token <- lift (getCsrfToken e) ;;
 uri <- lift (encodeURIComponent safeText) ;;
 let body := text_of (JSON_stringify (request safeTargetLang uri)) in
 emit (Fetch proxyUrl token body) ;;;
 response <- lift (respond e body) ;;
 (if ok response then ret tt
else throw (Exn (js "Error") (js "PROXY_ERROR_" ++ status response))) ;;;
 result <- lift (json response) ;;
 r0 <- lift (first_of result) ;;
 r1 <- lift (first_of r0) ;;
 lift (first_of r1))
(fun x =>
 emit (LogSecurityEvent (js "TRANSLATION_FAILED")
 (VObject [(js "error", VString (exn_message x))])) ;;;
 ret VNull).
End WithPlatform.

Definition is_fetch (x : effect) : bool :=
  match x with Fetch _ _ _ => true | _ => false end.

End SafeProxy.

(** ** The treadmill converter (src/unnamed/part_001) *)

Module TreadmillConverter.

(** The markup [showErrorMessage] and [showSuccessMessage] build around
    the sanitized message. *)
Definition box (class message : jsstring) : jsstring :=
  js "<div class=" ++ [c_quot] ++ class ++ [c_quot] ++ js ">"
    ++ XSSProtection.sanitize_string message ++ js "</div>".

Section WithBrowser.
Context `{Host} `{DOM.Browser}.

(** [showErrorMessage(message)] and [showSuccessMessage(message)]: the
children of the status element after the call, when
[querySelector('.conversion-mode')] finds one. *)
Definition showErrorMessage (statusEl : option (list DOM.node)) (message : jsstring)
: option (list DOM.node) * result unit :=
match statusEl with
| Some _ =>
let '(children, r) := XSSProtection.safeInsertHtml (box (js "error") message) in
(Some children, r)
| None => (None, Ok tt)
end.

Definition showSuccessMessage (statusEl : option (list DOM.node)) (message : jsstring)
: option (list DOM.node) * result unit :=
match statusEl with
| Some _ =>
let '(children, r) := XSSProtection.safeInsertHtml (box (js "success") message) in
(Some children, r)
| None => (None, Ok tt)
end.
End WithBrowser.

End TreadmillConverter.

(** ** Observations on values, and a host for evaluating examples *)

Module Observe.

(** Every property name of a value, at any depth. *)
Fixpoint all_keys (v : value) : list jsstring :=
  match v with
  | VArray xs => flat_map all_keys xs
  | VObject props =>
      flat_map (fun kv => let '(k, x) := kv in k :: all_keys x) props
  | _ => []
  end.

(** Every string value of a value, at any depth. *)
Fixpoint all_strings (v : value) : list jsstring :=
  match v with
  | VString s => [s]
  | VArray xs => flat_map all_strings xs
  | VObject props => flat_map (fun kv => let '(_, x) := kv in all_strings x) props
  | _ => []
  end.

(** No array occurs in the value, at any depth. *)
Fixpoint no_array (v : value) : bool :=
  match v with
  | VArray _ => false
  | VObject props => forallb (fun kv => let '(_, x) := kv in no_array x) props
  | _ => true
  end.

(** An object holds each property name once. *)
Definition wf_props (props : list (jsstring * value)) : Prop :=
  List.NoDup (List.map fst props).

End Observe.

Module AsciiHost.

(** A host for running the model on ASCII text.  Its [toLowerCase] is the
    one of the language on strings of ASCII characters; its examples hold no
    number, and the three other operations answer with a fixed text. *)
#[local] Instance host : Host := {|
  toLowerCase := asciiLower;
  toFixed := fun _ _ => js "NaN";
  parseFloat := fun _ => nan;
  ToString := fun v =>
    match v with
    | VString s => s
    | VUndefined => js "undefined"
    | VNull => js "null"
    | VBool true => js "true"
    | VBool false => js "false"
    | _ => js "[object Object]"
    end
|}.

End AsciiHost.

(** ** A platform for evaluating the stores *)

Module Double.

(** JSON text for documents made of [null], booleans, arrays, objects and
    strings that need no escape; a number is printed as [null]. *)
Definition quote (s : jsstring) : jsstring := c_quot :: s ++ [c_quot].

Fixpoint join (sep : jsstring) (parts : list jsstring) : jsstring :=
  match parts with
  | [] => []
  | [p] => p
  | p :: rest => p ++ sep ++ join sep rest
  end.

Fixpoint stringify (v : value) : option jsstring :=
  match v with
  | VUndefined => None
  | VNull => Some (js "null")
  | VBool true => Some (js "true")
  | VBool false => Some (js "false")
  | VNumber _ => Some (js "null")
  | VString s => Some (quote s)
  | VArray xs =>
      Some (js "[" ++ join (js ",")
                        (List.map (fun x => default (js "null") (stringify x)) xs)
                 ++ js "]")
  | VObject props =>
      Some (js "{" ++ join (js ",")
                        (flat_map
                           (fun kv =>
                              let '(k, x) := kv in
                              match stringify x with
                              | Some t => [quote k ++ js ":" ++ t]
                              | None => []
                              end) props)
                 ++ js "}")
  end.

(** The characters of a string up to its closing quote. *)
Fixpoint read_string (s : jsstring) : option (jsstring * jsstring) :=
  match s with
  | [] => None
  | u :: r =>
      if u =? c_quot then Some ([], r)
      else if u =? c_backslash then None
      else match read_string r with
           | Some (str, r') => Some (u :: str, r')
           | None => None
           end
  end.

Fixpoint parse_value (fuel : nat) (s : jsstring) : option (value * jsstring) :=
  match fuel with
  | O => None
  | S fuel' =>
      match s with
      | 110 :: 117 :: 108 :: 108 :: r => Some (VNull, r)
      | 116 :: 114 :: 117 :: 101 :: r => Some (VBool true, r)
      | 102 :: 97 :: 108 :: 115 :: 101 :: r => Some (VBool false, r)
      | 34 :: r =>
          match read_string r with
          | Some (str, r') => Some (VString str, r')
          | None => None
          end
      | 91 :: 93 :: r => Some (VArray [], r)
      | 91 :: r =>
          (fix elements (n : nat) (r : jsstring) (acc : list value) :=
             match n with
             | O => None
             | S n' =>
                 match parse_value fuel' r with
                 | Some (v, 44 :: r') => elements n' r' (acc ++ [v])
                 | Some (v, 93 :: r') => Some (VArray (acc ++ [v]), r')
                 | _ => None
                 end
             end) (length r) r []
      | 123 :: 125 :: r => Some (VObject [], r)
      | 123 :: r =>
          (fix members (n : nat) (r : jsstring) (acc : list (jsstring * value)) :=
             match n with
             | O => None
             | S n' =>
                 match r with
                 | 34 :: r0 =>
                     match read_string r0 with
                     | Some (k, 58 :: r1) =>
                         match parse_value fuel' r1 with
                         | Some (v, 44 :: r') => members n' r' (upsert acc k v)
                         | Some (v, 125 :: r') => Some (VObject (upsert acc k v), r')
                         | _ => None
                         end
                     | _ => None
                     end
                 | _ => None
                 end
             end) (length r) r []
      | _ => None
      end
  end.

Definition SyntaxError : exn := Exn (js "SyntaxError") (js "Unexpected token").
Definition DataError : exn := Exn (js "DataError") (js "Invalid key data").

Definition parse (s : jsstring) : result value :=
  match parse_value (length s) s with
  | Some (v, []) => Ok v
  | _ => Throw SyntaxError
  end.

(** A cipher whose key is a number below 256: the ciphertext is the
    plaintext behind the key, and deciphering checks that byte the way
    AES-GCM checks its tag.  A key is exported as that many letters. *)
Definition encrypt (k : N) (iv data : list N) : result (list N) := Ok (k :: data).
Definition decrypt (k : N) (iv data : list N) : result (list N) :=
  match data with
  | tag :: plain => if tag =? k then Ok plain else Throw Storage.OperationError
  | [] => Throw Storage.OperationError
  end.

#[local] Instance platform : Storage.Platform := {|
  Storage.CryptoKey := N;
  Storage.JSON_stringify := stringify;
  Storage.JSON_parse := parse;
  Storage.utf8_encode := fun s => s;
  Storage.utf8_decode := fun b => b;
  Storage.subtle_encrypt := encrypt;
  Storage.subtle_decrypt := decrypt;
  Storage.importJwk := fun jwk =>
    match jwk with
    | VObject [(_, VString s)] => Ok (N.of_nat (length s))
    | _ => Throw DataError
    end;
  Storage.exportJwk := fun k => Ok (VObject [(js "k", VString (List.repeat 120 (N.to_nat k)))]);
  Storage.deriveKey := fun fp => Ok (N.of_nat (length fp));
  Storage.encodeURIComponent := fun s => Ok s;
  Storage.decodeURIComponent := fun s => Ok s;
  Storage.escape := fun s => s;
  Storage.unescape := fun s => s
|}.

End Double.

(** ** A browser for evaluating [safeInsertHtml] *)

Module MiniBrowser.
Import DOM.

(** A fragment parser and serializer for phrasing markup: text, character
    references ([amp], [lt], [gt], [quot], [nbsp] and the numeric ones, with
    their semicolon), comments, start tags with attributes, end tags of
    elements that are open, and the void elements.  It follows the
    tokenizer and the body insertion mode of the HTML standard on such
    input; raw-text elements, tables, paragraphs that close each other and
    misnested formatting are outside of it. *)

Inductive token :=
| TChar (u : N)
| TStart (name : jsstring) (attributes : list (jsstring * jsstring))
| TEnd (name : jsstring)
| TComment (data : jsstring).

Definition is_alpha (u : N) : bool :=
  ((65 <=? u) && (u <=? 90)) || ((97 <=? u) && (u <=? 122)).
Definition is_space (u : N) : bool :=
  (u =? 9) || (u =? 10) || (u =? 12) || (u =? 13) || (u =? 32).
Definition is_hex (u : N) : bool :=
  is_digit u || ((65 <=? u) && (u <=? 70)) || ((97 <=? u) && (u <=? 102)).

Definition hex_value (u : N) : N :=
  if is_digit u then u - 48
  else if (97 <=? u) then u - 87 else u - 55.

(** The longest prefix of characters that satisfy [p], and the rest. *)
Fixpoint span (p : N -> bool) (s : jsstring) : jsstring * jsstring :=
  match s with
  | [] => ([], [])
  | u :: r =>
      if p u then let '(a, b) := span p r in (u :: a, b) else ([], s)
  end.

Definition number_of (base : N) (digits : jsstring) : N :=
  fold_left (fun n u => n * base + hex_value u) digits 0.

(** A character reference, read after its ampersand. *)
Definition reference (s : jsstring) : option (N * jsstring) :=
  match s with
  | 97 :: 109 :: 112 :: 59 :: r => Some (38, r)
  | 108 :: 116 :: 59 :: r => Some (60, r)
  | 103 :: 116 :: 59 :: r => Some (62, r)
  | 113 :: 117 :: 111 :: 116 :: 59 :: r => Some (34, r)
  | 110 :: 98 :: 115 :: 112 :: 59 :: r => Some (160, r)
  | 35 :: 120 :: r | 35 :: 88 :: r =>
      match span is_hex r with
      | (u :: digits, 59 :: r') =>
          let n := number_of 16 (u :: digits) in
          if (0 <? n) && (n <? 55296) then Some (n, r') else None
      | _ => None
      end
  | 35 :: r =>
      match span is_digit r with
      | (u :: digits, 59 :: r') =>
          let n := number_of 10 (u :: digits) in
          if (0 <? n) && (n <? 55296) then Some (n, r') else None
      | _ => None
      end
  | _ => None
  end.

(** The references of an attribute value. *)
Fixpoint decode (fuel : nat) (s : jsstring) : jsstring :=
  match fuel with
  | O => s
  | S fuel' =>
      match s with
      | [] => []
      | 38 :: r =>
          match reference r with
          | Some (u, r') => u :: decode fuel' r'
          | None => 38 :: decode fuel' r
          end
      | u :: r => u :: decode fuel' r
      end
  end.

Definition add_attribute (attributes : list (jsstring * jsstring))
    (name value : jsstring) : list (jsstring * jsstring) :=
  if existsb (fun a => streq (fst a) name) attributes then attributes
  else attributes ++ [(name, decode (length value) value)].

Definition name_char (u : N) : bool :=
  negb (is_space u || (u =? 47) || (u =? 62)).
Definition attribute_name_char (u : N) : bool :=
  negb (is_space u || (u =? 47) || (u =? 62) || (u =? 61)).
Definition unquoted_char (u : N) : bool := negb (is_space u || (u =? 62)).

(** The attributes of a tag, up to its closing bracket; [None] when the
    input ends inside the tag, which then is dropped. *)
Fixpoint scan_attributes (fuel : nat) (s : jsstring)
    (acc : list (jsstring * jsstring))
  : option (list (jsstring * jsstring) * jsstring) :=
  match fuel with
  | O => None
  | S fuel' =>
      match snd (span is_space s) with
      | [] => None
      | 62 :: r => Some (acc, r)
      | 47 :: r => scan_attributes fuel' r acc
      | u :: r0 =>
          let '(more, r1) := span attribute_name_char r0 in
          let name := asciiLower (u :: more) in
          match snd (span is_space r1) with
          | 61 :: r2 =>
              match snd (span is_space r2) with
              | 34 :: r3 =>
                  match span (fun c => negb (c =? 34)) r3 with
                  | (v, _ :: r4) => scan_attributes fuel' r4 (add_attribute acc name v)
                  | (_, []) => None
                  end
              | 39 :: r3 =>
                  match span (fun c => negb (c =? 39)) r3 with
                  | (v, _ :: r4) => scan_attributes fuel' r4 (add_attribute acc name v)
                  | (_, []) => None
                  end
              | 62 :: r3 => Some (add_attribute acc name [], r3)
              | r3 =>
                  let '(v, r4) := span unquoted_char r3 in
                  scan_attributes fuel' r4 (add_attribute acc name v)
              end
          | r2 => scan_attributes fuel' r2 (add_attribute acc name [])
          end
      end
  end.

(** The data of a comment, up to the first [-->]. *)
Fixpoint comment_data (s : jsstring) : jsstring * jsstring :=
  match s with
  | [] => ([], [])
  | 45 :: 45 :: 62 :: r => ([], r)
  | u :: r => let '(a, b) := comment_data r in (u :: a, b)
  end.

Fixpoint tokenize (fuel : nat) (s : jsstring) : list token :=
  match fuel with
  | O => []
  | S fuel' =>
      match s with
      | [] => []
      | 60 :: 47 :: r =>
          match r with
          | [] => [TChar 60; TChar 47]
          | 62 :: r' => tokenize fuel' r'
          | u :: _ =>
              if is_alpha u then
                let '(raw, r1) := span name_char r in
                match scan_attributes (S (length r1)) r1 [] with
                | Some (_, r2) => TEnd (asciiLower raw) :: tokenize fuel' r2
                | None => []
                end
              else
                let '(data, r') := span (fun c => negb (c =? 62)) r in
                TComment data :: tokenize fuel' (tl r')
          end
      | 60 :: 33 :: 45 :: 45 :: 62 :: r
      | 60 :: 33 :: 45 :: 45 :: 45 :: 62 :: r =>
          TComment [] :: tokenize fuel' r
      | 60 :: 33 :: 45 :: 45 :: r =>
          let '(data, r') := comment_data r in
          TComment data :: tokenize fuel' r'
      | 60 :: 33 :: r =>
          let '(data, r') := span (fun c => negb (c =? 62)) r in
          if streq (asciiLower (firstn 7 data)) (js "doctype")
          then tokenize fuel' (tl r')
          else TComment data :: tokenize fuel' (tl r')
      | 60 :: 63 :: r =>
          let '(data, r') := span (fun c => negb (c =? 62)) (63 :: r) in
          TComment data :: tokenize fuel' (tl r')
      | 60 :: u :: r =>
          if is_alpha u then
            let '(raw, r1) := span name_char (u :: r) in
            match scan_attributes (S (length r1)) r1 [] with
            | Some (attributes, r2) =>
                TStart (asciiLower raw) attributes :: tokenize fuel' r2
            | None => []
            end
          else TChar 60 :: tokenize fuel' (u :: r)
      | 38 :: r =>
          match reference r with
          | Some (u, r') => TChar u :: tokenize fuel' r'
          | None => TChar 38 :: tokenize fuel' r
          end
      | u :: r => TChar u :: tokenize fuel' r
      end
  end.

Definition voidElements : list jsstring :=
  [js "area"; js "base"; js "br"; js "col"; js "embed"; js "hr"; js "img";
   js "input"; js "link"; js "meta"; js "source"; js "track"; js "wbr"].

(** An open element: its name, its attributes, and its children so far,
    the last one first. *)
Record frame := {
  f_name : jsstring;
  f_attributes : list (jsstring * jsstring);
  f_children : list node
}.

(** The stack of open elements, the current node first, above the
    children of the context element. *)
Record builder := { open_elements : list frame; root_children : list node }.

Definition append_child (n : node) (b : builder) : builder :=
  match open_elements b with
  | f :: rest =>
      {| open_elements :=
           {| f_name := f_name f; f_attributes := f_attributes f;
              f_children := n :: f_children f |} :: rest;
         root_children := root_children b |}
  | [] => {| open_elements := []; root_children := n :: root_children b |}
  end.

Definition append_char (u : N) (b : builder) : builder :=
  let extend (kids : list node) : list node :=
    match kids with
    | Text data :: older => Text (data ++ [u]) :: older
    | _ => Text [u] :: kids
    end in
  match open_elements b with
  | f :: rest =>
      {| open_elements :=
           {| f_name := f_name f; f_attributes := f_attributes f;
              f_children := extend (f_children f) |} :: rest;
         root_children := root_children b |}
  | [] => {| open_elements := []; root_children := extend (root_children b) |}
  end.

(** The current node is finished and becomes a child of the one below. *)
Definition close_current (b : builder) : builder :=
  match open_elements b with
  | f :: rest =>
      append_child (Element (f_name f) (f_attributes f) (rev (f_children f)))
        {| open_elements := rest; root_children := root_children b |}
  | [] => b
  end.

Fixpoint close_until (fuel : nat) (name : jsstring) (b : builder) : builder :=
  match fuel with
  | O => b
  | S fuel' =>
      match open_elements b with
      | f :: _ =>
          if streq (f_name f) name then close_current b
          else close_until fuel' name (close_current b)
      | [] => b
      end
  end.

Fixpoint close_all (fuel : nat) (b : builder) : builder :=
  match fuel with
  | O => b
  | S fuel' =>
      match open_elements b with
      | _ :: _ => close_all fuel' (close_current b)
      | [] => b
      end
  end.

Definition insert (b : builder) (t : token) : builder :=
  match t with
  | TChar u => append_char u b
  | TComment data => append_child (Comment data) b
  | TStart name attributes =>
      if includes voidElements name then append_child (Element name attributes []) b
      else {| open_elements :=
                {| f_name := name; f_attributes := attributes; f_children := [] |}
                  :: open_elements b;
              root_children := root_children b |}
  | TEnd name =>
      if streq name (js "br") then append_child (Element name [] []) b
      else if existsb (fun f => streq (f_name f) name) (open_elements b)
      then close_until (length (open_elements b)) name b
      else if streq name (js "p") then append_child (Element name [] []) b
      else b
  end.

(** A carriage return, alone or before a line feed, is read as a line
    feed. *)
Fixpoint normalize_newlines (s : jsstring) : jsstring :=
  match s with
  | [] => []
  | 13 :: 10 :: r => 10 :: normalize_newlines r
  | 13 :: r => 10 :: normalize_newlines r
  | u :: r => u :: normalize_newlines r
  end.

Definition parse (s : jsstring) : list node :=
  let s := normalize_newlines s in
  let b := fold_left insert (tokenize (S (length s)) s)
             {| open_elements := []; root_children := [] |} in
  rev (root_children (close_all (length (open_elements b)) b)).

Definition escape_text (s : jsstring) : jsstring :=
  flat_map (fun u =>
              if u =? 38 then js "&amp;"
              else if u =? 60 then js "&lt;"
              else if u =? 62 then js "&gt;"
              else if u =? 160 then js "&nbsp;"
              else [u]) s.

Definition escape_attribute (s : jsstring) : jsstring :=
  flat_map (fun u =>
              if u =? 38 then js "&amp;"
              else if u =? 34 then js "&quot;"
              else if u =? 60 then js "&lt;"
              else if u =? 62 then js "&gt;"
              else if u =? 160 then js "&nbsp;"
              else [u]) s.

Fixpoint serialize_node (n : node) : jsstring :=
  match n with
  | Text data => escape_text data
  | Comment data => js "<!--" ++ data ++ js "-->"
  | Element name attributes kids =>
      js "<" ++ name
        ++ flat_map (fun a => js " " ++ fst a ++ js "=" ++ [c_quot]
                                ++ escape_attribute (snd a) ++ [c_quot]) attributes
        ++ js ">"
        ++ (if includes voidElements name then []
            else flat_map serialize_node kids ++ js "</" ++ name ++ js ">")
  end.

#[local] Instance browser : DOM.Browser := {|
  DOM.parseFragment := parse;
  DOM.serializeFragment := flat_map serialize_node
|}.

End MiniBrowser.

(** ** Inputs of the worked examples *)

Module Examples.

(** A call of [recordEvent] whose three clock readings are [t] and whose
    rendering returns normally. *)
Definition at_time (t : Z) : ThreatMonitor.env :=
  {| ThreatMonitor.now_event := t; ThreatMonitor.now_check := t;
     ThreatMonitor.now_block := t; ThreatMonitor.render_throws := None |}.

(** Details with two credentials and a text of 201 characters. *)
Definition leaky_details : value :=
  VObject [(js "token", VString (js "abc"));
           (js "Cookie", VString (js "sid=1"));
           (js "note", VString (List.repeat 97 201))].

Definition route_txt : GPXParser.file :=
  {| GPXParser.name := js "route.txt"; GPXParser.size := 5 * 1024 * 1024 + 1 |}.
Definition track_upper : GPXParser.file :=
  {| GPXParser.name := js "TRACK.GPX"; GPXParser.size := 1000 |}.
Definition big_gpx : GPXParser.file :=
  {| GPXParser.name := js "big.gpx"; GPXParser.size := 5 * 1024 * 1024 + 1 |}.


(** A device of the storage examples. *)
Definition device : Storage.env :=
  {| Storage.fingerprint := js "Mozilla/5.0|1920|1080|-480|20394";
     Storage.random_iv := [0; 1; 2; 3; 4; 5; 6; 7; 8; 9; 10; 11] |}.

(** An envelope that was written under another key, as a synchronised
    profile brings it along, and a store that finds it. *)
Definition foreign_envelope : jsstring :=
  Storage.text_of
    (Double.stringify
       (VObject [(js "iv", VString (js "AAEC")); (js "data", VString (js "BwgJ"))])).

Definition synced_store : SecureStorage.state (H0 := Double.platform) :=
  @SecureStorage.Build_state Double.platform
    {[ js "secure_shoes" := foreign_envelope ]} (Some (3 : N)) (Ok tt).


Definition shoe : value := VObject [(js "name", VString (js "Hoka"))].

(** An image whose error handler runs a script, and a fragment that holds
    it inside a bold element. *)
Definition image_with_handler : DOM.node :=
  DOM.Element (js "img") [(js "src", js "x"); (js "onerror", js "alert(1)")] [].

Definition nested_fragment : jsstring := js "<b><img src=x onerror=alert(1)>".

(** The fragment of the specification. *)
Definition flat_fragment : jsstring :=
  js "<img src=x onerror=alert(1)>hello<b>bold</b>".

(** A keystroke all of whose clock readings are [t], and a letter typed
    into an input field. *)
Definition key_at (t : Z) : ThreatMonitor.key_env :=
  {| ThreatMonitor.devtools_env := at_time t; ThreatMonitor.now_compare := t;
     ThreatMonitor.rapid_env := at_time t; ThreatMonitor.now_stamp := t |}.

Definition letter_in_input : ThreatMonitor.keystroke :=
  {| ThreatMonitor.ctrlKey := false; ThreatMonitor.shiftKey := false;
     ThreatMonitor.key := js "r"; ThreatMonitor.keyCode := 82%float;
     ThreatMonitor.targetTagName := js "INPUT"; ThreatMonitor.targetId := js "pace" |}.

(** A message from another origin. *)
Definition foreign_message : ModuleSandbox.message_event :=
  {| ModuleSandbox.origin := js "https://ads.example"; ModuleSandbox.data := VNull |}.

End Examples.

(** * Properties *)

(** ** The sanitizer *)

(** C1, at the input the specification names: the two angle brackets of the
    script tag are still literally present in the sanitized text. *)
Theorem sanitize_script_keeps_angle_brackets :
  XSSProtection.sanitize (VString (js "<script>alert(1)</script>"))
    = VString (js "<script>alert(1)<&#x2F;script>")
  /\ In c_lt (XSSProtection.sanitize_string (js "<script>alert(1)</script>"))
  /\ In c_gt (XSSProtection.sanitize_string (js "<script>alert(1)</script>")).
Proof.
  split; [reflexivity|]. split; vm_compute; tauto.
Qed.

Module SanitizeFacts.
Import XSSProtection.

Lemma replace_all_app c r a b :
  replace_all c r (a ++ b) = replace_all c r a ++ replace_all c r b.
Proof. unfold replace_all. apply flat_map_app. Qed.

Lemma sanitize_string_app a b :
  sanitize_string (a ++ b) = sanitize_string a ++ sanitize_string b.
Proof. unfold sanitize_string. now rewrite !replace_all_app. Qed.

Lemma sanitize_unit u : sanitize_string [u] = escape_unit u.
Proof.
  unfold escape_unit, c_amp, c_quot, c_apos, c_slash, c_backslash.
  destruct (N.eqb_spec u 38) as [->|H38]; [reflexivity|].
  destruct (N.eqb_spec u 34) as [->|H34]; [reflexivity|].
  destruct (N.eqb_spec u 39) as [->|H39]; [reflexivity|].
  destruct (N.eqb_spec u 47) as [->|H47]; [reflexivity|].
  destruct (N.eqb_spec u 92) as [->|H92]; [reflexivity|].
  unfold sanitize_string, replace_all, c_amp, c_lt, c_gt, c_quot, c_apos,
    c_slash, c_backslash.
  cbn [flat_map app].
  apply N.eqb_neq in H38, H34, H39, H47, H92.
  rewrite H38. cbn [flat_map app].
  destruct (N.eqb_spec u 60) as [->|H60]; [reflexivity|]. cbn [flat_map app].
  destruct (N.eqb_spec u 62) as [->|H62]; [reflexivity|]. cbn [flat_map app].
  rewrite H34. cbn [flat_map app]. rewrite H39. cbn [flat_map app].
  rewrite H47. cbn [flat_map app]. rewrite H92. reflexivity.
Qed.

(** The chain of replacements is one pass over the string: the ampersand,
    the two quotes, the solidus and the backslash are encoded, and every
    other code unit, the two angle brackets among them, is kept. *)
Lemma sanitize_string_units s : sanitize_string s = flat_map escape_unit s.
Proof.
  induction s as [|u s IH]; [reflexivity|].
  change (u :: s) with ([u] ++ s).
  rewrite sanitize_string_app, sanitize_unit, IH. reflexivity.
Qed.

(** The quotes, the solidus and the backslash never reach the output. *)
Lemma sanitize_string_encodes s u :
  In u [c_quot; c_apos; c_slash; c_backslash] -> ~ In u (sanitize_string s).
Proof.
  intros Hu. rewrite sanitize_string_units, in_flat_map. intros (w & _ & Hw).
  unfold escape_unit, c_amp, c_quot, c_apos, c_slash, c_backslash in *.
  destruct (N.eqb_spec w 38); [|destruct (N.eqb_spec w 34);
    [|destruct (N.eqb_spec w 39); [|destruct (N.eqb_spec w 47);
      [|destruct (N.eqb_spec w 92)]]]];
    cbn in Hu, Hw; intuition (subst; try discriminate; try congruence).
Qed.

(** An angle bracket of the input is an angle bracket of the output. *)
Lemma sanitize_string_keeps_angle s u :
  In u [c_lt; c_gt] -> In u s -> In u (sanitize_string s).
Proof.
  intros Hu Hin. rewrite sanitize_string_units, in_flat_map. exists u.
  split; [assumption|].
  destruct Hu as [<-|[<-|[]]]; left; reflexivity.
Qed.

(** Anything that is not a string comes back unchanged. *)
Lemma sanitize_other v : typeof v <> TString -> sanitize v = v.
Proof. destruct v; cbn; congruence. Qed.

End SanitizeFacts.

(** ** The safe insertion of HTML *)

Module InsertFacts.
Import DOM XSSProtection.

Section WithBrowser.
Context `{Host} `{Browser}.

Lemma In_setAttribute attrs name value n v :
In (n, v) (setAttribute attrs name value) ->
In (n, v) attrs \/ (n, v) = (name, value).
Proof.
induction attrs as [|[n0 v0] attrs IH]; cbn [setAttribute].
- intros [E|[]]. right. now symmetry.
- destruct (streq n0 name) eqn:E.
+ apply bool_decide_eq_true in E. subst n0. intros [E|Hin].
* right. now symmetry.
* left. now right.
+ intros [E0|Hin].
* left. now left.
* destruct (IH Hin) as [Hi|Hi]; [left; now right | now right].
Qed.

(** Only [class] and [style] are copied, and each value is sanitized. *)
Lemma In_copyAttributes attrs n v :
In (n, v) (copyAttributes attrs) ->
In n safeAttributes /\ exists v0, In (n, v0) attrs /\ v = sanitize_string v0.
Proof.
unfold copyAttributes.
assert (Hgen : forall acc,
In (n, v) (fold_left
       (fun safe attr =>
          if includes safeAttributes (fst attr)
          then setAttribute safe (fst attr) (sanitize_string (snd attr))
          else safe) attrs acc) ->
In (n, v) acc \/
(In n safeAttributes /\ exists v0, In (n, v0) attrs /\ v = sanitize_string v0)).
{ induction attrs as [|[n0 v0] attrs IH]; intros acc; cbn [fold_left fst snd].
- now left.
- intros Hin. destruct (IH _ Hin) as [Hacc|(Hs & w & Hw & E)].
+ destruct (includes safeAttributes n0) eqn:Hsafe; [|now left].
destruct (In_setAttribute _ _ _ _ _ Hacc) as [Ho|E]; [now left|].
injection E as -> ->. right. split.
* unfold includes in Hsafe. apply existsb_exists in Hsafe as (y & Hy & E).
apply bool_decide_eq_true in E. now subst.
* exists v0. split; [now left | reflexivity].
+ right. split; [assumption|]. exists w. split; [now right | assumption]. }
intros Hin. destruct (Hgen [] Hin) as [[]|Hr]. exact Hr.
Qed.

(** What one child of the temporary [div] contributes: a text as it is,
an element only under an allowed name and with the copied attributes,
and with whatever its serialized content parses to. *)
Lemma rebuildNode_shape node added n :
rebuildNode node = Ok added -> In n added ->
(exists data, node = Text data /\ n = Text data) \/
(exists name attrs kids,
 node = Element name attrs kids /\
 In (toLowerCase (tagName name)) allowedTags /\
 n = Element (asciiLower (tagName name)) (copyAttributes attrs)
 (parseFragment (serializeFragment kids))).
Proof.
destruct node as [data|data|name attrs kids]; cbn [rebuildNode].
- intros E. injection E as <-. intros [<-|[]]. left. now exists data.
- discriminate.
- destruct (includes allowedTags (toLowerCase (tagName name))) eqn:Ha.
+ intros E. injection E as <-. intros [<-|[]]. right. exists name, attrs, kids.
split; [reflexivity|]. split; [|reflexivity].
unfold includes in Ha. apply existsb_exists in Ha as (y & Hy & E).
apply bool_decide_eq_true in E. now subst.
+ intros E. injection E as <-. intros [].
Qed.

Lemma rebuildAll_shape nodes fragment result n :
rebuildAll nodes fragment = Ok result -> In n result ->
In n fragment \/
exists node added, In node nodes /\ rebuildNode node = Ok added /\ In n added.
Proof.
revert fragment. induction nodes as [|node nodes IH]; intros fragment; cbn [rebuildAll].
- intros E. injection E as <-. now left.
- destruct (rebuildNode node) as [added|x] eqn:Hn; cbn [bind]; [|discriminate].
intros Hr Hin. destruct (IH _ Hr Hin) as [Hf|(nd & ad & Hnd & Had & Hi)].
+ apply in_app_or in Hf as [Hf|Hf]; [now left|].
right. exists node, added. split; [now left | now split].
+ right. exists nd, ad. split; [now right | now split].
Qed.

(** The filter looks at the children of the temporary [div] and no
deeper. *)
Lemma safeInsertHtml_top_level html inserted n :
safeInsertHtml html = (inserted, Ok tt) -> In n inserted ->
(exists data, n = Text data) \/
(exists name attrs kids,
 In (Element name attrs kids) (parseFragment (sanitize_string html)) /\
 In (toLowerCase (tagName name)) allowedTags /\
 n = Element (asciiLower (tagName name)) (copyAttributes attrs)
 (parseFragment (serializeFragment kids))).
Proof.
unfold safeInsertHtml.
destruct (rebuildAll (parseFragment (sanitize_string html)) []) as [fragment|x] eqn:Hr;
[|discriminate].
intros E. injection E as <-. intros Hin.
destruct (rebuildAll_shape _ _ _ _ Hr Hin) as [[]|(node & added & Hnode & Hadd & Hi)].
destruct (rebuildNode_shape _ _ _ Hadd Hi) as [(data & _ & ->)|(name & attrs & kids & -> & Ha & ->)].
- left. now exists data.
- right. now exists name, attrs, kids.
Qed.
End WithBrowser.

End InsertFacts.

(** C2, at a fragment that holds an image with a script handler inside a
    bold element.  On a browser that parses the fragment as the HTML
    standard has it, and gives the image back when its serialization is
    parsed, the bold element is inserted with the image inside it, handler
    included: the allow-list is applied to the children of the temporary
    [div] only. *)
Theorem safeInsertHtml_keeps_nested_handler `{Host} `{DOM.Browser} :
  DOM.parseFragment Examples.nested_fragment
    = [DOM.Element (js "b") [] [Examples.image_with_handler]] ->
  DOM.parseFragment (DOM.serializeFragment [Examples.image_with_handler])
    = [Examples.image_with_handler] ->
  toLowerCase (js "B") = js "b" ->
  XSSProtection.safeInsertHtml Examples.nested_fragment
    = ([DOM.Element (js "b") [] [Examples.image_with_handler]], Ok tt)
  /\ In (js "img", [(js "src", js "x"); (js "onerror", js "alert(1)")])
        (flat_map DOM.elements
           (fst (XSSProtection.safeInsertHtml Examples.nested_fragment))).
Proof.
  intros Hparse Hround Hlower.
  assert (E : XSSProtection.safeInsertHtml Examples.nested_fragment
              = ([DOM.Element (js "b") [] [Examples.image_with_handler]], Ok tt)).
  { unfold XSSProtection.safeInsertHtml.
    change (XSSProtection.sanitize_string Examples.nested_fragment)
      with Examples.nested_fragment.
    rewrite Hparse. cbn [XSSProtection.rebuildAll XSSProtection.rebuildNode].
    change (DOM.tagName (js "b")) with (js "B"). rewrite Hlower.
    change (includes XSSProtection.allowedTags (js "b")) with true. cbv iota.
    rewrite Hround. reflexivity. }
  split; [exact E|]. rewrite E. cbn. right. left. reflexivity.
Qed.

Lemma safeInsertHtml_keeps_nested_handler_witness :
  XSSProtection.safeInsertHtml (H := AsciiHost.host) (H0 := MiniBrowser.browser)
    Examples.nested_fragment
    = ([DOM.Element (js "b") [] [Examples.image_with_handler]], Ok tt)
  /\ In (js "img", [(js "src", js "x"); (js "onerror", js "alert(1)")])
        (flat_map DOM.elements
           (fst (XSSProtection.safeInsertHtml (H := AsciiHost.host)
                   (H0 := MiniBrowser.browser) Examples.nested_fragment))).
Proof.
  apply (@safeInsertHtml_keeps_nested_handler AsciiHost.host MiniBrowser.browser);
    reflexivity.
Defined.

(** The fragment of the specification, on the browser of the examples:
    the image is dropped, the text is kept, and the bold element is kept
    with its closing tag as part of its text, the solidus having been
    encoded before the parse. *)
Lemma safeInsertHtml_flat_fragment :
  XSSProtection.safeInsertHtml (H := AsciiHost.host) (H0 := MiniBrowser.browser)
    Examples.flat_fragment
  = ([DOM.Text (js "hello"); DOM.Element (js "b") [] [DOM.Text (js "bold</b>")]],
     Ok tt).
Proof. vm_compute. reflexivity. Qed.

(** A comment among the children of the temporary [div] makes the call
    throw, and leaves the element empty. *)
Lemma safeInsertHtml_comment_throws :
  XSSProtection.safeInsertHtml (H := AsciiHost.host) (H0 := MiniBrowser.browser)
    (js "text<!-- note -->")
  = ([], Throw (TypeError "Cannot read properties of undefined (reading 'toLowerCase')")).
Proof. vm_compute. reflexivity. Qed.

(** ** Base64 *)

Module Base64Facts.

Lemma triple_ind (P : list N -> Prop) :
  P [] -> (forall a, P [a]) -> (forall a b, P [a; b]) ->
  (forall a b c rest, P rest -> P (a :: b :: c :: rest)) ->
  forall l, P l.
Proof.
  intros H0 H1 H2 H3. fix IH 1.
  intros [|a [|b [|c rest]]]; [exact H0 | apply H1 | apply H2 | apply H3; apply IH].
Qed.

Lemma encode_split bytes :
  b64_encode bytes = List.map b64_char (b64_sextets bytes) ++ b64_padding bytes.
Proof.
  induction bytes as [|a|a b|a b c rest IH] using triple_ind; try reflexivity.
  cbn [b64_encode b64_sextets b64_padding List.map app]. now rewrite IH.
Qed.

Lemma sextets_small bytes :
  Forall (fun b => b < 256) bytes -> Forall (fun s => s < 64) (b64_sextets bytes).
Proof.
  induction bytes as [|a|a b|a b c rest IH] using triple_ind; intros Hall;
    cbn [b64_sextets].
  - constructor.
  - apply List.Forall_cons_iff in Hall as [Ha _].
    repeat constructor; nlia.
  - apply List.Forall_cons_iff in Hall as [Ha Hall].
    apply List.Forall_cons_iff in Hall as [Hb _].
    repeat constructor; nlia.
  - apply List.Forall_cons_iff in Hall as [Ha Hall].
    apply List.Forall_cons_iff in Hall as [Hb Hall].
    apply List.Forall_cons_iff in Hall as [Hc Hall].
    repeat (apply List.Forall_cons; [nlia|]). now apply IH.
Qed.

Lemma bytes_of_sextets bytes :
  Forall (fun b => b < 256) bytes -> b64_bytes (b64_sextets bytes) = bytes.
Proof.
  induction bytes as [|a|a b|a b c rest IH] using triple_ind; intros Hall;
    cbn [b64_sextets b64_bytes].
  - reflexivity.
  - apply List.Forall_cons_iff in Hall as [Ha _]. f_equal. nlia.
  - apply List.Forall_cons_iff in Hall as [Ha Hall].
    apply List.Forall_cons_iff in Hall as [Hb _].
    f_equal; [nlia|]. f_equal. nlia.
  - apply List.Forall_cons_iff in Hall as [Ha Hall].
    apply List.Forall_cons_iff in Hall as [Hb Hall].
    apply List.Forall_cons_iff in Hall as [Hc Hall].
    rewrite IH by assumption.
    f_equal; [nlia|]. f_equal; [nlia|]. f_equal. nlia.
Qed.

Lemma below_64 n : n < 64 -> In n (List.map N.of_nat (seq 0 64)).
Proof.
  intros Hn. apply in_map_iff. exists (N.to_nat n). split; [apply N2Nat.id|].
  apply in_seq. lia.
Qed.

Lemma value_of_char n : n < 64 -> b64_value (b64_char n) = Some n.
Proof.
  intros Hn.
  assert (Hall : forallb
                   (fun n => match b64_value (b64_char n) with
                             | Some m => m =? n
                             | None => false
                             end) (List.map N.of_nat (seq 0 64)) = true)
    by (vm_compute; reflexivity).
  rewrite forallb_forall in Hall. specialize (Hall n (below_64 n Hn)).
  destruct (b64_value (b64_char n)) as [m|]; [|discriminate].
  apply N.eqb_eq in Hall. now subst.
Qed.

Lemma values_of_chars sextets :
  Forall (fun s => s < 64) sextets ->
  b64_values (List.map b64_char sextets) = Some sextets.
Proof.
  induction sextets as [|s sextets IH]; intros Hall; [reflexivity|].
  apply List.Forall_cons_iff in Hall as [Hs Hall].
  cbn [List.map b64_values]. now rewrite value_of_char, IH.
Qed.

(** A character of the alphabet is neither white space nor the equals
    sign. *)
Lemma char_plain n :
  is_ascii_whitespace (b64_char n) = false /\ (b64_char n =? c_equals) = false.
Proof.
  unfold b64_char.
  destruct (nth_in_or_default (N.to_nat n) b64_alphabet 0) as [Hin| ->];
    [|split; reflexivity].
  revert Hin. generalize (nth (N.to_nat n) b64_alphabet 0). intros u Hin.
  assert (Hall : forallb (fun u => negb (is_ascii_whitespace u) && negb (u =? c_equals))
                   b64_alphabet = true) by (vm_compute; reflexivity).
  rewrite forallb_forall in Hall. specialize (Hall u Hin).
  apply andb_true_iff in Hall as [Hw He].
  split; [now apply negb_true_iff in Hw | now apply negb_true_iff in He].
Qed.

Lemma padding_cases bytes :
  b64_padding bytes = [] \/ b64_padding bytes = [c_equals]
  \/ b64_padding bytes = [c_equals; c_equals].
Proof.
  induction bytes as [|a|a b|a b c rest IH] using triple_ind; cbn [b64_padding]; auto.
Qed.

Lemma filter_encode bytes :
  List.filter (fun u => negb (is_ascii_whitespace u)) (b64_encode bytes)
  = b64_encode bytes.
Proof.
  rewrite encode_split, List.filter_app. f_equal.
  - induction (b64_sextets bytes) as [|s l IH]; [reflexivity|].
    cbn [List.map List.filter]. destruct (char_plain s) as [-> _]. cbn [negb].
    now rewrite IH.
  - destruct (padding_cases bytes) as [-> | [-> | ->]]; reflexivity.
Qed.

Lemma encode_length bytes : exists k, length (b64_encode bytes) = (4 * k)%nat.
Proof.
  induction bytes as [|a|a b|a b c rest [k IH]] using triple_ind.
  - now exists 0%nat.
  - now exists 1%nat.
  - now exists 1%nat.
  - exists (S k). cbn [b64_encode length]. rewrite IH. lia.
Qed.

Lemma core_length bytes :
  (length (List.map b64_char (b64_sextets bytes)) mod 4 =? 1)%nat = false.
Proof.
  rewrite length_map. apply Nat.eqb_neq.
  induction bytes as [|a|a b|a b c rest IH] using triple_ind; cbn [b64_sextets length];
    try (cbn; lia).
  replace (S (S (S (S (length (b64_sextets rest))))))
    with (length (b64_sextets rest) + 1 * 4)%nat by lia.
  now rewrite Nat.Div0.mod_add.
Qed.

Lemma strip_encode bytes :
  strip_padding (b64_encode bytes) = List.map b64_char (b64_sextets bytes).
Proof.
  unfold strip_padding.
  destruct (encode_length bytes) as [k Hk]. rewrite Hk.
  replace (4 * k)%nat with (k * 4)%nat by lia. rewrite Nat.Div0.mod_mul.
  cbn [Nat.eqb]. rewrite encode_split in *.
  set (core := List.map b64_char (b64_sextets bytes)) in *.
  assert (Hlast : forall x r, rev core = x :: r -> (x =? c_equals) = false).
  { intros x r E. assert (Hin : In x core).
    { apply in_rev. rewrite E. now left. }
    unfold core in Hin. apply in_map_iff in Hin as (s & <- & _). apply char_plain. }
  destruct (padding_cases bytes) as [-> | [-> | ->]]; rewrite rev_app_distr;
    cbn [rev app].
  - rewrite app_nil_r.
    destruct (rev core) as [|x [|y r]] eqn:E; try reflexivity;
      now rewrite (Hlast _ _ eq_refl).
  - change (c_equals =? c_equals) with true. cbv iota.
    destruct (rev core) as [|y r] eqn:E.
    + apply (f_equal (@rev N)) in E. rewrite rev_involutive in E. now rewrite E.
    + rewrite (Hlast _ _ eq_refl).
      change (rev r ++ [y]) with (rev (y :: r)). rewrite <- E. apply rev_involutive.
  - change (c_equals =? c_equals) with true. cbv iota. apply rev_involutive.
Qed.

(** Decoding what was encoded gives the bytes back. *)
Theorem atob_encode bytes :
  Forall (fun b => b < 256) bytes -> atob (b64_encode bytes) = Ok bytes.
Proof.
  intros Hall. unfold atob. rewrite filter_encode, strip_encode, core_length.
  rewrite values_of_chars by now apply sextets_small.
  now rewrite bytes_of_sextets.
Qed.

End Base64Facts.

(** ** The sandbox payload *)

Module SandboxFacts.
Import ModuleSandbox Observe.

Lemma sanitize_object props :
  sanitizeSandboxData (VObject props) = VObject (fold_left entryStep props []).
Proof.
  cbn [sanitizeSandboxData]. f_equal.
  generalize (@nil (jsstring * value)).
  induction props as [|[k v] props IH]; intros acc; [reflexivity|].
  cbn [fold_left]. rewrite <- IH. reflexivity.
Qed.

Lemma sanitize_array xs :
  sanitizeSandboxData (VArray xs) = VObject (fold_left entryStep (indexed_from 0 xs) []).
Proof.
  cbn [sanitizeSandboxData]. f_equal.
  generalize (@nil (jsstring * value)). generalize 0%nat.
  induction xs as [|x xs IH]; intros i acc; [reflexivity|].
  cbn [fold_left indexed_from]. rewrite <- IH. reflexivity.
Qed.

(** The loop is the one loop over [Object.entries(data)]. *)
Lemma sanitize_entries data entries :
  typeof data = TObject -> Object_entries data = Ok entries ->
  sanitizeSandboxData data = VObject (fold_left entryStep entries []).
Proof.
  destruct data; cbn [typeof Object_entries]; try discriminate; intros _ E;
    injection E as <-; [apply sanitize_array | apply sanitize_object].
Qed.

Lemma streq_true a b : streq a b = true <-> a = b.
Proof. unfold streq. apply bool_decide_eq_true. Qed.

Lemma streq_sym a b : streq a b = streq b a.
Proof. unfold streq. apply bool_decide_ext. split; congruence. Qed.

Lemma streq_refl a : streq a a = true.
Proof. now apply streq_true. Qed.

Lemma includes_true arr x : includes arr x = true <-> In x arr.
Proof.
  unfold includes. rewrite existsb_exists. split.
  - intros (y & Hy & E). apply streq_true in E. now subst.
  - intros Hx. exists x. split; [assumption | now apply streq_true].
Qed.

Lemma includes_false arr x : includes arr x = false <-> ~ In x arr.
Proof.
  rewrite <- includes_true. destruct (includes arr x); split; congruence.
Qed.

Lemma In_upsert o k v k' v' :
  In (k', v') (upsert o k v) -> In (k', v') o \/ (k', v') = (k, v).
Proof.
  induction o as [|[k0 v0] o IH]; cbn [upsert].
  - intros [E|[]]. right. now symmetry.
  - destruct (streq k0 k) eqn:E.
    + apply streq_true in E. subst k0. intros [E|Hin].
      * right. now symmetry.
      * left. now right.
    + intros [E0|Hin].
      * left. now left.
      * destruct (IH Hin) as [H|H]; [left; now right | now right].
Qed.

Lemma In_assign o k v k' v' :
  In (k', v') (assign o k v) ->
  In (k', v') o \/ ((k', v') = (k, v) /\ ~ In k droppedKeys).
Proof.
  unfold assign, obj_set. destruct (includes droppedKeys k) eqn:D; [now left|].
  apply includes_false in D.
  destruct (streq k (js "__proto__")); [now left|].
  intros Hin. apply In_upsert in Hin. tauto.
Qed.

(** Whatever the loop stores was sanitized, and sits under a key that is
    not one of the three dropped names. *)
Lemma In_fold_entryStep entries acc k v :
  In (k, v) (fold_left entryStep entries acc) ->
  In (k, v) acc \/
  exists v0, In (k, v0) entries /\ v = sanitizeSandboxData v0 /\ ~ In k droppedKeys.
Proof.
  revert acc. induction entries as [|[k0 v0] entries IH]; intros acc; cbn [fold_left].
  - now left.
  - intros Hin. destruct (IH _ Hin) as [Hacc|(w & Hw & E & D)].
    + unfold entryStep in Hacc. cbn [fst snd] in Hacc.
      destruct (In_assign _ _ _ _ _ Hacc) as [H|[E D]]; [now left|].
      injection E as -> ->. right. exists v0. split; [now left | now split].
    + right. exists w. split; [now right | now split].
Qed.

Lemma In_indexed_from {A} (i : nat) (xs : list A) k x :
  In (k, x) (indexed_from i xs) -> In x xs.
Proof.
  revert i. induction xs as [|y xs IH]; intros i; cbn [indexed_from]; [tauto|].
  intros [E|Hin]; [injection E as _ ->; now left | right; eauto].
Qed.

Lemma in_all_keys_object props k :
  In k (all_keys (VObject props)) <->
  exists k0 v0, In (k0, v0) props /\ (k = k0 \/ In k (all_keys v0)).
Proof.
  cbn [all_keys]. rewrite in_flat_map. split.
  - intros ([k0 v0] & Hin & [E|Hk]); exists k0, v0; split; auto.
  - intros (k0 & v0 & Hin & Hk). exists (k0, v0). split; [assumption|].
    destruct Hk as [->|Hk]; [now left | now right].
Qed.

Lemma in_all_strings_object props s :
  In s (all_strings (VObject props)) <->
  exists k0 v0, In (k0, v0) props /\ In s (all_strings v0).
Proof.
  cbn [all_strings]. rewrite in_flat_map. split.
  - intros ([k0 v0] & Hin & Hs). now exists k0, v0.
  - intros (k0 & v0 & Hin & Hs). now exists (k0, v0).
Qed.

(** None of the three names is a key of the result, at any depth. *)
Lemma sanitizeSandboxData_keys data k :
  In k (all_keys (sanitizeSandboxData data)) -> ~ In k droppedKeys.
Proof.
  revert k. induction data as [| | | | |xs IH|props IH] using value_ind';
    intros k; try (cbn; tauto).
  - rewrite sanitize_array, in_all_keys_object.
    intros (k0 & v0 & Hin & Hk).
    apply In_fold_entryStep in Hin. destruct Hin as [[]|(w & Hw & -> & D)].
    destruct Hk as [->|Hk]; [assumption|].
    apply In_indexed_from in Hw.
    rewrite List.Forall_forall in IH. now apply (IH w Hw).
  - rewrite sanitize_object, in_all_keys_object.
    intros (k0 & v0 & Hin & Hk).
    apply In_fold_entryStep in Hin. destruct Hin as [[]|(w & Hw & -> & D)].
    destruct Hk as [->|Hk]; [assumption|].
    rewrite List.Forall_forall in IH. now apply (IH (k0, w) Hw).
Qed.

(** Every string of the result is the sanitized form of a string of the
    payload. *)
Lemma sanitizeSandboxData_strings data s :
  In s (all_strings (sanitizeSandboxData data)) ->
  exists s0, In s0 (all_strings data) /\ s = XSSProtection.sanitize_string s0.
Proof.
  revert s. induction data as [| | | |s0|xs IH|props IH] using value_ind';
    intros s; try (cbn; tauto).
  - cbn. intros [<-|[]]. exists s0. split; [now left | reflexivity].
  - rewrite sanitize_array, in_all_strings_object.
    intros (k0 & v0 & Hin & Hs).
    apply In_fold_entryStep in Hin. destruct Hin as [[]|(w & Hw & -> & D)].
    apply In_indexed_from in Hw.
    rewrite List.Forall_forall in IH. destruct (IH w Hw _ Hs) as (s1 & H1 & ->).
    exists s1. split; [|reflexivity].
    cbn [all_strings]. apply in_flat_map. now exists w.
  - rewrite sanitize_object, in_all_strings_object.
    intros (k0 & v0 & Hin & Hs).
    apply In_fold_entryStep in Hin. destruct Hin as [[]|(w & Hw & -> & D)].
    rewrite List.Forall_forall in IH. destruct (IH (k0, w) Hw _ Hs) as (s1 & H1 & ->).
    exists s1. split; [|reflexivity].
    cbn [all_strings]. apply in_flat_map. now exists (k0, w).
Qed.


(** *** Arrays *)

Lemma js_inj a b : js a = js b -> a = b.
Proof.
  unfold js. intros E.
  rewrite <- (string_of_list_ascii_of_string a), <- (string_of_list_ascii_of_string b).
  f_equal. revert E. generalize (list_ascii_of_string a) (list_ascii_of_string b).
  induction l as [|x l IH]; intros [|y l']; cbn; try discriminate; [reflexivity|].
  intros E. injection E as E1 E2. f_equal; [|now apply IH].
  rewrite <- (ascii_N_embedding x), <- (ascii_N_embedding y). now f_equal.
Qed.

Lemma js_cons c s : js (String c s) = N_of_ascii c :: js s.
Proof. reflexivity. Qed.

Lemma index_key_inj i j : index_key i = index_key j -> i = j.
Proof.
  unfold index_key. intros E. apply js_inj in E.
  apply DecimalNat.Unsigned.to_uint_inj.
  pose proof (NilEmpty.usu (Nat.to_uint i)) as Hi.
  pose proof (NilEmpty.usu (Nat.to_uint j)) as Hj.
  rewrite E in Hi. congruence.
Qed.

Lemma index_key_digits i : forallb is_digit (index_key i) = true.
Proof.
  unfold index_key. generalize (Nat.to_uint i).
  induction u; cbn [NilEmpty.string_of_uint]; [reflexivity|..];
    rewrite js_cons; cbn [forallb]; rewrite IHu; reflexivity.
Qed.

Lemma index_key_not_named i (name : jsstring) :
  forallb is_digit name = false -> index_key i <> name.
Proof. intros Hn E. rewrite <- E, index_key_digits in Hn. discriminate. Qed.

Lemma index_key_kept i : includes droppedKeys (index_key i) = false.
Proof.
  apply includes_false. intros Hin.
  repeat (destruct Hin as [E|Hin];
          [symmetry in E; revert E; apply index_key_not_named; reflexivity|]).
  destruct Hin.
Qed.

Lemma upsert_fresh o k v :
  ~ In k (List.map fst o) -> upsert o k v = o ++ [(k, v)].
Proof.
  induction o as [|[k0 v0] o IH]; cbn [upsert List.map fst In app]; [reflexivity|].
  intros Hk. destruct (streq k0 k) eqn:E.
  - apply streq_true in E. tauto.
  - rewrite IH by tauto. reflexivity.
Qed.

Lemma assign_index acc i v :
  ~ In (index_key i) (List.map fst acc) ->
  assign acc (index_key i) v = acc ++ [(index_key i, v)].
Proof.
  intros Hk. unfold assign, obj_set. rewrite index_key_kept.
  destruct (streq (index_key i) (js "__proto__")) eqn:E.
  - apply streq_true in E. exfalso. revert E. now apply index_key_not_named.
  - now apply upsert_fresh.
Qed.

Lemma fold_entryStep_indexed xs i acc :
  (forall k, In k (List.map fst acc) -> exists j, (j < i)%nat /\ k = index_key j) ->
  fold_left entryStep (indexed_from i xs) acc
  = acc ++ indexed_from i (List.map sanitizeSandboxData xs).
Proof.
  revert i acc. induction xs as [|x xs IH]; intros i acc Hacc;
    cbn [indexed_from List.map fold_left].
  - now rewrite app_nil_r.
  - unfold entryStep at 2. cbn [fst snd]. rewrite assign_index.
    + rewrite IH.
      * now rewrite <- app_assoc.
      * intros k. rewrite List.map_app, in_app_iff. cbn [List.map fst In].
        intros [Hk|[<-|[]]].
        -- destruct (Hacc k Hk) as (j & Hj & ->). exists j. split; [lia | reflexivity].
        -- exists i. split; [lia | reflexivity].
    + intros Hk. destruct (Hacc _ Hk) as (j & Hj & E).
      apply index_key_inj in E. lia.
Qed.

(** An array comes back as the object of its indices. *)
Lemma sanitize_array_indexed xs :
  sanitizeSandboxData (VArray xs)
  = VObject (indexed_from 0 (List.map sanitizeSandboxData xs)).
Proof.
  rewrite sanitize_array, fold_entryStep_indexed; [reflexivity|].
  intros k [].
Qed.

Lemma no_array_object props :
  (forall k v, In (k, v) props -> no_array v = true) ->
  no_array (VObject props) = true.
Proof.
  intros Hall. cbn [no_array]. apply forallb_forall. intros [k v] Hin. eauto.
Qed.

Lemma sanitizeSandboxData_no_array data : no_array (sanitizeSandboxData data) = true.
Proof.
  induction data as [| | | |s0|xs IH|props IH] using value_ind'; try reflexivity.
  - rewrite sanitize_array. apply no_array_object. intros k v Hin.
    apply In_fold_entryStep in Hin. destruct Hin as [[]|(w & Hw & -> & _)].
    apply In_indexed_from in Hw. rewrite List.Forall_forall in IH. now apply IH.
  - rewrite sanitize_object. apply no_array_object. intros k v Hin.
    apply In_fold_entryStep in Hin. destruct Hin as [[]|(w & Hw & -> & _)].
    rewrite List.Forall_forall in IH. now apply (IH (k, w)).
Qed.

(** *** What is kept *)

Lemma obj_get_upsert o k v k' :
  obj_get (upsert o k v) k' = if streq k k' then Some v else obj_get o k'.
Proof.
  induction o as [|[k0 v0] o IH]; cbn [upsert obj_get].
  - destruct (streq k k'); reflexivity.
  - destruct (streq k0 k) eqn:E0; cbn [obj_get].
    + apply streq_true in E0. subst k0. destruct (streq k k'); reflexivity.
    + rewrite IH. destruct (streq k0 k') eqn:E1; [|reflexivity].
      apply streq_true in E1. subst k0. now rewrite streq_sym, E0.
Qed.

Lemma obj_get_assign_other acc k v k' :
  k <> k' -> obj_get (assign acc k v) k' = obj_get acc k'.
Proof.
  intros Hne. unfold assign, obj_set.
  destruct (includes droppedKeys k); [reflexivity|].
  destruct (streq k (js "__proto__")); [reflexivity|].
  rewrite obj_get_upsert. destruct (streq k k') eqn:E; [|reflexivity].
  apply streq_true in E. contradiction.
Qed.

Lemma obj_get_assign_same acc k v :
  ~ In k droppedKeys -> obj_get (assign acc k v) k = Some v.
Proof.
  intros Hk. unfold assign, obj_set.
  apply includes_false in Hk. rewrite Hk.
  destruct (streq k (js "__proto__")) eqn:E.
  - apply streq_true in E. subst k. discriminate.
  - rewrite obj_get_upsert.
    destruct (streq k k) eqn:E'; [reflexivity|].
    assert (streq k k = true) by now apply streq_true. congruence.
Qed.

Lemma obj_get_fold_other entries acc k :
  ~ In k (List.map fst entries) ->
  obj_get (fold_left entryStep entries acc) k = obj_get acc k.
Proof.
  revert acc. induction entries as [|[k0 v0] entries IH]; intros acc Hk;
    cbn [fold_left]; [reflexivity|].
  cbn [List.map fst In] in Hk. rewrite IH by tauto.
  unfold entryStep. cbn [fst snd]. apply obj_get_assign_other. tauto.
Qed.

(** A property under another name than the three is kept, sanitized. *)
Lemma obj_get_fold_kept entries acc k v :
  List.NoDup (List.map fst entries) -> In (k, v) entries -> ~ In k droppedKeys ->
  obj_get (fold_left entryStep entries acc) k = Some (sanitizeSandboxData v).
Proof.
  revert acc. induction entries as [|[k0 v0] entries IH]; intros acc Hnd Hin Hk;
    [destruct Hin|].
  cbn [List.map fst] in Hnd. apply NoDup_cons_iff in Hnd as [Hfresh Hnd].
  cbn [fold_left]. destruct Hin as [E|Hin].
  - injection E as -> ->. rewrite obj_get_fold_other by assumption.
    unfold entryStep. cbn [fst snd]. now apply obj_get_assign_same.
  - now apply IH.
Qed.

(** *** The message handler *)

Lemma handleMessage_dispatch `{Host} location_origin st event st' effs name detail :
  handleMessage location_origin st event = Ok (st', effs) ->
  In (DispatchCustomEvent name detail) effs ->
  exists payload,
    get_prop (data event) (js "data") = Ok payload /\
    detail = sanitizeSandboxData payload.
Proof.
  unfold handleMessage.
  destruct (negb (streq (origin event) location_origin)).
  { intros E. injection E as <- <-. intros []. }
  destruct (get_prop (data event) (js "type")) as [ty|e]; cbn [bind]; [|discriminate].
  destruct (is_string ty (js "SANDBOX_READY")).
  { destruct (get_prop (data event) (js "id")) as [id|e]; cbn [bind]; [|discriminate].
    destruct id; try (intros E; injection E as <- <-; intros []).
    destruct (pendingMessages st !! s); intros E; injection E as <- <-.
    - intros [E|[E|[]]]; discriminate.
    - intros []. }
  destruct (is_string ty (js "SANDBOX_MESSAGE")).
  2:{ intros E. injection E as <- <-. intros []. }
  destruct (get_prop (data event) (js "data")) as [payload|e]; cbn [bind]; [|discriminate].
  destruct (get_prop (data event) (js "id")) as [id|e]; cbn [bind]; [|discriminate].
  destruct (substitution id) as [text|e]; cbn [bind]; [|discriminate].
  intros E. injection E as <- <-. intros [E|[]]. injection E as <- <-.
  exists payload. split; reflexivity.
Qed.

End SandboxFacts.

(** C8.  Whatever [handleMessage] dispatches to the host application is the
    sanitized payload of the message: none of the names [__proto__],
    [constructor] and [prototype] is a key of it at any depth, every string
    in it is the sanitizer's output for a string of the payload, and a
    property of the payload under any other name is kept, sanitized in
    turn. *)
Theorem sandbox_payload_sanitized `{Host} location_origin st event st' effs name detail :
  ModuleSandbox.handleMessage location_origin st event = Ok (st', effs) ->
  In (ModuleSandbox.DispatchCustomEvent name detail) effs ->
  exists payload,
    get_prop (ModuleSandbox.data event) (js "data") = Ok payload /\
    detail = ModuleSandbox.sanitizeSandboxData payload /\
    (forall k, In k (Observe.all_keys detail) -> ~ In k ModuleSandbox.droppedKeys) /\
    (forall s, In s (Observe.all_strings detail) ->
       exists s0, In s0 (Observe.all_strings payload) /\
                  s = XSSProtection.sanitize_string s0) /\
    (forall entries k v,
       typeof payload = TObject -> Object_entries payload = Ok entries ->
       List.NoDup (List.map fst entries) ->
       In (k, v) entries -> ~ In k ModuleSandbox.droppedKeys ->
       exists props, detail = VObject props /\
         obj_get props k = Some (ModuleSandbox.sanitizeSandboxData v)).
Proof.
  intros Hrun Hin.
  destruct (SandboxFacts.handleMessage_dispatch _ _ _ _ _ _ _ Hrun Hin)
    as (payload & Hp & ->).
  exists payload. repeat split; try assumption.
  - intros k. apply SandboxFacts.sanitizeSandboxData_keys.
  - intros s. apply SandboxFacts.sanitizeSandboxData_strings.
  - intros entries k v Hty He Hnd Hkv Hk.
    rewrite (SandboxFacts.sanitize_entries _ _ Hty He).
    eexists. split; [reflexivity|].
    now apply SandboxFacts.obj_get_fold_kept.
Qed.

Lemma sandbox_payload_sanitized_witness :
  exists payload,
    get_prop
      (VObject [(js "type", VString (js "SANDBOX_MESSAGE"));
                (js "id", VString (js "chart"));
                (js "data",
                  VObject [(js "__proto__", VObject [(js "polluted", VBool true)]);
                           (js "note", VString (js "a/b"));
                           (js "inner", VObject [(js "constructor", VNull);
                                                 (js "q", VString (js "it's"))])])])
      (js "data") = Ok payload /\
    VObject [(js "note", VString (js "a&#x2F;b"));
             (js "inner", VObject [(js "q", VString (js "it&#039;s"))])]
      = ModuleSandbox.sanitizeSandboxData payload /\
    (forall k,
       In k (Observe.all_keys
               (VObject [(js "note", VString (js "a&#x2F;b"));
                         (js "inner", VObject [(js "q", VString (js "it&#039;s"))])])) ->
       ~ In k ModuleSandbox.droppedKeys) /\
    (forall s,
       In s (Observe.all_strings
               (VObject [(js "note", VString (js "a&#x2F;b"));
                         (js "inner", VObject [(js "q", VString (js "it&#039;s"))])])) ->
       exists s0, In s0 (Observe.all_strings payload) /\
                  s = XSSProtection.sanitize_string s0) /\
    (forall entries k v,
       typeof payload = TObject -> Object_entries payload = Ok entries ->
       List.NoDup (List.map fst entries) ->
       In (k, v) entries -> ~ In k ModuleSandbox.droppedKeys ->
       exists props,
         VObject [(js "note", VString (js "a&#x2F;b"));
                  (js "inner", VObject [(js "q", VString (js "it&#039;s"))])]
           = VObject props /\
         obj_get props k = Some (ModuleSandbox.sanitizeSandboxData v)).
Proof.
  apply (@sandbox_payload_sanitized AsciiHost.host (js "https://trailsync.app")
           {| ModuleSandbox.pendingMessages := ∅ |}
           {| ModuleSandbox.origin := js "https://trailsync.app";
              ModuleSandbox.data :=
                VObject [(js "type", VString (js "SANDBOX_MESSAGE"));
                         (js "id", VString (js "chart"));
                         (js "data",
                           VObject [(js "__proto__", VObject [(js "polluted", VBool true)]);
                                    (js "note", VString (js "a/b"));
                                    (js "inner", VObject [(js "constructor", VNull);
                                                          (js "q", VString (js "it's"))])])] |}
           {| ModuleSandbox.pendingMessages := ∅ |}
           [ModuleSandbox.DispatchCustomEvent (js "sandbox-message-chart")
              (VObject [(js "note", VString (js "a&#x2F;b"));
                        (js "inner", VObject [(js "q", VString (js "it&#039;s"))])])]
           (js "sandbox-message-chart")).
  - reflexivity.
  - left. reflexivity.
Defined.

(** C9.  An array never reaches the custom event: what is dispatched holds
    no array at any depth, and an array met anywhere by the recursion comes
    back as the plain object whose keys are its indices and whose values are
    the sanitized elements. *)
Theorem sandbox_array_becomes_object `{Host} location_origin st event st' effs name detail :
  ModuleSandbox.handleMessage location_origin st event = Ok (st', effs) ->
  In (ModuleSandbox.DispatchCustomEvent name detail) effs ->
  exists payload,
    get_prop (ModuleSandbox.data event) (js "data") = Ok payload /\
    detail = ModuleSandbox.sanitizeSandboxData payload /\
    Observe.no_array detail = true /\
    (forall xs,
       ModuleSandbox.sanitizeSandboxData (VArray xs)
       = VObject (indexed_from 0 (List.map ModuleSandbox.sanitizeSandboxData xs))).
Proof.
  intros Hrun Hin.
  destruct (SandboxFacts.handleMessage_dispatch _ _ _ _ _ _ _ Hrun Hin)
    as (payload & Hp & ->).
  exists payload. repeat split; try assumption.
  - apply SandboxFacts.sanitizeSandboxData_no_array.
  - apply SandboxFacts.sanitize_array_indexed.
Qed.

Lemma sandbox_array_becomes_object_witness :
  exists payload,
    get_prop
      (VObject [(js "type", VString (js "SANDBOX_MESSAGE"));
                (js "id", VString (js "chart"));
                (js "data", VArray [VString (js "a"); VArray [VBool true; VNull]])])
      (js "data") = Ok payload /\
    VObject [(js "0", VString (js "a"));
             (js "1", VObject [(js "0", VBool true); (js "1", VNull)])]
      = ModuleSandbox.sanitizeSandboxData payload /\
    Observe.no_array
      (VObject [(js "0", VString (js "a"));
                (js "1", VObject [(js "0", VBool true); (js "1", VNull)])]) = true /\
    (forall xs,
       ModuleSandbox.sanitizeSandboxData (VArray xs)
       = VObject (indexed_from 0 (List.map ModuleSandbox.sanitizeSandboxData xs))).
Proof.
  apply (@sandbox_array_becomes_object AsciiHost.host (js "https://trailsync.app")
           {| ModuleSandbox.pendingMessages := ∅ |}
           {| ModuleSandbox.origin := js "https://trailsync.app";
              ModuleSandbox.data :=
                VObject [(js "type", VString (js "SANDBOX_MESSAGE"));
                         (js "id", VString (js "chart"));
                         (js "data", VArray [VString (js "a"); VArray [VBool true; VNull]])] |}
           {| ModuleSandbox.pendingMessages := ∅ |}
           [ModuleSandbox.DispatchCustomEvent (js "sandbox-message-chart")
              (VObject [(js "0", VString (js "a"));
                        (js "1", VObject [(js "0", VBool true); (js "1", VNull)])])]
           (js "sandbox-message-chart")).
  - reflexivity.
  - left. reflexivity.
Defined.

(** ** The details handed to the logger *)

Module DetailsFacts.
Import SecurityCore SandboxFacts.

Section WithHost.
Context `{Host}.

Lemma In_obj_set o k v k' v' :
In (k', v') (obj_set o k v) -> In (k', v') o \/ (k', v') = (k, v).
Proof.
unfold obj_set. destruct (streq k (js "__proto__")); [now left|].
apply In_upsert.
Qed.

Lemma obj_get_obj_set o k v k' :
k <> js "__proto__" ->
obj_get (obj_set o k v) k' = if streq k k' then Some v else obj_get o k'.
Proof.
intros Hk. unfold obj_set.
destruct (streq k (js "__proto__")) eqn:E.
- apply streq_true in E. contradiction.
- apply obj_get_upsert.
Qed.

Lemma obj_get_obj_set_other o k v k' :
k <> k' -> obj_get (obj_set o k v) k' = obj_get o k'.
Proof.
intros Hne. unfold obj_set. destruct (streq k (js "__proto__")); [reflexivity|].
rewrite obj_get_upsert. destruct (streq k k') eqn:E; [|reflexivity].
apply streq_true in E. contradiction.
Qed.

(** Every field of the copy is the image of a field of the details whose
lowercased name is not one of the three. *)
Lemma In_fold_sanitizeStep entries acc k v :
In (k, v) (fold_left sanitizeStep entries acc) ->
In (k, v) acc \/
exists v0, In (k, v0) entries /\ v = sanitizeField v0 /\
 ~ In (toLowerCase k) droppedFields.
Proof.
revert acc. induction entries as [|[k0 v0] entries IH]; intros acc; cbn [fold_left].
- now left.
- intros Hin. destruct (IH _ Hin) as [Hacc|(w & Hw & E & D)].
+ cbn [sanitizeStep] in Hacc.
destruct (includes droppedFields (toLowerCase k0)) eqn:D; [now left|].
apply includes_false in D.
destruct (In_obj_set _ _ _ _ _ Hacc) as [Ho|E]; [now left|].
injection E as -> ->. right. exists v0. split; [now left | now split].
+ right. exists w. split; [now right | now split].
Qed.

Lemma obj_get_fold_sanitizeStep_other entries acc k :
~ In k (List.map fst entries) ->
obj_get (fold_left sanitizeStep entries acc) k = obj_get acc k.
Proof.
revert acc. induction entries as [|[k0 v0] entries IH]; intros acc Hk;
cbn [fold_left]; [reflexivity|].
cbn [List.map fst In] in Hk. rewrite IH by tauto.
cbn [sanitizeStep]. destruct (includes droppedFields (toLowerCase k0)); [reflexivity|].
apply obj_get_obj_set_other. tauto.
Qed.

(** A field is kept, through [sanitizeField], unless its lowercased name
is one of the three or its name is [__proto__]. *)
Lemma obj_get_fold_sanitizeStep entries acc k v :
List.NoDup (List.map fst entries) -> In (k, v) entries ->
~ In (toLowerCase k) droppedFields -> k <> js "__proto__" ->
obj_get (fold_left sanitizeStep entries acc) k = Some (sanitizeField v).
Proof.
revert acc. induction entries as [|[k0 v0] entries IH]; intros acc Hnd Hin Hk Hp;
[destruct Hin|].
cbn [List.map fst] in Hnd. apply NoDup_cons_iff in Hnd as [Hfresh Hnd].
cbn [fold_left]. destruct Hin as [E|Hin].
- injection E as -> ->. rewrite obj_get_fold_sanitizeStep_other by assumption.
cbn [sanitizeStep]. apply includes_false in Hk. rewrite Hk.
rewrite obj_get_obj_set by assumption. now rewrite streq_refl.
- now apply IH.
Qed.
End WithHost.

End DetailsFacts.

(** C10, as the source has it.  The logger is called with a fresh object.
    No field of it has a lowercased name among [route], [eph], [password].
    A field of the details under another name, and not named [__proto__],
    is in it: a number as [parseFloat(value.toFixed(2))], a string as the
    sanitizer encodes it, anything else as it is.  It has no other
    field. *)
Theorem logged_details_are_sanitized `{Host} eventType props :
  Observe.wf_props props ->
  exists safe,
    SecurityCore.logSecurityEvent eventType (VObject props)
      = Ok [SecurityCore.LoggerLog eventType (VObject safe)] /\
    (forall k v, In (k, v) safe ->
       ~ In (toLowerCase k) SecurityCore.droppedFields /\
       exists v0, In (k, v0) props /\ v = SecurityCore.sanitizeField v0) /\
    (forall k v, In (k, v) props ->
       ~ In (toLowerCase k) SecurityCore.droppedFields -> k <> js "__proto__" ->
       obj_get safe k = Some
         match v with
         | VNumber x => VNumber (parseFloat (toFixed x 2))
         | VString s => VString (XSSProtection.sanitize_string s)
         | other => other
         end).
Proof.
  intros Hwf. eexists. split; [reflexivity|]. split.
  - intros k v Hin. apply DetailsFacts.In_fold_sanitizeStep in Hin.
    destruct Hin as [[]|(v0 & Hv0 & -> & Hk)]. split; [assumption|]. now exists v0.
  - intros k v Hin Hk Hp.
    rewrite (DetailsFacts.obj_get_fold_sanitizeStep props [] k v Hwf Hin Hk Hp).
    reflexivity.
Qed.

Lemma logged_details_are_sanitized_witness :
  exists safe,
    @SecurityCore.logSecurityEvent AsciiHost.host (js "WORKOUT_SAVED")
      (VObject [(js "Route", VString (js "Yangmingshan"));
                (js "name", VString (js "<b>5x400</b>"));
                (js "ok", VBool true)])
      = Ok [SecurityCore.LoggerLog (js "WORKOUT_SAVED") (VObject safe)] /\
    (forall k v, In (k, v) safe ->
       ~ In (@toLowerCase AsciiHost.host k) SecurityCore.droppedFields /\
       exists v0,
         In (k, v0) [(js "Route", VString (js "Yangmingshan"));
                     (js "name", VString (js "<b>5x400</b>"));
                     (js "ok", VBool true)] /\
         v = @SecurityCore.sanitizeField AsciiHost.host v0) /\
    (forall k v,
       In (k, v) [(js "Route", VString (js "Yangmingshan"));
                  (js "name", VString (js "<b>5x400</b>"));
                  (js "ok", VBool true)] ->
       ~ In (@toLowerCase AsciiHost.host k) SecurityCore.droppedFields ->
       k <> js "__proto__" ->
       obj_get safe k = Some
         match v with
         | VNumber x => VNumber (@parseFloat AsciiHost.host (@toFixed AsciiHost.host x 2))
         | VString s => VString (XSSProtection.sanitize_string s)
         | other => other
         end).
Proof.
  apply (@logged_details_are_sanitized AsciiHost.host (js "WORKOUT_SAVED")
           [(js "Route", VString (js "Yangmingshan"));
            (js "name", VString (js "<b>5x400</b>"));
            (js "ok", VBool true)]).
  unfold Observe.wf_props. cbn [List.map fst].
  repeat constructor; cbn [In]; intros Hin;
    repeat (destruct Hin as [E|Hin]; [vm_compute in E; discriminate|]); exact Hin.
Defined.

(** C10, at a details object with a field named [__proto__]: the field is
    none of the dropped names, and it is a boolean; the logger receives an
    object without it. *)
Lemma logged_details_lose_proto_field :
  @SecurityCore.logSecurityEvent AsciiHost.host (js "SHOE_ADDED")
    (VObject [(js "__proto__", VBool true); (js "shoeId", VString (js "s1"))])
    = Ok [SecurityCore.LoggerLog (js "SHOE_ADDED") (VObject [(js "shoeId", VString (js "s1"))])]
  /\ ~ In (@toLowerCase AsciiHost.host (js "__proto__")) SecurityCore.droppedFields
  /\ obj_get [(js "shoeId", VString (js "s1"))] (js "__proto__") = None.
Proof.
  split; [reflexivity|]. split; [|reflexivity].
  intros Hin. repeat (destruct Hin as [E|Hin]; [vm_compute in E; discriminate|]).
  exact Hin.
Qed.

(** ** The threat monitor *)

Module ThreatFacts.
Import Run ThreatMonitor.

Lemma blocks_app a b : blocks (a ++ b) = (blocks a + blocks b)%nat.
Proof. unfold blocks. now rewrite List.filter_app, length_app. Qed.

Lemma seq_effs {S E A B} (m : Run.M S E A) (k : A -> Run.M S E B) st :
  effs (seq m k st)
  = effs (m st) ++ match snd (m st) with
                   | Ok a => effs (k a (after (m st)))
                   | Throw _ => []
                   end.
Proof.
  unfold seq, effs, after. destruct (m st) as [[st1 e1] [a|x]]; cbn [fst snd].
  - destruct (k a st1) as [[st2 e2] r2]. reflexivity.
  - now rewrite app_nil_r.
Qed.

Lemma seq_after {S E A B} (m : Run.M S E A) (k : A -> Run.M S E B) st :
  after (seq m k st)
  = match snd (m st) with
    | Ok a => after (k a (after (m st)))
    | Throw _ => after (m st)
    end.
Proof.
  unfold seq, after. destruct (m st) as [[st1 e1] [a|x]]; cbn [fst snd].
  - destruct (k a st1) as [[st2 e2] r2]. reflexivity.
  - reflexivity.
Qed.

Section WithHost.
Context `{Host}.

Lemma forward_effs_blocks type details st :
blocks (effs (forward type details st)) = 0%nat.
Proof.
unfold forward. rewrite seq_effs. cbn [emit effs after fst snd].
destruct (SecurityCore.logSecurityEvent type details) as [calls|x]; cbn [throw fst snd app].
- unfold blocks. cbn [List.filter is_block]. induction calls; [reflexivity | assumption].
- reflexivity.
Qed.

Lemma forward_after type details st :
eventHistory (after (forward type details st)) = eventHistory st.
Proof.
unfold forward. rewrite seq_after. cbn [emit effs after fst snd].
destruct (SecurityCore.logSecurityEvent type details); reflexivity.
Qed.

Lemma showWarning_blocks e st : blocks (effs (_showWarning e st)) = 0%nat.
Proof.
unfold _showWarning, seq, get, put, emit, ret, throw, effs.
destruct (warningShown st); [reflexivity|].
destruct (render_throws e); reflexivity.
Qed.

Lemma showWarning_history e st :
eventHistory (after (_showWarning e st)) = eventHistory st.
Proof.
unfold _showWarning, seq, get, put, emit, ret, throw, after.
destruct (warningShown st); [reflexivity|].
destruct (render_throws e); reflexivity.
Qed.

Lemma blockAccess_blocks e st : blocks (effs (_blockAccess e st)) = 1%nat.
Proof.
unfold _blockAccess, seq, get, put, emit, ret, throw, effs.
destruct (render_throws e); reflexivity.
Qed.

Lemma blockAccess_history e st :
eventHistory (after (_blockAccess e st)) = eventHistory st.
Proof.
unfold _blockAccess, seq, get, put, emit, ret, throw, after.
destruct (render_throws e); reflexivity.
Qed.

Lemma score_ge_not_lt score :
score_ge score blockThreshold = true -> score_lt score blockThreshold = false.
Proof. destruct score as [z|]; [|reflexivity]. unfold score_ge, score_lt. lia. Qed.

(** [_checkThreatLevel] enters the block path once if the score reaches
the threshold, and not at all otherwise. *)
Lemma checkThreatLevel_blocks e st :
blocks (effs (_checkThreatLevel e st))
= if score_ge (riskScore (now_check e) (eventHistory st)) blockThreshold
then 1%nat else 0%nat.
Proof.
unfold _checkThreatLevel. rewrite seq_effs. cbn [get effs after fst snd app].
set (score := riskScore _ _). rewrite seq_effs, blocks_app.
destruct (score_ge score blockThreshold) eqn:Hb.
- rewrite (score_ge_not_lt _ Hb), andb_false_r.
cbn [ret effs after fst snd]. apply blockAccess_blocks.
- destruct (score_ge score suspiciousThreshold && score_lt score blockThreshold).
+ rewrite showWarning_blocks. destruct (snd (_showWarning e st)); reflexivity.
+ reflexivity.
Qed.

Lemma checkThreatLevel_history e st :
eventHistory (after (_checkThreatLevel e st)) = eventHistory st.
Proof.
unfold _checkThreatLevel. rewrite seq_after. cbn [get effs after fst snd].
set (score := riskScore _ _). rewrite seq_after.
destruct (score_ge score suspiciousThreshold && score_lt score blockThreshold).
- destruct (snd (_showWarning e st)) eqn:E.
+ destruct (score_ge score blockThreshold).
* now rewrite blockAccess_history, showWarning_history.
* cbn [ret after fst]. apply showWarning_history.
+ apply showWarning_history.
- cbn [ret after fst snd]. destruct (score_ge score blockThreshold).
+ apply blockAccess_history.
+ reflexivity.
Qed.

Lemma pushEvent_run ev st :
pushEvent ev st
= ({| eventHistory := pushed ev (eventHistory st);
warningShown := warningShown st;
blockedIps := blockedIps st |}, [], Ok tt).
Proof. reflexivity. Qed.

Lemma recordEvent_history e type details st :
eventHistory (after (recordEvent e type details st))
= pushed (eventOf e type details) (eventHistory st).
Proof.
unfold recordEvent. fold (eventOf e type details).
rewrite seq_after, pushEvent_run. cbn [after fst snd].
rewrite seq_after.
destruct (snd (_checkThreatLevel e _)).
- now rewrite forward_after, checkThreatLevel_history.
- now rewrite checkThreatLevel_history.
Qed.

(** A call enters the block path once if its score reaches the
threshold, and not at all otherwise. *)
Lemma recordEvent_blocks e type details st :
blocks (effs (recordEvent e type details st))
= if score_ge (riskScore (now_check e)
       (pushed (eventOf e type details) (eventHistory st)))
 blockThreshold
then 1%nat else 0%nat.
Proof.
unfold recordEvent. fold (eventOf e type details).
rewrite seq_effs, pushEvent_run. cbn [effs after fst snd app].
rewrite seq_effs, blocks_app.
change (snd (fst ?x)) with (effs x).
rewrite checkThreatLevel_blocks. cbn [eventHistory].
destruct (snd (_checkThreatLevel e _)).
- rewrite forward_effs_blocks. lia.
- cbn. lia.
Qed.

(** The block path over a sequence of calls follows the scores. *)
Lemma recordAll_blocks calls st :
blocks (snd (recordAll calls st))
= length (List.filter (fun sc => score_ge sc blockThreshold)
  (scores calls (eventHistory st))).
Proof.
revert st. induction calls as [|[[e type] details] calls IH]; intros st;
[reflexivity|].
cbn [recordAll scores].
pose proof (recordEvent_blocks e type details st) as Hb.
pose proof (recordEvent_history e type details st) as Hh.
unfold effs, after in Hb, Hh.
destruct (recordEvent e type details st) as [[st1 effs1] r1]. cbn [fst snd] in Hb, Hh.
specialize (IH st1). destruct (recordAll calls st1) as [st2 effs2].
cbn [snd] in *. rewrite blocks_app, Hb, IH, Hh. cbn [List.filter].
destruct (score_ge _ blockThreshold); reflexivity.
Qed.

Lemma fold_add_risk_unit h z :
Forall unit_weight h ->
fold_left add_risk h (Some z) = Some (z + Z.of_nat (length h))%Z.
Proof.
revert z. induction h as [|ev h IH]; intros z Hall; cbn [fold_left length].
- f_equal. lia.
- apply List.Forall_cons_iff in Hall as [Hev Hall].
unfold add_risk at 2. rewrite Hev, IH by assumption. f_equal. lia.
Qed.

Lemma recentEvents_unit now h :
Forall unit_weight h -> Forall unit_weight (recentEvents now h).
Proof.
unfold recentEvents. rewrite !List.Forall_forall. intros Hall ev Hin.
apply List.filter_In in Hin. now apply Hall.
Qed.

(** With unit weights the score counts the events of the window. *)
Lemma riskScore_unit now h :
Forall unit_weight h ->
riskScore now h = Some (Z.of_nat (length (recentEvents now h))).
Proof.
intros Hall. unfold riskScore.
rewrite fold_add_risk_unit by now apply recentEvents_unit. f_equal.
Qed.

Lemma recentEvents_length now h : (length (recentEvents now h) <= length h)%nat.
Proof. unfold recentEvents. apply List.filter_length_le. Qed.

Lemma recentEvents_all now h :
Forall (fun ev => (now - timestamp ev < 60000)%Z) h -> recentEvents now h = h.
Proof.
unfold recentEvents. induction h as [|ev h IH]; intros Hall; [reflexivity|].
apply List.Forall_cons_iff in Hall as [Hev Hall]. cbn [List.filter].
apply Z.ltb_lt in Hev. rewrite Hev, IH by assumption. reflexivity.
Qed.

Lemma recentEvents_expired now ev h :
(60000 <= now - timestamp ev)%Z -> recentEvents now (ev :: h) = recentEvents now h.
Proof.
intros Hev. unfold recentEvents. cbn [List.filter].
apply Z.ltb_ge in Hev. now rewrite Hev.
Qed.

(** What [forward] emits: the call of the facade with the details it was
given, and what the facade hands to its logger. *)
Lemma forward_effs type details st :
effs (forward type details st)
= LogSecurityEvent type details
:: match SecurityCore.logSecurityEvent type details with
 | Ok calls => List.map Sink calls
 | Throw _ => []
 end.
Proof.
unfold forward. rewrite seq_effs. cbn [emit effs after fst snd app].
destruct (SecurityCore.logSecurityEvent type details); reflexivity.
Qed.

Lemma showWarning_no_log e st ty d :
~ In (LogSecurityEvent ty d) (effs (_showWarning e st)).
Proof.
unfold _showWarning, seq, get, put, emit, ret, throw, effs.
destruct (warningShown st); [intros []|].
destruct (render_throws e); cbn; intros [E|[]]; discriminate.
Qed.

Lemma blockAccess_no_log e st ty d :
~ In (LogSecurityEvent ty d) (effs (_blockAccess e st)).
Proof.
unfold _blockAccess, seq, get, put, emit, ret, throw, effs.
destruct (render_throws e); cbn; intuition discriminate.
Qed.

Lemma checkThreatLevel_no_log e st ty d :
~ In (LogSecurityEvent ty d) (effs (_checkThreatLevel e st)).
Proof.
unfold _checkThreatLevel. rewrite seq_effs. cbn [get effs after fst snd app].
set (score := riskScore _ _). rewrite seq_effs. intros Hin.
apply in_app_or in Hin as [Hin|Hin].
- destruct (score_ge score suspiciousThreshold && score_lt score blockThreshold).
+ now apply showWarning_no_log in Hin.
+ destruct Hin.
- destruct (snd _); [|destruct Hin].
destruct (score_ge score blockThreshold).
+ now apply blockAccess_no_log in Hin.
+ destruct Hin.
Qed.

(** Whatever [recordEvent] passes to [logSecurityEvent] is the details
object of its caller, not the scrubbed copy of the history. *)
Lemma recordEvent_forwards_caller_details e type details st ty d :
In (LogSecurityEvent ty d) (effs (recordEvent e type details st)) ->
ty = type /\ d = match details with VUndefined => VObject [] | x => x end.
Proof.
unfold recordEvent. fold (eventOf e type details).
rewrite seq_effs, pushEvent_run. cbn [effs after fst snd app].
rewrite seq_effs. change (snd (fst ?x)) with (effs x). intros Hin.
apply in_app_or in Hin as [Hin|Hin].
- now apply checkThreatLevel_no_log in Hin.
- destruct (snd _); [|destruct Hin].
rewrite forward_effs in Hin. destruct Hin as [E|Hin].
+ injection E as <- <-. split; reflexivity.
+ destruct (SecurityCore.logSecurityEvent _ _); [|destruct Hin].
apply in_map_iff in Hin as (c & E & _). discriminate.
Qed.

(** Fewer than five unit-weight events never reach the block threshold. *)
Lemma score_below_threshold now h :
Forall unit_weight h -> (length (recentEvents now h) < 5)%nat ->
score_ge (riskScore now h) blockThreshold = false.
Proof.
intros Hall Hlen. rewrite riskScore_unit by assumption.
unfold score_ge, blockThreshold. lia.
Qed.
End WithHost.

End ThreatFacts.

(** C6.  Five events of risk weight 1 are recorded by a fresh monitor,
    once with every clock reading inside a span shorter than 60 seconds
    (environments [f1] to [f5]), once with the fifth event two minutes after
    the first (environments [s1] to [s5]).  In the first run the scores of
    the five checks are 1, 2, 3, 4 and 5, so the last reaches
    [blockThreshold], and the block path is entered exactly once.  In the
    second run no check reaches the threshold and the block path is never
    entered. *)
Theorem window_expiry_law `{Host}
    (ty1 ty2 ty3 ty4 ty5 : jsstring) (d1 d2 d3 d4 d5 : value)
    (f1 f2 f3 f4 f5 s1 s2 s3 s4 s5 : ThreatMonitor.env) (t0 : Z) :
  Forall (fun ty => ThreatMonitor._calculateRiskLevel ty = ThreatMonitor.Weight 1)
    [ty1; ty2; ty3; ty4; ty5] ->
  Forall (fun e => (t0 <= ThreatMonitor.now_event e
                    /\ ThreatMonitor.now_check e < t0 + 60000)%Z)
    [f1; f2; f3; f4; f5] ->
  (ThreatMonitor.now_event s1 + 120000 <= ThreatMonitor.now_event s5)%Z ->
  (ThreatMonitor.now_event s5 <= ThreatMonitor.now_check s5)%Z ->
  ThreatMonitor.scores
    [(f1, ty1, d1); (f2, ty2, d2); (f3, ty3, d3); (f4, ty4, d4); (f5, ty5, d5)] []
    = [Some 1%Z; Some 2%Z; Some 3%Z; Some 4%Z; Some ThreatMonitor.blockThreshold]
  /\ ThreatMonitor.blocks
       (snd (ThreatMonitor.recordAll
               [(f1, ty1, d1); (f2, ty2, d2); (f3, ty3, d3); (f4, ty4, d4); (f5, ty5, d5)]
               ThreatMonitor.initial)) = 1%nat
  /\ Forall (fun sc => ThreatMonitor.score_ge sc ThreatMonitor.blockThreshold = false)
       (ThreatMonitor.scores
          [(s1, ty1, d1); (s2, ty2, d2); (s3, ty3, d3); (s4, ty4, d4); (s5, ty5, d5)] [])
  /\ ThreatMonitor.blocks
       (snd (ThreatMonitor.recordAll
               [(s1, ty1, d1); (s2, ty2, d2); (s3, ty3, d3); (s4, ty4, d4); (s5, ty5, d5)]
               ThreatMonitor.initial)) = 0%nat.
Proof.
  intros Hw Hfast Hspan Hmono.
  repeat (apply List.Forall_cons_iff in Hw as [? Hw]).
  repeat (apply List.Forall_cons_iff in Hfast as [[? ?] Hfast]).
  assert (Hunit : forall e ty d, ThreatMonitor._calculateRiskLevel ty = ThreatMonitor.Weight 1 ->
                                 ThreatMonitor.unit_weight (ThreatMonitor.eventOf e ty d))
    by (intros; assumption).
  assert (Hf : ThreatMonitor.scores
    [(f1, ty1, d1); (f2, ty2, d2); (f3, ty3, d3); (f4, ty4, d4); (f5, ty5, d5)] []
    = [Some 1%Z; Some 2%Z; Some 3%Z; Some 4%Z; Some ThreatMonitor.blockThreshold]).
  { cbn [ThreatMonitor.scores ThreatMonitor.pushed app length Nat.ltb Nat.leb].
    repeat (rewrite ThreatFacts.riskScore_unit by (repeat constructor; auto);
            rewrite ThreatFacts.recentEvents_all
              by (repeat constructor; cbn [ThreatMonitor.timestamp ThreatMonitor.eventOf]; lia)).
    reflexivity. }
  assert (Hs : Forall (fun sc => ThreatMonitor.score_ge sc ThreatMonitor.blockThreshold = false)
       (ThreatMonitor.scores
          [(s1, ty1, d1); (s2, ty2, d2); (s3, ty3, d3); (s4, ty4, d4); (s5, ty5, d5)] [])).
  { cbn [ThreatMonitor.scores ThreatMonitor.pushed app length Nat.ltb Nat.leb].
    repeat apply List.Forall_cons; try apply List.Forall_nil;
      (apply ThreatFacts.score_below_threshold; [repeat constructor; auto|]).
    1-4: match goal with |- (length (ThreatMonitor.recentEvents ?n ?h) < 5)%nat =>
           pose proof (ThreatFacts.recentEvents_length n h) as Hlen;
           cbn [length] in Hlen; lia end.
    rewrite ThreatFacts.recentEvents_expired
      by (cbn [ThreatMonitor.timestamp ThreatMonitor.eventOf]; lia).
    match goal with |- (length (ThreatMonitor.recentEvents ?n ?h) < 5)%nat =>
      pose proof (ThreatFacts.recentEvents_length n h) as Hlen;
      cbn [length] in Hlen; lia end. }
  split; [exact Hf|]. split.
  - rewrite ThreatFacts.recordAll_blocks.
    change (ThreatMonitor.eventHistory ThreatMonitor.initial) with (@nil ThreatMonitor.event).
    rewrite Hf. reflexivity.
  - split; [exact Hs|].
    rewrite ThreatFacts.recordAll_blocks.
    change (ThreatMonitor.eventHistory ThreatMonitor.initial) with (@nil ThreatMonitor.event).
    revert Hs. generalize (ThreatMonitor.scores
          [(s1, ty1, d1); (s2, ty2, d2); (s3, ty3, d3); (s4, ty4, d4); (s5, ty5, d5)] []).
    induction l as [|sc l IH]; intros Hall; [reflexivity|].
    apply List.Forall_cons_iff in Hall as [Hsc Hall]. cbn [List.filter].
    rewrite Hsc. now apply IH.
Qed.

Lemma window_expiry_law_witness :
  ThreatMonitor.scores (H := AsciiHost.host)
    [(Examples.at_time 0, js "INVALID_GPX", VUndefined);
     (Examples.at_time 10000, js "TRANSLATION_FAILED", VUndefined);
     (Examples.at_time 20000, js "DEVELOPER_TOOLS_ATTEMPT", VUndefined);
     (Examples.at_time 30000, js "SOMETHING_ELSE", VUndefined);
     (Examples.at_time 59999, js "INVALID_GPX", VUndefined)] []
    = [Some 1%Z; Some 2%Z; Some 3%Z; Some 4%Z; Some ThreatMonitor.blockThreshold]
  /\ ThreatMonitor.blocks
       (snd (ThreatMonitor.recordAll (H := AsciiHost.host)
               [(Examples.at_time 0, js "INVALID_GPX", VUndefined);
                (Examples.at_time 10000, js "TRANSLATION_FAILED", VUndefined);
                (Examples.at_time 20000, js "DEVELOPER_TOOLS_ATTEMPT", VUndefined);
                (Examples.at_time 30000, js "SOMETHING_ELSE", VUndefined);
                (Examples.at_time 59999, js "INVALID_GPX", VUndefined)]
               ThreatMonitor.initial)) = 1%nat
  /\ Forall (fun sc => ThreatMonitor.score_ge sc ThreatMonitor.blockThreshold = false)
       (ThreatMonitor.scores (H := AsciiHost.host)
          [(Examples.at_time 0, js "INVALID_GPX", VUndefined);
           (Examples.at_time 30000, js "TRANSLATION_FAILED", VUndefined);
           (Examples.at_time 60000, js "DEVELOPER_TOOLS_ATTEMPT", VUndefined);
           (Examples.at_time 90000, js "SOMETHING_ELSE", VUndefined);
           (Examples.at_time 120000, js "INVALID_GPX", VUndefined)] [])
  /\ ThreatMonitor.blocks
       (snd (ThreatMonitor.recordAll (H := AsciiHost.host)
               [(Examples.at_time 0, js "INVALID_GPX", VUndefined);
                (Examples.at_time 30000, js "TRANSLATION_FAILED", VUndefined);
                (Examples.at_time 60000, js "DEVELOPER_TOOLS_ATTEMPT", VUndefined);
                (Examples.at_time 90000, js "SOMETHING_ELSE", VUndefined);
                (Examples.at_time 120000, js "INVALID_GPX", VUndefined)]
               ThreatMonitor.initial)) = 0%nat.
Proof.
  apply (@window_expiry_law AsciiHost.host
           (js "INVALID_GPX") (js "TRANSLATION_FAILED") (js "DEVELOPER_TOOLS_ATTEMPT")
           (js "SOMETHING_ELSE") (js "INVALID_GPX")
           VUndefined VUndefined VUndefined VUndefined VUndefined
           (Examples.at_time 0) (Examples.at_time 10000) (Examples.at_time 20000)
           (Examples.at_time 30000) (Examples.at_time 59999)
           (Examples.at_time 0) (Examples.at_time 30000) (Examples.at_time 60000)
           (Examples.at_time 90000) (Examples.at_time 120000) 0%Z).
  - repeat constructor.
  - repeat constructor; cbn; lia.
  - cbn; lia.
  - cbn; lia.
Defined.

(** C5, at details that hold a token, a cookie and a text of 201
    characters.  The entry kept in the history is scrubbed: the two
    credentials are gone and the text is cut at 200 characters, with the
    ellipsis.  What is forwarded to [logSecurityEvent], and what the logger
    receives from it, is the details object as the caller gave it, with the
    token, the cookie and the full text. *)
Theorem recordEvent_forwards_unscrubbed_details :
  ThreatMonitor.recordEvent (H := AsciiHost.host) (Examples.at_time 1000)
    (js "INVALID_GPX") Examples.leaky_details ThreatMonitor.initial
  = ({| ThreatMonitor.eventHistory :=
          [{| ThreatMonitor.timestamp := 1000%Z;
              ThreatMonitor.type := js "INVALID_GPX";
              ThreatMonitor.details :=
                VObject [(js "note", VString (List.repeat 97 200 ++ js "..."))];
              ThreatMonitor.riskLevel := ThreatMonitor.Weight 1 |}];
        ThreatMonitor.warningShown := false;
        ThreatMonitor.blockedIps := ∅ |},
     [ThreatMonitor.LogSecurityEvent (js "INVALID_GPX") Examples.leaky_details;
      ThreatMonitor.Sink
        (SecurityCore.LoggerLog (js "INVALID_GPX") Examples.leaky_details)],
     Ok tt).
Proof. vm_compute. reflexivity. Qed.

(** ** The GPX parser *)

(** C7 as the source has it: the test of the name is made on the lowercased
    name and comes first.  A file whose lowercased name does not end in
    [.gpx] is rejected with INVALID_FILE_EXTENSION; one whose lowercased
    name does and whose size exceeds 5 MiB is rejected with FILE_TOO_LARGE;
    so every file above 5 MiB is rejected with one of the two.  In each case
    nothing has been read. *)
Theorem gpx_parse_validation `{Host} (f : GPXParser.file) :
  (endsWith (toLowerCase (GPXParser.name f)) (js ".gpx") = false ->
     GPXParser.parse f
     = (GPXParser.Rejected (Error "INVALID_FILE_EXTENSION"), []))
  /\ (endsWith (toLowerCase (GPXParser.name f)) (js ".gpx") = true ->
      (5 * 1024 * 1024 < GPXParser.size f)%Z ->
      GPXParser.parse f = (GPXParser.Rejected (Error "FILE_TOO_LARGE"), []))
  /\ ((5 * 1024 * 1024 < GPXParser.size f)%Z ->
      exists e, GPXParser.parse f = (GPXParser.Rejected e, [])).
Proof.
  unfold GPXParser.parse.
  destruct (endsWith (toLowerCase (GPXParser.name f)) (js ".gpx")); cbn [negb].
  - split; [discriminate|]. split.
    + intros _ Hsize. apply Z.ltb_lt in Hsize. now rewrite Hsize.
    + intros Hsize. apply Z.ltb_lt in Hsize. rewrite Hsize. eauto.
  - split; [reflexivity|]. split; [discriminate | eauto].
Qed.

Lemma gpx_parse_validation_witness :
  GPXParser.parse (H := AsciiHost.host) Examples.route_txt
    = (GPXParser.Rejected (Error "INVALID_FILE_EXTENSION"), [])
  /\ GPXParser.parse (H := AsciiHost.host) Examples.big_gpx
     = (GPXParser.Rejected (Error "FILE_TOO_LARGE"), [])
  /\ exists e, GPXParser.parse (H := AsciiHost.host) Examples.route_txt
               = (GPXParser.Rejected e, []).
Proof.
  split; [|split].
  - apply (proj1 (@gpx_parse_validation AsciiHost.host Examples.route_txt)).
    reflexivity.
  - apply (proj1 (proj2 (@gpx_parse_validation AsciiHost.host Examples.big_gpx)));
      reflexivity.
  - apply (proj2 (proj2 (@gpx_parse_validation AsciiHost.host Examples.route_txt))).
    reflexivity.
Defined.

(** C7 as stated fails twice.  The file [TRACK.GPX] has a name that does
    not end in [.gpx], and is read.  The file [route.txt] of 5 MiB and one
    byte exceeds the size, and is rejected for its extension. *)
Lemma gpx_parse_not_as_stated :
  (endsWith (GPXParser.name Examples.track_upper) (js ".gpx") = false
   /\ GPXParser.parse (H := AsciiHost.host) Examples.track_upper
      = (GPXParser.AwaitingContent, [GPXParser.ReadAsText Examples.track_upper]))
  /\ ((5 * 1024 * 1024 < GPXParser.size Examples.route_txt)%Z
      /\ GPXParser.parse (H := AsciiHost.host) Examples.route_txt
         = (GPXParser.Rejected (Error "INVALID_FILE_EXTENSION"), [])
      /\ GPXParser.parse (H := AsciiHost.host) Examples.route_txt
         <> (GPXParser.Rejected (Error "FILE_TOO_LARGE"), [])).
Proof.
  split; [split; reflexivity|].
  split; [reflexivity|]. split; [reflexivity|]. discriminate.
Qed.

(** ** The object literal of [setItem] *)

Module SyntaxFacts.
Import Syntax.

Lemma token_eqb_refl t : token_eqb t t = true.
Proof. destruct t; cbn; apply String.eqb_refl. Qed.

(** Every way of writing a run of tokens around a token [x] is among the
    cuts at [x]. *)
Lemma cuts_complete x l d ts : l ++ x :: d = ts -> In (l, d) (cuts x ts).
Proof.
  intros <-. induction l as [|t l IH]; cbn [app cuts].
  - rewrite token_eqb_refl. now left.
  - apply in_or_app. right.
    apply (in_map (fun cut => (t :: fst cut, snd cut)) _ _ IH).
Qed.

(** A phrase whose brackets match can be read at any depth, and leaves the
    depth as it found it. *)
Lemma enclosed_app e rest : forall d k,
  enclosed d e = true -> enclosed (d + k) (e ++ rest) = enclosed k rest.
Proof.
  induction e as [|t e IH]; intros d k; cbn [enclosed app].
  - intros Hd. apply Nat.eqb_eq in Hd. now subst.
  - destruct (opens t); [exact (IH (S d) k)|].
    destruct (closes t).
    { destruct d as [|d]; [discriminate|]. exact (IH d k). }
    destruct (is_punct "," t); [|exact (IH d k)].
    intros Hc. apply andb_true_iff in Hc as [Hd He].
    destruct d as [|d]; [discriminate|]. cbn. exact (IH (S d) k He).
Qed.

Lemma phrase_enclosed e : phrase e = true -> enclosed 0 e = true.
Proof. now destruct e. Qed.

Lemma PropertyName_enclosed n : PropertyName n -> enclosed 0 n = true.
Proof.
  intros [x|s|num|e He]; try reflexivity.
  exact (eq_trans (enclosed_app e [Punct "]"] 0 1 (phrase_enclosed e He)) eq_refl).
Qed.

Lemma ClassElementName_enclosed n : ClassElementName n -> enclosed 0 n = true.
Proof. intros [n' Hn|x]; [now apply PropertyName_enclosed | reflexivity]. Qed.

Lemma IdentifierReference_name r : IdentifierReference r -> exists x, r = [Name x].
Proof. intros [x _| |]; eexists; reflexivity. Qed.

(** No property definition has a comma outside of its brackets: the commas
    of a list of them that are outside of brackets are those between its
    members. *)
Lemma PropertyDefinition_enclosed d : PropertyDefinition d -> enclosed 0 d = true.
Proof.
  intros [r Hr|r e Hr He|n e Hn He|m Hm|e He].
  - now destruct (IdentifierReference_name r Hr) as [x ->].
  - destruct (IdentifierReference_name r Hr) as [x ->].
    exact (phrase_enclosed e He).
  - exact (eq_trans (enclosed_app n (Punct ":" :: e) 0 0 (PropertyName_enclosed n Hn))
             (phrase_enclosed e He)).
  - destruct Hm as [pre n rest Hpre Hn Hrest].
    assert (Hskip : enclosed 0 (pre ++ n ++ Punct "(" :: rest)
                    = enclosed 0 (n ++ Punct "(" :: rest)).
    { cbn in Hpre. decompose [or] Hpre; subst; try reflexivity. contradiction. }
    rewrite Hskip.
    exact (eq_trans
             (enclosed_app n (Punct "(" :: rest) 0 0 (ClassElementName_enclosed n Hn))
             Hrest).
  - exact (phrase_enclosed e He).
Qed.

End SyntaxFacts.

Module LiteralFacts.
Import Syntax.

(** A member that begins with [this.] is no property definition, whatever
    follows: [this] is a reserved word, and as a property name it would
    have a colon or a parameter list after it. *)
Lemma this_member_rejected rest :
  ~ PropertyDefinition (Name "this" :: Punct "." :: rest).
Proof.
  intros Hd. remember (Name "this" :: Punct "." :: rest) as member eqn:E.
  destruct Hd as [r Hr|r e Hr He|n e Hn He|m Hm|e He].
  - destruct (SyntaxFacts.IdentifierReference_name r Hr) as [x ->]. discriminate E.
  - destruct (SyntaxFacts.IdentifierReference_name r Hr) as [x ->]. discriminate E.
  - destruct Hn; discriminate E.
  - destruct Hm as [pre n rest' Hpre Hn Hrest].
    cbn in Hpre. decompose [or] Hpre; subst; try contradiction; try discriminate E.
    destruct Hn as [n Hn|x]; [destruct Hn|]; discriminate E.
  - discriminate E.
Qed.

(** What stands between the braces of the literal of [setItem] is no list
    of property definitions: taken as one definition it has a comma outside
    of brackets, and cut at that comma its second member begins with
    [this.]. *)
Lemma stored_members_rejected l :
  l ++ [Punct "}"] = List.tl (tokens SecureStorage.stored_literal) ->
  ~ PropertyDefinitionList l.
Proof.
  intros El Hl.
  apply SyntaxFacts.cuts_complete in El. vm_compute in El.
  destruct El as [El|[]]. injection El as El.
  destruct Hl as [d Hd|l d Hl Hd].
  - apply SyntaxFacts.PropertyDefinition_enclosed in Hd. subst d. discriminate Hd.
  - symmetry in El. apply SyntaxFacts.cuts_complete in El. vm_compute in El.
    destruct El as [El|[]]. injection El as <- <-.
    exact (this_member_rejected _ Hd).
Qed.

End LiteralFacts.

(** ** The stores *)

Module StorageFacts.
Import Run Storage SecureStorage.

Lemma keyBlob_not_secure key : keyBlob <> js "secure_" ++ key.
Proof. discriminate. Qed.

Lemma decrypts_app a b : decrypts (a ++ b) = (decrypts a + decrypts b)%nat.
Proof. unfold decrypts. now rewrite List.filter_app, length_app. Qed.

Section RetryLoop.
Context `{Host} `{Platform}.
Variables (e : env) (key stored : jsstring).
Variables (parsed iv data : value) (ivBuffer dataBuffer : list N).
Variables (derived : CryptoKey) (jwk : value) (failure : exn).

Hypothesis Hparse : JSON_parse stored = Ok parsed.
Hypothesis Hiv : get_prop parsed (js "iv") = Ok iv.
Hypothesis Hdata : get_prop parsed (js "data") = Ok data.
Hypothesis HivBuffer : _base64ToArrayBuffer iv = Ok ivBuffer.
Hypothesis HdataBuffer : _base64ToArrayBuffer data = Ok dataBuffer.
Hypothesis Hderive : deriveKey (fingerprint e) = Ok derived.
Hypothesis Hexport : exportJwk derived = Ok jwk.
Hypothesis Hderived : subtle_decrypt derived ivBuffer dataBuffer = Throw failure.
Hypothesis Hname : exn_name failure = js "OperationError".

Abbreviation stuck := (SecureStorage.stuck key stored ivBuffer dataBuffer).

Lemma readStored_fails st k x :
encryptionKey st = Some k ->
subtle_decrypt k ivBuffer dataBuffer = Throw x ->
readStored stored st = (st, [SubtleDecrypt ivBuffer dataBuffer], Throw x).
Proof.
intros Hk Hx. unfold readStored, currentKey, seq, lift, get, ret, emit, throw.
rewrite Hparse, Hiv, Hdata, HivBuffer, HdataBuffer, Hk, Hx. reflexivity.
Qed.

(** Without a key blob, [_initKey] derives the key from the fingerprint
and stores it. *)
Lemma initKey_derives st :
truthy (localStorage st !! keyBlob) = None ->
_initKey e st
= (setStored keyBlob (text_of (JSON_stringify jwk)) (set_key derived st),
 [DeriveKey (fingerprint e)], Ok tt).
Proof.
intros Hblob. unfold _initKey, try_catch, seq, lift, get, modify, emit.
rewrite Hblob, Hderive, Hexport. reflexivity.
Qed.

Lemma stuck_after_retry st :
stuck st ->
stuck (setStored keyBlob (text_of (JSON_stringify jwk))
 (set_key derived (removeStored keyBlob st))).
Proof.
intros (Hp & Hs & _). split; [exact Hp|]. split.
- cbn [setStored set_key removeStored localStorage].
rewrite lookup_insert_ne by apply keyBlob_not_secure.
rewrite lookup_delete_ne by apply keyBlob_not_secure. exact Hs.
- exists derived, failure. split; [reflexivity|]. now split.
Qed.

(** One failed read: the key blob is removed, the key derived again, and
[getItem] called once more. *)
Lemma getItem_retry fuel st :
stuck st ->
getItem (S fuel) e key st
= let '(st', fx, r) :=
getItem fuel e key
(setStored keyBlob (text_of (JSON_stringify jwk))
 (set_key derived (removeStored keyBlob st))) in
(st', SubtleDecrypt ivBuffer dataBuffer :: DeriveKey (fingerprint e) :: fx, r).
Proof.
intros (Hp & Hs & k & x & Hk & Hx & Hn).
cbn [getItem]. unfold seq at 1. cbn [get].
unfold seq at 1. unfold lift at 1. rewrite Hp, Hs.
unfold try_catch. unfold seq at 1. rewrite (readStored_fails st k x Hk Hx).
rewrite Hn. change (streq (js "OperationError") (js "OperationError")) with true.
cbv iota. unfold seq at 1. unfold modify at 1.
unfold seq at 1. rewrite initKey_derives.
2:{ cbn [removeStored localStorage]. now rewrite lookup_delete_eq. }
destruct (getItem fuel e key _) as [[st' fx] r]. reflexivity.
Qed.

(** However many nested calls are followed, the read is in one more. *)
Lemma getItem_stuck fuel st :
stuck st ->
snd (getItem fuel e key st) = Ok Retrying /\
decrypts (effs (getItem fuel e key st)) = fuel.
Proof.
revert st. induction fuel as [|fuel IH]; intros st Hst; [split; reflexivity|].
rewrite (getItem_retry fuel st Hst).
destruct (IH _ (stuck_after_retry st Hst)) as [Hr Hd].
destruct (getItem fuel e key _) as [[st' fx] r]. cbn [snd fst effs] in *.
split; [assumption|].
unfold decrypts in *. cbn [List.filter is_decrypt length]. now rewrite Hd.
Qed.
End RetryLoop.


Section Reads.
Context `{Host} `{Platform}.
Variables (e : env) (key : jsstring).

(** A key that was never set reads [null]. *)
Lemma getItem_absent fuel st :
keyPromise st = Ok tt ->
localStorage st !! (js "secure_" ++ key) = None ->
getItem (S fuel) e key st = (st, [], Ok (Resolved VNull)).
Proof.
intros Hp Hs. cbn [getItem]. unfold seq, get, lift, ret. rewrite Hp, Hs. reflexivity.
Qed.

(** A store whose key could not be initialised rejects every read. *)
Lemma getItem_rejected fuel st x :
keyPromise st = Throw x ->
getItem (S fuel) e key st = (st, [], Throw x).
Proof.
intros Hp. cbn [getItem]. unfold seq, get, lift. rewrite Hp. reflexivity.
Qed.

(** A failure under another name than OperationError ends the read with
[null]. *)
Lemma getItem_other_failure fuel st stored st' fx x :
keyPromise st = Ok tt ->
truthy (localStorage st !! (js "secure_" ++ key)) = Some stored ->
readStored stored st = (st', fx, Throw x) ->
streq (exn_name x) (js "OperationError") = false ->
snd (getItem (S fuel) e key st) = Ok (Resolved VNull).
Proof.
intros Hp Hs Hr Hn. cbn [getItem]. unfold seq at 1. cbn [get].
unfold seq at 1. unfold lift at 1. rewrite Hp, Hs.
unfold try_catch. unfold seq at 1. rewrite Hr, Hn. reflexivity.
Qed.

(** An envelope that deciphers reads as the value it holds. *)
Lemma getItem_deciphers fuel st stored st' fx v :
keyPromise st = Ok tt ->
truthy (localStorage st !! (js "secure_" ++ key)) = Some stored ->
readStored stored st = (st', fx, Ok v) ->
snd (getItem (S fuel) e key st) = Ok (Resolved v).
Proof.
intros Hp Hs Hr. cbn [getItem]. unfold seq at 1. cbn [get].
unfold seq at 1. unfold lift at 1. rewrite Hp, Hs.
unfold try_catch. unfold seq at 1. rewrite Hr. reflexivity.
Qed.

(** When the derivation of the retry throws, the read is rejected. *)
Lemma getItem_retry_rejected fuel st stored st' fx x x' :
keyPromise st = Ok tt ->
truthy (localStorage st !! (js "secure_" ++ key)) = Some stored ->
readStored stored st = (st', fx, Throw x) ->
exn_name x = js "OperationError" ->
deriveKey (fingerprint e) = Throw x' ->
snd (getItem (S fuel) e key st) = Throw (Error "SECURE_STORAGE_INIT_FAILED").
Proof.
intros Hp Hs Hr Hn Hd. cbn [getItem]. unfold seq at 1. cbn [get].
unfold seq at 1. unfold lift at 1. rewrite Hp, Hs.
unfold try_catch at 1. unfold seq at 1. rewrite Hr, Hn.
change (streq (js "OperationError") (js "OperationError")) with true. cbv iota.
unfold seq at 1. unfold modify at 1. unfold seq at 1.
unfold _initKey, try_catch, seq, get, lift, emit, throw.
cbn [removeStored localStorage]. rewrite lookup_delete_eq. cbn [truthy].
rewrite Hd. reflexivity.
Qed.
End Reads.



(** *** The fallback store *)

Lemma fromCharCode_shift c (d : Z) :
  c < 65536 -> (0 <= d < 65536)%Z ->
  fromCharCode (Z.of_N (fromCharCode (Z.of_N c + d)) - d) = c.
Proof.
  intros Hc Hd. unfold fromCharCode.
  rewrite Z2N.id by (apply Z.mod_pos_bound; lia).
  assert (((Z.of_N c + d) mod 65536 - d) mod 65536 = Z.of_N c)%Z as ->.
  { rewrite Zminus_mod_idemp_l.
    replace (Z.of_N c + d - d)%Z with (Z.of_N c) by lia.
    apply Z.mod_small. lia. }
  apply N2Z.id.
Qed.

(** Shifting 18 up and 18 down gives the text back. *)
Lemma deobfuscate_obfuscate str :
  Forall (fun c => c < 65536) str -> FallbackStorage._deobfuscate (FallbackStorage._obfuscate str) = str.
Proof.
  unfold FallbackStorage._deobfuscate, FallbackStorage._obfuscate. induction str as [|c str IH]; intros Hall;
    [reflexivity|].
  apply List.Forall_cons_iff in Hall as [Hc Hall]. cbn [List.map].
  rewrite IH by assumption. f_equal.
  apply fromCharCode_shift; [assumption|]. cbn. lia.
Qed.

Lemma b64_char_small n : b64_char n < 128.
Proof.
  unfold b64_char.
  destruct (nth_in_or_default (N.to_nat n) b64_alphabet 0) as [Hin| ->]; [|reflexivity].
  revert Hin. generalize (nth (N.to_nat n) b64_alphabet 0). intros u Hin.
  assert (Hall : forallb (fun u => u <? 128) b64_alphabet = true) by reflexivity.
  rewrite forallb_forall in Hall. apply N.ltb_lt. now apply Hall.
Qed.

Lemma b64_encode_small bytes : Forall (fun c => c < 65536) (b64_encode bytes).
Proof.
  assert (Hc : forall n, b64_char n < 65536)
    by (intros n; pose proof (b64_char_small n); lia).
  assert (He : c_equals < 65536) by reflexivity.
  induction bytes as [|a|a b|a b c rest IH] using Base64Facts.triple_ind;
    cbn [b64_encode]; repeat (apply List.Forall_cons; [auto|]); auto.
Qed.

Lemma b64_encode_nonempty bytes : bytes <> [] -> b64_encode bytes <> [].
Proof. destruct bytes as [|a [|b [|c rest]]]; [congruence | discriminate..]. Qed.

Section Fallback.
Context `{Host} `{Platform}.
Variables (key : jsstring) (val : value) (text uri : jsstring).

Hypothesis Htext : JSON_stringify val = Some text.
Hypothesis Huri : encodeURIComponent text = Ok uri.
Hypothesis Hbytes : forallb (fun u => u <? 256) (unescape uri) = true.
Hypothesis Hnonempty : unescape uri <> [].
Hypothesis Hdecode : decodeURIComponent (escape (unescape uri)) = Ok text.
Hypothesis Hparse : JSON_parse text = Ok val.

Lemma fallback_setItem_stores stored :
FallbackStorage.setItem key val stored
= (<[js "fallback_" ++ key := FallbackStorage._obfuscate (b64_encode (unescape uri))]> stored,
 [], Ok tt).
Proof.
unfold FallbackStorage.setItem, try_catch, seq, lift, modify, btoa.
rewrite Htext. cbn [text_of]. rewrite Huri, Hbytes. reflexivity.
Qed.

(** On a platform whose JSON and URI codecs invert each other on the
value, the fallback store gives back the value that was set. *)
Lemma fallback_roundtrip stored :
snd (FallbackStorage.getItem key (after (FallbackStorage.setItem key val stored))) = Ok val.
Proof.
rewrite fallback_setItem_stores. cbn [after fst].
unfold FallbackStorage.getItem, try_catch, seq, get, lift.
rewrite lookup_insert_eq.
assert (Hne : FallbackStorage._obfuscate (b64_encode (unescape uri)) <> []).
{ pose proof (b64_encode_nonempty _ Hnonempty) as Hb.
unfold FallbackStorage._obfuscate. destruct (b64_encode (unescape uri)); [congruence | discriminate]. }
destruct (FallbackStorage._obfuscate (b64_encode (unescape uri))) as [|u s] eqn:E; [congruence|].
cbn [truthy]. rewrite <- E, deobfuscate_obfuscate by apply b64_encode_small.
rewrite Base64Facts.atob_encode, Hdecode, Hparse; [reflexivity|].
rewrite forallb_forall in Hbytes. apply List.Forall_forall. intros b Hb.
apply N.ltb_lt. now apply Hbytes.
Qed.
End Fallback.

(** A key that was never set reads [null] from the fallback store. *)
Lemma fallback_getItem_absent `{Host} `{Platform} (key : jsstring)
    (stored : gmap jsstring jsstring) :
  stored !! (js "fallback_" ++ key) = None ->
  FallbackStorage.getItem key stored = (stored, [], Ok VNull).
Proof.
  intros Hs. unfold FallbackStorage.getItem, try_catch, seq, get, ret. now rewrite Hs.
Qed.

End StorageFacts.

(** C3, on an envelope that deciphers neither under the key in use nor
    under the key derived again from the fingerprint: however many nested
    calls of [getItem] are followed, the read has not resolved, and each
    call has asked the platform to decipher once more.  It does not stop
    after one retry and does not resolve to [null]. *)
Theorem getItem_retries_without_bound `{Host} `{Storage.Platform}
    (e : Storage.env) (key stored : jsstring) (parsed iv data : value)
    (ivBuffer dataBuffer : list N) (current derived : Storage.CryptoKey)
    (jwk : value) (failed failedAgain : exn) (st : SecureStorage.state) :
  SecureStorage.keyPromise st = Ok tt ->
  Storage.truthy (SecureStorage.localStorage st !! (js "secure_" ++ key)) = Some stored ->
  Storage.JSON_parse stored = Ok parsed ->
  get_prop parsed (js "iv") = Ok iv ->
  get_prop parsed (js "data") = Ok data ->
  SecureStorage._base64ToArrayBuffer iv = Ok ivBuffer ->
  SecureStorage._base64ToArrayBuffer data = Ok dataBuffer ->
  SecureStorage.encryptionKey st = Some current ->
  Storage.subtle_decrypt current ivBuffer dataBuffer = Throw failed ->
  exn_name failed = js "OperationError" ->
  Storage.deriveKey (Storage.fingerprint e) = Ok derived ->
  Storage.exportJwk derived = Ok jwk ->
  Storage.subtle_decrypt derived ivBuffer dataBuffer = Throw failedAgain ->
  exn_name failedAgain = js "OperationError" ->
  forall fuel,
    snd (SecureStorage.getItem fuel e key st) = Ok SecureStorage.Retrying /\
    SecureStorage.decrypts (Run.effs (SecureStorage.getItem fuel e key st)) = fuel.
Proof.
  intros Hp Hs Hparse Hiv Hdata HivB HdataB Hk Hfail Hname Hderive Hexport Hagain Hname' fuel.
  eapply StorageFacts.getItem_stuck; try eassumption.
  split; [assumption|]. split; [assumption|].
  exists current, failed. auto.
Qed.

Lemma getItem_retries_without_bound_witness :
  snd (SecureStorage.getItem (H := AsciiHost.host) (H0 := Double.platform)
         3 Examples.device (js "shoes") Examples.synced_store)
  = Ok SecureStorage.Retrying /\
  SecureStorage.decrypts
    (Run.effs (SecureStorage.getItem (H := AsciiHost.host) (H0 := Double.platform)
                 3 Examples.device (js "shoes") Examples.synced_store))
  = 3%nat.
Proof.
  refine (@getItem_retries_without_bound AsciiHost.host Double.platform
           Examples.device (js "shoes") Examples.foreign_envelope
           (VObject [(js "iv", VString (js "AAEC")); (js "data", VString (js "BwgJ"))])
           (VString (js "AAEC")) (VString (js "BwgJ"))
           [0; 1; 2] [7; 8; 9] 3 32
           (VObject [(js "k", VString (List.repeat 120 32))])
           Storage.OperationError Storage.OperationError Examples.synced_store
           _ _ _ _ _ _ _ _ _ _ _ _ _ _ 3%nat);
    reflexivity.
Defined.

(** C4, for the encrypted store: the object literal of [setItem] is no
    object literal of the language.  Between its braces stand two members;
    the first, [iv: ...], is a property definition, and the second, the
    call that yields the ciphertext, begins with [this.] and is none, for
    want of a property name.  Without the second member the text is an
    object literal.  An engine refuses the script with a SyntaxError, and
    no [setItem] exists whose result [getItem] could read back. *)
Theorem secure_setItem_literal_does_not_parse :
  ~ Syntax.ObjectLiteral (Syntax.tokens SecureStorage.stored_literal)
  /\ exists first second,
       Syntax.tokens SecureStorage.stored_literal
       = Syntax.Punct "{" :: first ++ Syntax.Punct "," :: second ++ [Syntax.Punct "}"]
       /\ first = Syntax.tokens "iv: this._arrayBufferToBase64(iv)"
       /\ second = Syntax.tokens "this._arrayBufferToBase64(encrypted)"
       /\ Syntax.PropertyDefinition first
       /\ ~ Syntax.PropertyDefinition second
       /\ Syntax.ObjectLiteral (Syntax.Punct "{" :: first ++ [Syntax.Punct "}"]).
Proof.
  split.
  - intros Hl.
    remember (Syntax.tokens SecureStorage.stored_literal) as ts eqn:E.
    destruct Hl as [|l Hl|l Hl].
    + discriminate E.
    + apply (LiteralFacts.stored_members_rejected l); [|exact Hl].
      now rewrite <- E.
    + apply (f_equal (@List.tl _)) in E. cbn [List.tl] in E.
      change (l ++ [Syntax.Punct ","; Syntax.Punct "}"])
        with (l ++ Syntax.Punct "," :: [Syntax.Punct "}"]) in E.
      apply SyntaxFacts.cuts_complete in E. vm_compute in E.
      destruct E as [E|[]]. discriminate E.
  - assert (Hfirst : Syntax.PropertyDefinition
                       (Syntax.tokens "iv: this._arrayBufferToBase64(iv)")).
    { exact (Syntax.PD_property [Syntax.Name "iv"]
               (Syntax.tokens "this._arrayBufferToBase64(iv)")
               (Syntax.PN_name "iv") eq_refl). }
    eexists _, _. split; [|split; [reflexivity|split; [reflexivity|repeat split]]].
    + reflexivity.
    + exact Hfirst.
    + exact (LiteralFacts.this_member_rejected _).
    + exact (Syntax.OL_list _ (Syntax.PL_one _ Hfirst)).
Qed.

(** * Further properties *)

(** ** The sanitizer, on every string *)

Module SanitizeMore.
Import XSSProtection SanitizeFacts.

Lemma escape_unit_plain u : encoded u = false -> escape_unit u = [u].
Proof.
  unfold encoded, escape_unit. intros H.
  repeat (apply orb_false_iff in H; destruct H as [H ?]).
  now rewrite H, H0, H1, H2, H3.
Qed.

Lemma escape_unit_entity u :
  encoded u = true -> exists rest, escape_unit u = c_amp :: rest /\ (4 <= length rest)%nat.
Proof.
  unfold encoded, escape_unit. intros H.
  destruct (u =? c_amp); [eexists; split; [reflexivity | cbn; lia]|].
  destruct (u =? c_quot); [eexists; split; [reflexivity | cbn; lia]|].
  destruct (u =? c_apos); [eexists; split; [reflexivity | cbn; lia]|].
  destruct (u =? c_slash); [eexists; split; [reflexivity | cbn; lia]|].
  destruct (u =? c_backslash); [eexists; split; [reflexivity | cbn; lia]|].
  discriminate.
Qed.

Lemma encoded_amp : encoded c_amp = true.
Proof. reflexivity. Qed.

Lemma sanitize_length s : (length s <= length (sanitize_string s))%nat.
Proof.
  rewrite sanitize_string_units. induction s as [|u s IH]; [cbn; lia|].
  cbn [flat_map]. rewrite length_app. cbn [length].
  destruct (encoded u) eqn:E.
  - destruct (escape_unit_entity u E) as (rest & -> & Hlen). cbn [length]. lia.
  - rewrite (escape_unit_plain u E). cbn [length]. lia.
Qed.

Lemma sanitize_plain s : forallb (fun u => negb (encoded u)) s = true -> sanitize_string s = s.
Proof.
  rewrite sanitize_string_units. induction s as [|u s IH]; [reflexivity|].
  cbn [forallb flat_map]. intros H. apply andb_true_iff in H as [Hu Hs].
  apply negb_true_iff in Hu. rewrite (escape_unit_plain u Hu), IH by assumption.
  reflexivity.
Qed.

Lemma sanitize_grows s :
  forallb (fun u => negb (encoded u)) s = false ->
  (length s < length (sanitize_string s))%nat /\ In c_amp (sanitize_string s).
Proof.
  rewrite sanitize_string_units. induction s as [|u s IH]; [discriminate|].
  cbn [forallb flat_map]. intros H. rewrite length_app. cbn [length].
  pose proof (sanitize_length s) as Hs. rewrite sanitize_string_units in Hs.
  destruct (encoded u) eqn:E.
  - destruct (escape_unit_entity u E) as (rest & -> & Hlen). cbn [length].
    split; [lia | left; reflexivity].
  - cbn [negb andb] in H. destruct (IH H) as [Hlt Hin].
    rewrite (escape_unit_plain u E). cbn [length]. split; [lia|].
    apply in_or_app. now right.
Qed.

Lemma plain_iff s :
  forallb (fun u => negb (encoded u)) s = true
  <-> Forall (fun u => ~ In u [c_amp; c_quot; c_apos; c_slash; c_backslash]) s.
Proof.
  rewrite forallb_forall, List.Forall_forall. split; intros H u Hu.
  - specialize (H u Hu). apply negb_true_iff in H. unfold encoded in H.
    repeat (apply orb_false_iff in H; destruct H as [H ?]).
    apply N.eqb_neq in H, H0, H1, H2, H3. cbn. intuition congruence.
  - specialize (H u Hu). apply negb_true_iff. unfold encoded.
    repeat (apply orb_false_iff; split); apply N.eqb_neq; intros ->;
      apply H; cbn; tauto.
Qed.

Lemma has_amp_not_plain s : In c_amp s -> forallb (fun u => negb (encoded u)) s = false.
Proof.
  intros Hin. destruct (forallb _ s) eqn:E; [|reflexivity].
  rewrite forallb_forall in E. specialize (E _ Hin). discriminate.
Qed.

(** What an encoding starts with tells the character apart. *)
Lemma escape_unit_prefix u v a b :
  escape_unit u ++ a = escape_unit v ++ b -> u = v /\ a = b.
Proof.
  unfold escape_unit, c_amp, c_quot, c_apos, c_slash, c_backslash.
  destruct (N.eqb_spec u 38) as [->|U1]; [|destruct (N.eqb_spec u 34) as [->|U2];
    [|destruct (N.eqb_spec u 39) as [->|U3]; [|destruct (N.eqb_spec u 47) as [->|U4];
      [|destruct (N.eqb_spec u 92) as [->|U5]]]]];
  (destruct (N.eqb_spec v 38) as [->|V1]; [|destruct (N.eqb_spec v 34) as [->|V2];
    [|destruct (N.eqb_spec v 39) as [->|V3]; [|destruct (N.eqb_spec v 47) as [->|V4];
      [|destruct (N.eqb_spec v 92) as [->|V5]]]]]);
  repeat match goal with
         | |- context [js ?s] =>
             let v := eval vm_compute in (js s) in change (js s) with v
         end;
  cbn [app]; intros E; inversion E; subst; try (split; reflexivity); congruence.
Qed.

Lemma escape_unit_nonempty u : escape_unit u <> [].
Proof.
  destruct (encoded u) eqn:E.
  - destruct (escape_unit_entity u E) as (rest & -> & _). discriminate.
  - rewrite (escape_unit_plain u E). discriminate.
Qed.

End SanitizeMore.

(** X1 ([XSSProtection.sanitize], src/unnamed/part_000).  Whatever the
    string, the sanitized text holds no double quote, no apostrophe, no
    solidus and no backslash. *)
Theorem sanitize_output_has_no_quote_or_slash (s : jsstring) :
  Forall (fun u => ~ In u (XSSProtection.sanitize_string s))
    [c_quot; c_apos; c_slash; c_backslash]
  /\ exists t, XSSProtection.sanitize (VString s) = VString t
               /\ Forall (fun u => ~ In u t) [c_quot; c_apos; c_slash; c_backslash].
Proof.
  assert (H : Forall (fun u => ~ In u (XSSProtection.sanitize_string s))
                [c_quot; c_apos; c_slash; c_backslash]).
  { apply List.Forall_forall. intros u Hu.
    now apply SanitizeFacts.sanitize_string_encodes. }
  split; [exact H|]. eexists. split; [reflexivity | exact H].
Qed.

(** X2 ([XSSProtection.sanitize], composed).  Sanitizing is done
    character by character: the sanitized text of pieces put together is
    the sanitized pieces put together.  Sanitizing twice is not sanitizing
    once: the second pass encodes the ampersands of the first.  The two
    agree exactly on the strings the first pass leaves as they are, those
    without ampersand, quote, apostrophe, solidus and backslash; on every
    other string the second pass makes the text longer. *)
Theorem sanitize_twice_encodes_again (s : jsstring) :
  (forall parts : list jsstring,
     XSSProtection.sanitize_string (List.concat parts)
     = List.concat (List.map XSSProtection.sanitize_string parts))
  /\ (XSSProtection.sanitize_string (XSSProtection.sanitize_string s)
       = XSSProtection.sanitize_string s
      <-> Forall (fun u => ~ In u [c_amp; c_quot; c_apos; c_slash; c_backslash]) s)
  /\ (XSSProtection.sanitize_string s = s
      <-> Forall (fun u => ~ In u [c_amp; c_quot; c_apos; c_slash; c_backslash]) s)
  /\ (XSSProtection.sanitize_string s <> s ->
      (length (XSSProtection.sanitize_string s)
       < length (XSSProtection.sanitize_string (XSSProtection.sanitize_string s)))%nat).
Proof.
  split.
  { intros parts. induction parts as [|p parts IH]; [reflexivity|].
    cbn [List.concat List.map]. now rewrite SanitizeFacts.sanitize_string_app, IH. }
  rewrite <- SanitizeMore.plain_iff.
  destruct (forallb (fun u => negb (XSSProtection.encoded u)) s) eqn:E.
  - pose proof (SanitizeMore.sanitize_plain s E) as Hs.
    split; [|split].
    + split; [reflexivity | intros _; now rewrite !Hs].
    + split; [reflexivity | intros _; exact Hs].
    + intros Hne. now elim Hne.
  - destruct (SanitizeMore.sanitize_grows s E) as [Hlt Hamp].
    pose proof (SanitizeMore.has_amp_not_plain _ Hamp) as E2.
    destruct (SanitizeMore.sanitize_grows _ E2) as [Hlt2 _].
    split; [|split].
    + split; [intros Heq; rewrite Heq in Hlt2; lia | discriminate].
    + split; [intros Heq; rewrite Heq in Hlt; lia | discriminate].
    + intros _. exact Hlt2.
Qed.

(** X3 ([XSSProtection.sanitize]).  No two strings have the same sanitized
    text: the encoding loses nothing. *)
Theorem sanitize_is_injective (a b : jsstring) :
  XSSProtection.sanitize_string a = XSSProtection.sanitize_string b -> a = b.
Proof.
  rewrite !SanitizeFacts.sanitize_string_units. revert b.
  induction a as [|u a IH]; intros [|v b]; cbn [flat_map]; intros E.
  - reflexivity.
  - symmetry in E. apply app_eq_nil in E as [E _].
    now elim (SanitizeMore.escape_unit_nonempty v).
  - apply app_eq_nil in E as [E _]. now elim (SanitizeMore.escape_unit_nonempty u).
  - apply SanitizeMore.escape_unit_prefix in E as [-> E]. f_equal. now apply IH.
Qed.

Lemma sanitize_is_injective_witness : js "a&b" = js "a&b".
Proof. apply (sanitize_is_injective (js "a&b") (js "a&b")). reflexivity. Defined.

(** ** The safe insertion, on every fragment *)

Module InsertMore.
Import DOM XSSProtection.

Section WithBrowser.
Context `{Host} `{Browser}.

(** A comment among the nodes ends the loop with the TypeError. *)
Lemma rebuildAll_comment nodes fragment data :
In (Comment data) nodes ->
rebuildAll nodes fragment
= Throw (TypeError "Cannot read properties of undefined (reading 'toLowerCase')").
Proof.
revert fragment. induction nodes as [|node nodes IH]; intros fragment; [intros []|].
intros [->|Hin]; cbn [rebuildAll rebuildNode bind]; [reflexivity|].
destruct node as [d|d|name attrs kids]; cbn [rebuildNode bind].
- now apply IH.
- reflexivity.
- destruct (includes allowedTags (toLowerCase (tagName name))); cbn [bind]; now apply IH.
Qed.

(** Elements under other names add nothing to the fragment. *)
Lemma rebuildAll_dropped nodes fragment :
Forall (fun n => exists name attrs kids,
  n = Element name attrs kids /\
  includes allowedTags (toLowerCase (tagName name)) = false) nodes ->
rebuildAll nodes fragment = Ok fragment.
Proof.
intros Hall. revert fragment.
induction Hall as [|node nodes (name & attrs & kids & -> & Hname) _ IH]; intros fragment;
[reflexivity|].
cbn [rebuildAll rebuildNode]. rewrite Hname. cbn [bind]. rewrite app_nil_r. apply IH.
Qed.
End WithBrowser.

End InsertMore.

(** X4 ([XSSProtection.safeInsertHtml], src/unnamed/part_000).  When the
    call returns, every node the target has received is a text node or an
    element created under a name of the allow-list, and such an element
    carries no attribute but [class] and [style], each with a sanitized
    value: no quote, apostrophe, solidus or backslash is in it.  A comment
    is never inserted. *)
Theorem safeInsertHtml_inserts_allowed_elements `{Host} `{DOM.Browser}
    (html : jsstring) (inserted : list DOM.node) :
  XSSProtection.safeInsertHtml html = (inserted, Ok tt) ->
  Forall
    (fun n =>
       match n with
       | DOM.Text _ => True
       | DOM.Comment _ => False
       | DOM.Element name attributes _ =>
           (exists source, name = asciiLower (DOM.tagName source) /\
                           In (toLowerCase (DOM.tagName source)) XSSProtection.allowedTags)
           /\ Forall
                (fun a =>
                   In (fst a) XSSProtection.safeAttributes /\
                   Forall (fun u => ~ In u (snd a)) [c_quot; c_apos; c_slash; c_backslash])
                attributes
       end) inserted.
Proof.
  intros Hcall. apply List.Forall_forall. intros n Hn.
  destruct (InsertFacts.safeInsertHtml_top_level _ _ _ Hcall Hn)
    as [(data & ->)|(name & attrs & kids & _ & Hallowed & ->)]; [exact I|].
  split; [now exists name|].
  apply List.Forall_forall. intros [a v] Ha.
  destruct (InsertFacts.In_copyAttributes _ _ _ Ha) as (Hsafe & v0 & _ & ->).
  split; [exact Hsafe|]. cbn [snd].
  apply List.Forall_forall. intros u Hu.
  now apply SanitizeFacts.sanitize_string_encodes.
Qed.

Lemma safeInsertHtml_inserts_allowed_elements_witness :
  Forall
    (fun n =>
       match n with
       | DOM.Text _ => True
       | DOM.Comment _ => False
       | DOM.Element name attributes _ =>
           (exists source, name = asciiLower (DOM.tagName source) /\
                           In (@toLowerCase AsciiHost.host (DOM.tagName source))
                             XSSProtection.allowedTags)
           /\ Forall
                (fun a =>
                   In (fst a) XSSProtection.safeAttributes /\
                   Forall (fun u => ~ In u (snd a)) [c_quot; c_apos; c_slash; c_backslash])
                attributes
       end)
    [DOM.Text (js "Pace: ");
     DOM.Element (js "span") [(js "class", js "fast")]
       [DOM.Text (js "4:30");
        DOM.Element (js "p") [(js "id", js "x")] [DOM.Text (js "per km")]]].
Proof.
  apply (safeInsertHtml_inserts_allowed_elements (H := AsciiHost.host)
           (H0 := MiniBrowser.browser)
           (js "Pace: <span class=fast onclick=go()>4:30<p id=x>per km")).
  vm_compute. reflexivity.
Defined.

(** X5 ([XSSProtection.safeInsertHtml]).  A comment among the top-level
    nodes of the fragment has no [tagName]: the call throws a TypeError, and
    the target, which was emptied first, stays empty, whatever else the
    fragment holds. *)
Theorem safeInsertHtml_throws_on_comment `{Host} `{DOM.Browser}
    (html data : jsstring) :
  In (DOM.Comment data) (DOM.parseFragment (XSSProtection.sanitize_string html)) ->
  XSSProtection.safeInsertHtml html
  = ([], Throw (TypeError "Cannot read properties of undefined (reading 'toLowerCase')")).
Proof.
  intros Hin. unfold XSSProtection.safeInsertHtml.
  now rewrite (InsertMore.rebuildAll_comment _ _ _ Hin).
Qed.

Lemma safeInsertHtml_throws_on_comment_witness :
  XSSProtection.safeInsertHtml (H := AsciiHost.host) (H0 := MiniBrowser.browser)
    (js "5 km <!-- lap 2 --><b>fast")
  = ([], Throw (TypeError "Cannot read properties of undefined (reading 'toLowerCase')")).
Proof.
  apply (safeInsertHtml_throws_on_comment (H := AsciiHost.host)
           (H0 := MiniBrowser.browser) (js "5 km <!-- lap 2 --><b>fast")
           (js " lap 2 ")).
  vm_compute. tauto.
Defined.

(** X6 ([showErrorMessage] and [showSuccessMessage], src/unnamed/part_001,
    which hand [renderSafeContent] a [div] around the sanitized message).
    [div] is not on the allow-list of [safeInsertHtml]: on a browser that
    parses the markup into that one [div], the status element is emptied
    and receives nothing, so the message is not shown. *)
Theorem status_messages_show_nothing `{Host} `{DOM.Browser}
    (message : jsstring) (old : list DOM.node)
    (attributes attributes' : list (jsstring * jsstring))
    (childNodes childNodes' : list DOM.node) :
  toLowerCase (js "DIV") = js "div" ->
  (DOM.parseFragment
     (XSSProtection.sanitize_string (TreadmillConverter.box (js "error") message))
   = [DOM.Element (js "div") attributes childNodes] ->
   TreadmillConverter.showErrorMessage (Some old) message = (Some [], Ok tt))
  /\ (DOM.parseFragment
        (XSSProtection.sanitize_string (TreadmillConverter.box (js "success") message))
      = [DOM.Element (js "div") attributes' childNodes'] ->
      TreadmillConverter.showSuccessMessage (Some old) message = (Some [], Ok tt)).
Proof.
  intros Hlower.
  assert (Hinsert : forall class attrs kids,
    DOM.parseFragment
      (XSSProtection.sanitize_string (TreadmillConverter.box class message))
    = [DOM.Element (js "div") attrs kids] ->
    XSSProtection.safeInsertHtml (TreadmillConverter.box class message) = ([], Ok tt)).
  { intros class attrs kids Hparse.
    unfold XSSProtection.safeInsertHtml. rewrite Hparse.
    rewrite InsertMore.rebuildAll_dropped; [reflexivity|].
    constructor; [|constructor]. exists (js "div"), attrs, kids.
    split; [reflexivity|].
    change (DOM.tagName (js "div")) with (js "DIV"). rewrite Hlower. reflexivity. }
  split; intros Hparse.
  - unfold TreadmillConverter.showErrorMessage. now rewrite (Hinsert _ _ _ Hparse).
  - unfold TreadmillConverter.showSuccessMessage. now rewrite (Hinsert _ _ _ Hparse).
Qed.

Lemma status_messages_show_nothing_witness :
  TreadmillConverter.showErrorMessage (H := AsciiHost.host) (H0 := MiniBrowser.browser)
    (Some [DOM.Text (js "ready")]) (js "Save failed, <b>retry</b>")
  = (Some [], Ok tt)
  /\ TreadmillConverter.showSuccessMessage (H := AsciiHost.host)
       (H0 := MiniBrowser.browser)
       (Some [DOM.Text (js "ready")]) (js "Save failed, <b>retry</b>")
     = (Some [], Ok tt).
Proof.
  pose proof (status_messages_show_nothing (H := AsciiHost.host)
                (H0 := MiniBrowser.browser) (js "Save failed, <b>retry</b>")
                [DOM.Text (js "ready")]
                [(js "class", c_quot :: js "error" ++ [c_quot])]
                [(js "class", c_quot :: js "success" ++ [c_quot])]
                [DOM.Text (js "Save failed, ");
                 DOM.Element (js "b") [] [DOM.Text (js "retry<&#x2F;b></div>")]]
                [DOM.Text (js "Save failed, ");
                 DOM.Element (js "b") [] [DOM.Text (js "retry<&#x2F;b></div>")]]
                eq_refl) as [Herror Hsuccess].
  split; [apply Herror | apply Hsuccess]; vm_compute; reflexivity.
Defined.

(** ** The sandbox, on every message *)

Module LifecycleFacts.
Import ModuleSandbox.

Lemma consistent_empty : consistent emptyPage.
Proof.
  split; cbn; intros; try discriminate; try contradiction; try constructor.
Qed.

Lemma consistent_create moduleId p : consistent p -> consistent (createSandbox moduleId p).
Proof.
  intros [Ha Hb Hc Hd He]. split; cbn.
  - intros m t Hm. destruct (decide (m = moduleId)) as [->|Hne].
    + rewrite lookup_insert_eq in Hm. injection Hm as <-. apply lookup_insert_eq.
    + rewrite lookup_insert_ne in Hm by congruence.
      pose proof (Ha _ _ Hm) as Harmed. pose proof (Hd _ _ Harmed).
      rewrite lookup_insert_ne by lia. exact Harmed.
  - intros t Ht. pose proof (He _ Ht). rewrite lookup_insert_ne by lia. now apply Hb.
  - exact Hc.
  - intros t m Ht. destruct (decide (t = nextTimer p)) as [->|Hne]; [lia|].
    rewrite lookup_insert_ne in Ht by congruence. pose proof (Hd _ _ Ht). lia.
  - intros t Ht. pose proof (He _ Ht). lia.
Qed.

(** The step that both the timer and [SANDBOX_READY] take. *)
Lemma consistent_settle p moduleId timer :
  consistent p -> armed p !! timer = Some moduleId ->
  consistent
    {| handler := {| pendingMessages := delete moduleId (pendingMessages (handler p)) |};
       armed := delete timer (armed p);
       nextTimer := nextTimer p;
       resolved := resolved p ++ [timer] |}.
Proof.
  intros [Ha Hb Hc Hd He] Harmed. split; cbn.
  - intros m t Hm. apply lookup_delete_Some in Hm as [Hne Hm].
    pose proof (Ha _ _ Hm) as Ht.
    rewrite lookup_delete_ne; [exact Ht|]. intros ->. congruence.
  - intros t Ht. apply in_app_or in Ht as [Ht|[<-|[]]].
    + apply lookup_delete_None. right. now apply Hb.
    + apply lookup_delete_eq.
  - rewrite <- (rev_involutive (resolved p ++ [timer])). apply List.NoDup_rev.
    rewrite rev_app_distr. cbn [rev app]. constructor.
    + rewrite <- in_rev. intros Hin. apply Hb in Hin. congruence.
    + now apply List.NoDup_rev.
  - intros t m Ht. apply lookup_delete_Some in Ht as [_ Ht]. now apply (Hd _ m).
  - intros t Ht. apply in_app_or in Ht as [Ht|[<-|[]]]; [now apply He|].
    now apply (Hd _ moduleId).
Qed.

Lemma consistent_timeout timer p : consistent p -> consistent (timeoutFired timer p).
Proof.
  intros Hp. unfold timeoutFired. destruct (armed p !! timer) as [m|] eqn:E; [|exact Hp].
  now apply consistent_settle.
Qed.

Section WithHost.
Context `{Host}.
Variable location_origin : jsstring.

(** A message event either leaves the page as it is or resolves the
creation that waits under the name it carries. *)
Lemma deliver_cases event p :
deliver location_origin event p = p \/
exists moduleId timer,
pendingMessages (handler p) !! moduleId = Some timer /\
deliver location_origin event p
= {| handler := {| pendingMessages := delete moduleId (pendingMessages (handler p)) |};
 armed := delete timer (armed p);
 nextTimer := nextTimer p;
 resolved := resolved p ++ [timer] |}.
Proof.
assert (Hsame : {| handler := handler p; armed := armed p; nextTimer := nextTimer p;
           resolved := resolved p ++ [] |} = p).
{ rewrite app_nil_r. now destruct p. }
unfold deliver, handleMessage.
destruct (negb (streq (origin event) location_origin)); [now left|].
destruct (get_prop (data event) (js "type")) as [ty|x]; cbn [bind]; [|now left].
destruct (is_string ty (js "SANDBOX_READY")).
- destruct (get_prop (data event) (js "id")) as [id|x]; cbn [bind]; [|now left].
destruct id; try (now left).
destruct (pendingMessages (handler p) !! s) as [timer|] eqn:E; [|now left].
right. exists s, timer. split; [exact E|].
cbn. now rewrite E.
- destruct (is_string ty (js "SANDBOX_MESSAGE")); [|now left].
destruct (get_prop (data event) (js "data")) as [payload|x]; cbn [bind]; [|now left].
destruct (get_prop (data event) (js "id")) as [id|x]; cbn [bind]; [|now left].
destruct (substitution id) as [text|x]; cbn [bind]; now left.
Qed.

Lemma consistent_deliver event p :
consistent p -> consistent (deliver location_origin event p).
Proof.
intros Hp. destruct (deliver_cases event p) as [->|(m & t & Hm & ->)]; [exact Hp|].
apply consistent_settle; [exact Hp|]. now apply (waiting_armed p Hp).
Qed.

Lemma consistent_history hs p :
consistent p -> consistent (fold_left (happen location_origin) hs p).
Proof.
revert p. induction hs as [|h hs IH]; intros p Hp; [exact Hp|].
cbn [fold_left]. apply IH. destruct h; cbn [happen].
- now apply consistent_create.
- now apply consistent_deliver.
- now apply consistent_timeout.
Qed.
End WithHost.

End LifecycleFacts.

(** X7 ([ModuleSandbox.handleMessage], src/assets/js/core/sandbox.js).  A
    message of another origin changes nothing and has no effect.  On a
    message of the page's own origin the handler throws in two cases and no
    other: the data is [null] or [undefined], or the message is a
    SANDBOX_MESSAGE whose id the template literal cannot convert to a
    string (an object with an own property [toString], or an array that
    holds one).  When it returns it has not added to the pending
    creations.  Data is a tree of values; the stack an engine needs for
    data nested very deeply is not modelled. *)
Theorem sandbox_handleMessage_outcomes `{Host}
    (location_origin : jsstring) (st : ModuleSandbox.state)
    (event : ModuleSandbox.message_event) :
  (ModuleSandbox.origin event <> location_origin ->
   ModuleSandbox.handleMessage location_origin st event = Ok (st, []))
  /\ ((exists x, ModuleSandbox.handleMessage location_origin st event = Throw x)
      <-> ModuleSandbox.origin event = location_origin
          /\ (ModuleSandbox.data event = VNull
              \/ ModuleSandbox.data event = VUndefined
              \/ exists id,
                   get_prop (ModuleSandbox.data event) (js "type")
                   = Ok (VString (js "SANDBOX_MESSAGE"))
                   /\ get_prop (ModuleSandbox.data event) (js "id") = Ok id
                   /\ convertible id = false))
  /\ (forall st' effects,
        ModuleSandbox.handleMessage location_origin st event = Ok (st', effects) ->
        forall m t, ModuleSandbox.pendingMessages st' !! m = Some t ->
                    ModuleSandbox.pendingMessages st !! m = Some t).
Proof.
  unfold ModuleSandbox.handleMessage, streq.
  destruct (decide (ModuleSandbox.origin event = location_origin)) as [Ho|Ho].
  2:{ rewrite (bool_decide_eq_false_2 _ Ho). cbn [negb].
      split; [reflexivity|]. split.
      - split; [intros [x Hx]; discriminate | intros [Ho' _]; contradiction].
      - intros st' effects E. injection E as <- _. tauto. }
  rewrite (bool_decide_eq_true_2 _ Ho). cbn [negb].
  split; [congruence|].
  destruct (ModuleSandbox.data event) as [| |b|num|s|xs|props] eqn:Hd;
    cbn [get_prop bind].
  - split; [|discriminate].
    split; [intros _; split; [exact Ho | right; left; reflexivity]
           | intros _; eexists; reflexivity].
  - split; [|discriminate].
    split; [intros _; split; [exact Ho | left; reflexivity]
           | intros _; eexists; reflexivity].
  - split; [split; [intros [x Hx]; discriminate
                   | intros [_ [E|[E|(id & E & _)]]]; discriminate E]|].
    cbn. intros st' effects E. injection E as <- _. tauto.
  - split; [split; [intros [x Hx]; discriminate
                   | intros [_ [E|[E|(id & E & _)]]]; discriminate E]|].
    cbn. intros st' effects E. injection E as <- _. tauto.
  - split; [split; [intros [x Hx]; discriminate
                   | intros [_ [E|[E|(id & E & _)]]]; discriminate E]|].
    cbn. intros st' effects E. injection E as <- _. tauto.
  - split; [split; [intros [x Hx]; discriminate
                   | intros [_ [E|[E|(id & E & _)]]]; discriminate E]|].
    cbn. intros st' effects E. injection E as <- _. tauto.
  - destruct (default VUndefined (obj_get props (js "type"))) as [| |b|num|ty|xs|ps] eqn:Hty;
      cbn [is_string].
    1-4,6-7:
      (split; [split; [intros [x Hx]; discriminate
                      | intros [_ [E|[E|(id & E & _)]]]; discriminate E]|];
       intros st' effects E; injection E as <- _; tauto).
    unfold streq.
    destruct (decide (ty = js "SANDBOX_READY")) as [->|Hready].
    { rewrite bool_decide_eq_true_2 by reflexivity.
      assert (Hret : exists st' effects,
                 (match default VUndefined (obj_get props (js "id")) with
                  | VString moduleId =>
                      match ModuleSandbox.pendingMessages st !! moduleId with
                      | Some timer =>
                          Ok ({| ModuleSandbox.pendingMessages :=
                                   delete moduleId (ModuleSandbox.pendingMessages st) |},
                              [ModuleSandbox.ClearTimeout timer;
                               ModuleSandbox.ResolveCreation moduleId])
                      | None => Ok (st, [])
                      end
                  | _ => Ok (st, [])
                  end) = Ok (st', effects)
                 /\ forall m t, ModuleSandbox.pendingMessages st' !! m = Some t ->
                                ModuleSandbox.pendingMessages st !! m = Some t).
      { destruct (default VUndefined (obj_get props (js "id")));
          try (eexists _, _; split; [reflexivity | tauto]).
        destruct (ModuleSandbox.pendingMessages st !! s);
          eexists _, _; (split; [reflexivity|]); [|tauto].
        cbn. intros m t Hm. now apply lookup_delete_Some in Hm as [_ Hm]. }
      destruct Hret as (st1 & effects1 & -> & Hkeep).
      split.
      - split; [intros [x Hx]; discriminate|].
        intros [_ [E|[E|(id & E & _)]]]; discriminate E.
      - intros st' effects E. injection E as <- _. exact Hkeep. }
    rewrite (bool_decide_eq_false_2 _ Hready).
    destruct (decide (ty = js "SANDBOX_MESSAGE")) as [->|Hmessage].
    + rewrite bool_decide_eq_true_2 by reflexivity.
      unfold substitution.
      destruct (convertible (default VUndefined (obj_get props (js "id")))) eqn:Hc;
        cbn [bind].
      * split.
        -- split; [intros [x Hx]; discriminate|].
           intros [_ [E|[E|(id & _ & E & Hid)]]]; try discriminate E.
           injection E as <-. congruence.
        -- intros st' effects E. injection E as <- _. tauto.
      * split; [|discriminate].
        split; [|intros _; eexists; reflexivity].
        intros _. split; [exact Ho|]. right. right.
        eexists. split; [reflexivity|]. split; [reflexivity|exact Hc].
    + rewrite (bool_decide_eq_false_2 _ Hmessage).
      split.
      * split; [intros [x Hx]; discriminate|].
        intros [_ [E|[E|(id & E & _)]]]; try discriminate E.
        injection E as E. contradiction.
      * intros st' effects E. injection E as <- _. tauto.
Qed.

(** X8 ([ModuleSandbox.createSandbox] with its timer and
    [ModuleSandbox.handleMessage]).  Whatever creations, message events and
    timeouts follow each other on a page, no creation has its [resolve]
    called twice, and the timer of a creation that was resolved is no
    longer armed: [SANDBOX_READY] clears it, and once it has fired it is
    gone. *)
Theorem sandbox_creation_resolved_at_most_once `{Host}
    (location_origin : jsstring) (happenings : list ModuleSandbox.happening) :
  List.NoDup (ModuleSandbox.resolved (ModuleSandbox.history location_origin happenings))
  /\ forall timer,
       In timer (ModuleSandbox.resolved (ModuleSandbox.history location_origin happenings)) ->
       ModuleSandbox.armed (ModuleSandbox.history location_origin happenings) !! timer = None.
Proof.
  pose proof (LifecycleFacts.consistent_history location_origin happenings
                ModuleSandbox.emptyPage LifecycleFacts.consistent_empty) as Hc.
  split; [apply (ModuleSandbox.resolved_once _ Hc)|].
  apply (ModuleSandbox.resolved_disarmed _ Hc).
Qed.

(** X9 ([ModuleSandbox.postMessage]).  What is posted to a frame carries
    [origin: 'main-app'] whatever the message says about its origin, and
    every other property of the message as it is; nothing is posted when
    the frame is not found or has no window. *)
Theorem postMessage_stamps_origin (frame : option bool) (message : value) :
  match ModuleSandbox.postMessage frame message with
  | Some posted =>
      frame = Some true /\
      exists props,
        posted = VObject props /\
        obj_get props (js "origin") = Some (VString (js "main-app")) /\
        forall k, k <> js "origin" ->
                  obj_get props k = obj_get (ModuleSandbox.spread message) k
  | None => frame <> Some true
  end.
Proof.
  destruct frame as [[|]|]; cbn [ModuleSandbox.postMessage]; try discriminate.
  split; [reflexivity|]. eexists. split; [reflexivity|]. split.
  - rewrite SandboxFacts.obj_get_upsert. now rewrite SandboxFacts.streq_refl.
  - intros k Hk. rewrite SandboxFacts.obj_get_upsert.
    destruct (streq (js "origin") k) eqn:E; [|reflexivity].
    apply SandboxFacts.streq_true in E. congruence.
Qed.

(** ** The stores, beyond the round trip *)

Module StorageMore.
Import Run Storage.

Lemma fromCharCode_unshift c (d : Z) :
  c < 65536 -> (0 <= d < 65536)%Z ->
  fromCharCode (Z.of_N (fromCharCode (Z.of_N c - d)) + d) = c.
Proof.
  intros Hc Hd. unfold fromCharCode.
  rewrite Z2N.id by (apply Z.mod_pos_bound; lia).
  assert (((Z.of_N c - d) mod 65536 + d) mod 65536 = Z.of_N c)%Z as ->.
  { rewrite Zplus_mod_idemp_l.
    replace (Z.of_N c - d + d)%Z with (Z.of_N c) by lia.
    apply Z.mod_small. lia. }
  apply N2Z.id.
Qed.

Lemma obfuscate_deobfuscate str :
  Forall (fun c => c < 65536) str ->
  FallbackStorage._obfuscate (FallbackStorage._deobfuscate str) = str.
Proof.
  unfold FallbackStorage._deobfuscate, FallbackStorage._obfuscate.
  induction str as [|c str IH]; intros Hall; [reflexivity|].
  apply List.Forall_cons_iff in Hall as [Hc Hall]. cbn [List.map].
  rewrite IH by assumption. f_equal.
  apply fromCharCode_unshift; [assumption|]. cbn. lia.
Qed.

(** The fallback store reads a key from its own entry and from nothing
    else. *)
Lemma fallback_getItem_local `{Platform} (key : jsstring) (s1 s2 : gmap jsstring jsstring) :
  s1 !! (js "fallback_" ++ key) = s2 !! (js "fallback_" ++ key) ->
  effs (FallbackStorage.getItem key s1) = effs (FallbackStorage.getItem key s2)
  /\ snd (FallbackStorage.getItem key s1) = snd (FallbackStorage.getItem key s2).
Proof.
  intros Hl. unfold FallbackStorage.getItem, try_catch, seq, get, lift, ret, emit, effs.
  rewrite Hl. destruct (truthy (s2 !! (js "fallback_" ++ key))) as [obfuscated|];
    [|split; reflexivity].
  destruct (atob (FallbackStorage._deobfuscate obfuscated)) as [binary|x];
    [|split; reflexivity].
  destruct (decodeURIComponent (escape binary)) as [decoded|x]; [|split; reflexivity].
  destruct (JSON_parse decoded); split; reflexivity.
Qed.

Lemma fallback_setItem_after `{Platform} (key : jsstring) (val : value) (stored : gmap jsstring jsstring) :
  after (FallbackStorage.setItem key val stored) = stored
  \/ exists obfuscated,
       after (FallbackStorage.setItem key val stored)
       = <[js "fallback_" ++ key := obfuscated]> stored.
Proof.
  unfold FallbackStorage.setItem, try_catch, seq, lift, modify, emit, after.
  destruct (encodeURIComponent (text_of (JSON_stringify val))) as [uri|x]; [|now left].
  destruct (btoa (unescape uri)) as [encrypted|x]; [|now left].
  right. eexists. reflexivity.
Qed.

Lemma starts_with_secure key : firstn 7 (js "secure_" ++ key) = js "secure_".
Proof. reflexivity. Qed.

Lemma starts_with_fallback key : firstn 9 (js "fallback_" ++ key) = js "fallback_".
Proof. reflexivity. Qed.

End StorageMore.

(** X10 ([SecureStorage._arrayBufferToBase64] and
    [SecureStorage._base64ToArrayBuffer], src/assets/js/core/storage.js).
    A buffer of bytes that is turned into Base64 text and back is the
    buffer again. *)
Theorem buffer_base64_roundtrip `{Host} (buffer : list N) :
  Forall (fun b => b < 256) buffer ->
  ToString (VString (b64_encode buffer)) = b64_encode buffer ->
  exists text,
    SecureStorage._arrayBufferToBase64 buffer = Ok text
    /\ SecureStorage._base64ToArrayBuffer (VString text) = Ok buffer.
Proof.
  intros Hbytes Htext. exists (b64_encode buffer). split.
  - unfold SecureStorage._arrayBufferToBase64, btoa.
    assert (forallb (fun u => u <? 256) buffer = true) as ->; [|reflexivity].
    apply forallb_forall. intros b Hb. apply N.ltb_lt.
    rewrite List.Forall_forall in Hbytes. now apply Hbytes.
  - unfold SecureStorage._base64ToArrayBuffer. rewrite Htext.
    now apply Base64Facts.atob_encode.
Qed.

Lemma buffer_base64_roundtrip_witness :
  exists text,
    SecureStorage._arrayBufferToBase64 [0; 1; 2; 3; 4; 5; 6; 7; 8; 9; 10; 11; 255] = Ok text
    /\ SecureStorage._base64ToArrayBuffer (H := AsciiHost.host) (VString text)
       = Ok [0; 1; 2; 3; 4; 5; 6; 7; 8; 9; 10; 11; 255].
Proof.
  apply (buffer_base64_roundtrip (H := AsciiHost.host)
           [0; 1; 2; 3; 4; 5; 6; 7; 8; 9; 10; 11; 255]).
  - repeat constructor.
  - reflexivity.
Defined.

(** X11 ([FallbackStorage._obfuscate] and [FallbackStorage._deobfuscate]).
    On a string of 16-bit code units each of the two undoes the other, the
    wrap-around of [String.fromCharCode] included, and neither changes the
    length. *)
Theorem obfuscation_roundtrip (str : jsstring) :
  Forall (fun c => c < 65536) str ->
  FallbackStorage._deobfuscate (FallbackStorage._obfuscate str) = str
  /\ FallbackStorage._obfuscate (FallbackStorage._deobfuscate str) = str
  /\ length (FallbackStorage._obfuscate str) = length str
  /\ length (FallbackStorage._deobfuscate str) = length str.
Proof.
  intros Hall. split; [now apply StorageFacts.deobfuscate_obfuscate|].
  split; [now apply StorageMore.obfuscate_deobfuscate|].
  unfold FallbackStorage._obfuscate, FallbackStorage._deobfuscate.
  now rewrite !length_map.
Qed.

Lemma obfuscation_roundtrip_witness :
  FallbackStorage._deobfuscate (FallbackStorage._obfuscate [65; 122; 65530; 0]) = [65; 122; 65530; 0]
  /\ FallbackStorage._obfuscate (FallbackStorage._deobfuscate [65; 122; 65530; 0]) = [65; 122; 65530; 0]
  /\ length (FallbackStorage._obfuscate [65; 122; 65530; 0]) = length [65; 122; 65530; 0]
  /\ length (FallbackStorage._deobfuscate [65; 122; 65530; 0]) = length [65; 122; 65530; 0].
Proof.
  apply (obfuscation_roundtrip [65; 122; 65530; 0]). repeat constructor.
Defined.

(** X12 ([FallbackStorage.setItem] and [FallbackStorage.getItem]).  On a
    platform whose JSON and URI codecs invert each other on the value, what
    was set under a key is what the key reads, and neither call logs
    anything. *)
Theorem fallback_setItem_then_getItem `{Storage.Platform}
    (key : jsstring) (val : value) (text uri : jsstring)
    (stored : gmap jsstring jsstring) :
  Storage.JSON_stringify val = Some text ->
  Storage.encodeURIComponent text = Ok uri ->
  forallb (fun u => u <? 256) (Storage.unescape uri) = true ->
  Storage.unescape uri <> [] ->
  Storage.decodeURIComponent (Storage.escape (Storage.unescape uri)) = Ok text ->
  Storage.JSON_parse text = Ok val ->
  FallbackStorage.setItem key val stored
  = (<[js "fallback_" ++ key :=
         FallbackStorage._obfuscate (b64_encode (Storage.unescape uri))]> stored,
     [], Ok tt)
  /\ FallbackStorage.getItem key (Run.after (FallbackStorage.setItem key val stored))
     = (Run.after (FallbackStorage.setItem key val stored), [], Ok val).
Proof.
  intros Htext Huri Hbytes Hne Hdecode Hparse.
  pose proof (StorageFacts.fallback_setItem_stores key val text uri Htext Huri Hbytes stored)
    as Hset.
  split; [exact Hset|]. rewrite Hset. cbn [Run.after fst].
  unfold FallbackStorage.getItem, Run.try_catch, Run.seq, Run.get, Run.lift.
  rewrite lookup_insert_eq.
  assert (Hne' : FallbackStorage._obfuscate (b64_encode (Storage.unescape uri)) <> []).
  { pose proof (StorageFacts.b64_encode_nonempty _ Hne) as Hb.
    unfold FallbackStorage._obfuscate.
    destruct (b64_encode (Storage.unescape uri)); [congruence | discriminate]. }
  destruct (FallbackStorage._obfuscate (b64_encode (Storage.unescape uri)))
    as [|u s] eqn:E; [congruence|].
  cbn [Storage.truthy].
  rewrite <- E, StorageFacts.deobfuscate_obfuscate by apply StorageFacts.b64_encode_small.
  rewrite Base64Facts.atob_encode, Hdecode, Hparse; [reflexivity|].
  rewrite forallb_forall in Hbytes. apply List.Forall_forall. intros b Hb.
  apply N.ltb_lt. now apply Hbytes.
Qed.

Lemma fallback_setItem_then_getItem_witness :
  FallbackStorage.setItem (H := Double.platform) (js "shoes") Examples.shoe ∅
  = (<[js "fallback_" ++ js "shoes" :=
         FallbackStorage._obfuscate
           (b64_encode (Storage.text_of (Double.stringify Examples.shoe)))]> ∅,
     [], Ok tt)
  /\ FallbackStorage.getItem (H := Double.platform) (js "shoes")
       (Run.after (FallbackStorage.setItem (H := Double.platform) (js "shoes")
                     Examples.shoe ∅))
     = (Run.after (FallbackStorage.setItem (H := Double.platform) (js "shoes")
                     Examples.shoe ∅), [], Ok Examples.shoe).
Proof.
  apply (fallback_setItem_then_getItem (H := Double.platform) (js "shoes") Examples.shoe
           (Storage.text_of (Double.stringify Examples.shoe))
           (Storage.text_of (Double.stringify Examples.shoe)) ∅);
    try reflexivity.
  discriminate.
Defined.

(** X13 ([FallbackStorage.setItem] and [FallbackStorage.getItem]).
    Neither call ever throws.  [setItem] stores under [fallback_] and the
    key, or leaves [localStorage] as it is and logs one
    FALLBACK_STORAGE_SET_FAILED; [getItem] never changes [localStorage],
    and a failure reads as [null] with one FALLBACK_STORAGE_GET_FAILED. *)
Theorem fallback_store_never_throws `{Storage.Platform}
    (key : jsstring) (val : value) (stored : gmap jsstring jsstring) :
  ((exists obfuscated,
      FallbackStorage.setItem key val stored
      = (<[js "fallback_" ++ key := obfuscated]> stored, [], Ok tt))
   \/ (exists x,
         FallbackStorage.setItem key val stored
         = (stored,
            [Storage.LogSecurityEvent (js "FALLBACK_STORAGE_SET_FAILED")
               (Storage.error_details [(js "key", VString key)] x)],
            Ok tt)))
  /\ ((exists v, FallbackStorage.getItem key stored = (stored, [], Ok v))
      \/ (exists x,
            FallbackStorage.getItem key stored
            = (stored,
               [Storage.LogSecurityEvent (js "FALLBACK_STORAGE_GET_FAILED")
                  (Storage.error_details [(js "key", VString key)] x)],
               Ok VNull))).
Proof.
  split.
  - unfold FallbackStorage.setItem, Run.try_catch, Run.seq, Run.lift, Run.modify, Run.emit.
    destruct (Storage.encodeURIComponent _) as [uri|x]; [|right; now exists x].
    destruct (btoa _) as [encrypted|x]; [|right; now exists x].
    left. eexists. reflexivity.
  - unfold FallbackStorage.getItem, Run.try_catch, Run.seq, Run.get, Run.lift, Run.ret,
      Run.emit.
    destruct (Storage.truthy _) as [obfuscated|]; [|left; now exists VNull].
    destruct (atob _) as [binary|x]; [|right; now exists x].
    destruct (Storage.decodeURIComponent _) as [decoded|x]; [|right; now exists x].
    destruct (Storage.JSON_parse decoded) as [v|x]; [left; now exists v | right; now exists x].
Qed.

(** X14 ([FallbackStorage.setItem] and [FallbackStorage.getItem]).
    Setting one key never changes what another key reads, whether the
    write succeeds or fails. *)
Theorem fallback_setItem_keeps_other_keys `{Storage.Platform}
    (key other : jsstring) (val : value) (stored : gmap jsstring jsstring) :
  key <> other ->
  snd (FallbackStorage.getItem other (Run.after (FallbackStorage.setItem key val stored)))
  = snd (FallbackStorage.getItem other stored)
  /\ Run.effs (FallbackStorage.getItem other
                 (Run.after (FallbackStorage.setItem key val stored)))
     = Run.effs (FallbackStorage.getItem other stored).
Proof.
  intros Hne.
  assert (Hl : Run.after (FallbackStorage.setItem key val stored) !! (js "fallback_" ++ other)
               = stored !! (js "fallback_" ++ other)).
  { destruct (StorageMore.fallback_setItem_after key val stored) as [->|(o & ->)];
      [reflexivity|].
    apply lookup_insert_ne. intros E. apply app_inv_head in E. contradiction. }
  destruct (StorageMore.fallback_getItem_local other _ _ Hl) as [He Hr].
  split; assumption.
Qed.

Lemma fallback_setItem_keeps_other_keys_witness :
  snd (FallbackStorage.getItem (H := Double.platform) (js "runs")
         (Run.after (FallbackStorage.setItem (H := Double.platform) (js "shoes")
                       Examples.shoe ∅)))
  = snd (FallbackStorage.getItem (H := Double.platform) (js "runs") ∅)
  /\ Run.effs (FallbackStorage.getItem (H := Double.platform) (js "runs")
                 (Run.after (FallbackStorage.setItem (H := Double.platform) (js "shoes")
                               Examples.shoe ∅)))
     = Run.effs (FallbackStorage.getItem (H := Double.platform) (js "runs") ∅).
Proof.
  apply (fallback_setItem_keeps_other_keys (H := Double.platform)
           (js "shoes") (js "runs") Examples.shoe ∅).
  discriminate.
Defined.

(** X15 ([SecureStorage._initKey] and the constructor).  A key blob in
    [localStorage] decides the initialisation: when it imports, its key is
    the key of the store, nothing is derived and [localStorage] is left as
    it is; when it does not import, the initialisation fails with
    SECURE_STORAGE_INIT_FAILED after one KEY_INIT_FAILED event, no key is
    derived in its place, and the blob stays where it is. *)
Theorem stored_key_blob_decides `{Storage.Platform}
    (e : Storage.env) (stored : gmap jsstring jsstring) (blob : jsstring) :
  Storage.truthy (stored !! Storage.keyBlob) = Some blob ->
  SecureStorage.construct e stored
  = match SecureStorage._importKey blob with
    | Ok k =>
        ({| SecureStorage.localStorage := stored;
            SecureStorage.encryptionKey := Some k;
            SecureStorage.keyPromise := Ok tt |}, [])
    | Throw x =>
        ({| SecureStorage.localStorage := stored;
            SecureStorage.encryptionKey := None;
            SecureStorage.keyPromise := Throw (Error "SECURE_STORAGE_INIT_FAILED") |},
         [Storage.LogSecurityEvent (js "KEY_INIT_FAILED") (Storage.error_details [] x)])
    end.
Proof.
  intros Hblob.
  unfold SecureStorage.construct, SecureStorage._initKey, Run.try_catch, Run.seq, Run.get,
    Run.lift, Run.modify, Run.emit, Run.throw.
  cbn [SecureStorage.localStorage]. rewrite Hblob.
  destruct (SecureStorage._importKey blob) as [k|x]; reflexivity.
Qed.

Lemma stored_key_blob_decides_witness :
  SecureStorage.construct (H0 := Double.platform) Examples.device
    {[ Storage.keyBlob := js "not a key" ]}
  = ({| SecureStorage.localStorage := {[ Storage.keyBlob := js "not a key" ]};
        SecureStorage.encryptionKey := None;
        SecureStorage.keyPromise := Throw (Error "SECURE_STORAGE_INIT_FAILED") |},
     [Storage.LogSecurityEvent (js "KEY_INIT_FAILED")
        (Storage.error_details [] Double.SyntaxError)]).
Proof.
  apply (stored_key_blob_decides (H := Double.platform) Examples.device
           {[ Storage.keyBlob := js "not a key" ]} (js "not a key")).
  reflexivity.
Defined.

(** X16 ([SecureStorage] constructor, [setItem], [getItem]).  After the
    constructor either the key promise is fulfilled and the store holds a
    key, or it is rejected with SECURE_STORAGE_INIT_FAILED; in the second
    case every later [setItem] and [getItem] is rejected with that error,
    and neither touches [localStorage], asks for a decryption or logs. *)
Theorem failed_key_init_rejects_every_call `{Host} `{Storage.Platform}
    (e : Storage.env) (stored : gmap jsstring jsstring) :
  let st := fst (SecureStorage.construct e stored) in
  (SecureStorage.keyPromise st = Ok tt
   /\ exists k, SecureStorage.encryptionKey st = Some k)
  \/ (SecureStorage.keyPromise st = Throw (Error "SECURE_STORAGE_INIT_FAILED")
      /\ forall (e' : Storage.env) (key : jsstring) (val : value) (fuel : nat),
           SecureStorage.setItem e' key val st
           = (st, [], Throw (Error "SECURE_STORAGE_INIT_FAILED"))
           /\ SecureStorage.getItem (S fuel) e' key st
              = (st, [], Throw (Error "SECURE_STORAGE_INIT_FAILED"))).
Proof.
  intros st.
  assert (Hcases :
    (SecureStorage.keyPromise st = Ok tt
     /\ exists k, SecureStorage.encryptionKey st = Some k)
    \/ SecureStorage.keyPromise st = Throw (Error "SECURE_STORAGE_INIT_FAILED")).
  { subst st.
    unfold SecureStorage.construct, SecureStorage._initKey, Run.try_catch, Run.seq,
      Run.get, Run.lift, Run.modify, Run.emit, Run.throw.
    cbn [SecureStorage.localStorage].
    destruct (Storage.truthy (stored !! Storage.keyBlob)) as [blob|].
    - destruct (SecureStorage._importKey blob) as [k|x]; cbn; [left | now right].
      split; [reflexivity | now exists k].
    - destruct (Storage.deriveKey (Storage.fingerprint e)) as [k|x]; cbn; [|now right].
      destruct (Storage.exportJwk k) as [jwk|x]; cbn; [left | now right].
      split; [reflexivity | now exists k]. }
  destruct Hcases as [Hok|Hfail]; [now left|]. right. split; [exact Hfail|].
  intros e' key val fuel. split.
  - unfold SecureStorage.setItem, Run.seq at 1. cbn [Run.get].
    unfold Run.seq at 1. unfold Run.lift at 1. rewrite Hfail. reflexivity.
  - now apply StorageFacts.getItem_rejected.
Qed.



(** X18 ([SecureStorage.clear] and [FallbackStorage.clear]).  After
    [clear()] every key reads [null] from the store that was cleared, with
    no decryption and no log entry; the encrypted store has also dropped
    its key blob, while the key it holds in memory stays.  Each [clear]
    leaves the entries alone that are not its own: the encrypted store
    those that do not start with [secure_] (the key blob apart), the
    fallback store those that do not start with [fallback_]. *)
Theorem clear_forgets_every_item `{Host} `{Storage.Platform}
    (e : Storage.env) (st : SecureStorage.state) (stored : gmap jsstring jsstring) :
  (forall key fuel,
     SecureStorage.keyPromise st = Ok tt ->
     SecureStorage.getItem (S fuel) e key (SecureStorage.clear st)
     = (SecureStorage.clear st, [], Ok (SecureStorage.Resolved VNull)))
  /\ SecureStorage.localStorage (SecureStorage.clear st) !! Storage.keyBlob = None
  /\ SecureStorage.encryptionKey (SecureStorage.clear st) = SecureStorage.encryptionKey st
  /\ (forall name,
        firstn 7 name <> js "secure_" -> name <> Storage.keyBlob ->
        SecureStorage.localStorage (SecureStorage.clear st) !! name
        = SecureStorage.localStorage st !! name)
  /\ (forall key,
        FallbackStorage.getItem key (FallbackStorage.clear stored)
        = (FallbackStorage.clear stored, [], Ok VNull))
  /\ (forall name,
        firstn 9 name <> js "fallback_" ->
        FallbackStorage.clear stored !! name = stored !! name).
Proof.
  split; [|split; [|split; [|split; [|split]]]].
  - intros key fuel Hp. apply StorageFacts.getItem_absent; [exact Hp|].
    cbn [SecureStorage.clear SecureStorage.localStorage].
    rewrite lookup_delete_ne by apply StorageFacts.keyBlob_not_secure.
    apply map_lookup_filter_None. right. intros v _. cbn [fst].
    rewrite StorageMore.starts_with_secure. rewrite SandboxFacts.streq_refl. discriminate.
  - cbn [SecureStorage.clear SecureStorage.localStorage]. apply lookup_delete_eq.
  - reflexivity.
  - intros name Hname Hblob. cbn [SecureStorage.clear SecureStorage.localStorage].
    rewrite lookup_delete_ne by congruence.
    destruct (SecureStorage.localStorage st !! name) as [v|] eqn:E.
    + apply map_lookup_filter_Some. split; [exact E|]. cbn [fst].
      destruct (streq (firstn 7 name) (js "secure_")) eqn:Es; [|reflexivity].
      apply SandboxFacts.streq_true in Es. contradiction.
    + apply map_lookup_filter_None. now left.
  - intros key. apply StorageFacts.fallback_getItem_absent.
    unfold FallbackStorage.clear. apply map_lookup_filter_None. right. intros v _.
    cbn [fst]. rewrite StorageMore.starts_with_fallback, SandboxFacts.streq_refl.
    discriminate.
  - intros name Hname. unfold FallbackStorage.clear.
    destruct (stored !! name) as [v|] eqn:E.
    + apply map_lookup_filter_Some. split; [exact E|]. cbn [fst].
      destruct (streq (firstn 9 name) (js "fallback_")) eqn:Es; [|reflexivity].
      apply SandboxFacts.streq_true in Es. contradiction.
    + apply map_lookup_filter_None. now left.
Qed.

(** X19 ([SecureStorage._initKey], over a reload).  The key a store
    derives is exported into [localStorage]; on a platform that imports
    what it exported, the next store that is constructed over that
    [localStorage] holds the same key without deriving one, whatever the
    fingerprint of the device has become. *)
Theorem derived_key_survives_reload `{Storage.Platform}
    (e e' : Storage.env) (stored : gmap jsstring jsstring)
    (k : Storage.CryptoKey) (jwk : value) (text : jsstring) :
  Storage.truthy (stored !! Storage.keyBlob) = None ->
  Storage.deriveKey (Storage.fingerprint e) = Ok k ->
  Storage.exportJwk k = Ok jwk ->
  Storage.JSON_stringify jwk = Some text ->
  text <> [] ->
  SecureStorage._importKey text = Ok k ->
  SecureStorage.construct e stored
  = ({| SecureStorage.localStorage := <[Storage.keyBlob := text]> stored;
        SecureStorage.encryptionKey := Some k;
        SecureStorage.keyPromise := Ok tt |},
     [Storage.DeriveKey (Storage.fingerprint e)])
  /\ SecureStorage.construct e'
       (SecureStorage.localStorage (fst (SecureStorage.construct e stored)))
     = ({| SecureStorage.localStorage := <[Storage.keyBlob := text]> stored;
           SecureStorage.encryptionKey := Some k;
           SecureStorage.keyPromise := Ok tt |}, []).
Proof.
  intros Hnone Hderive Hexport Htext Hne Himport.
  assert (Hfirst :
    SecureStorage.construct e stored
    = ({| SecureStorage.localStorage := <[Storage.keyBlob := text]> stored;
          SecureStorage.encryptionKey := Some k;
          SecureStorage.keyPromise := Ok tt |},
       [Storage.DeriveKey (Storage.fingerprint e)])).
  { unfold SecureStorage.construct, SecureStorage._initKey, Run.try_catch, Run.seq,
      Run.get, Run.lift, Run.modify, Run.emit, Run.throw.
    cbn [SecureStorage.localStorage]. rewrite Hnone, Hderive.
    cbn [SecureStorage.set_key SecureStorage.localStorage SecureStorage.encryptionKey
         SecureStorage.keyPromise].
    rewrite Hexport, Htext. reflexivity. }
  split; [exact Hfirst|]. rewrite Hfirst. cbn [fst SecureStorage.localStorage].
  unfold SecureStorage.construct, SecureStorage._initKey, Run.try_catch, Run.seq,
    Run.get, Run.lift, Run.modify, Run.emit, Run.throw.
  cbn [SecureStorage.localStorage]. rewrite lookup_insert_eq.
  destruct text as [|u text]; [contradiction|]. cbn [Storage.truthy].
  rewrite Himport. reflexivity.
Qed.

Lemma derived_key_survives_reload_witness :
  SecureStorage.construct (H0 := Double.platform) Examples.device ∅
  = (@SecureStorage.Build_state Double.platform
        (<[Storage.keyBlob :=
             Storage.text_of
               (Double.stringify (VObject [(js "k", VString (List.repeat 120 32))]))]> ∅)
        (Some (32 : N)) (Ok tt),
     [Storage.DeriveKey (Storage.fingerprint Examples.device)])
  /\ SecureStorage.construct (H0 := Double.platform)
       {| Storage.fingerprint := js "another day"; Storage.random_iv := [] |}
       (SecureStorage.localStorage
          (fst (SecureStorage.construct (H0 := Double.platform) Examples.device ∅)))
     = (@SecureStorage.Build_state Double.platform
           (<[Storage.keyBlob :=
                Storage.text_of
                  (Double.stringify (VObject [(js "k", VString (List.repeat 120 32))]))]> ∅)
           (Some (32 : N)) (Ok tt), []).
Proof.
  apply (derived_key_survives_reload (H := Double.platform) Examples.device
           {| Storage.fingerprint := js "another day"; Storage.random_iv := [] |}
           ∅ (32 : N) (VObject [(js "k", VString (List.repeat 120 32))])
           (Storage.text_of
              (Double.stringify (VObject [(js "k", VString (List.repeat 120 32))]))));
    try reflexivity.
  discriminate.
Defined.

(** ** The threat monitor, on every history *)

Module MonitorMore.
Import Run ThreatMonitor ThreatFacts.

(** The last [n] entries of a list. *)
Lemma skipn_snoc {A} (l : list A) (x : A) (n : nat) :
  (n <= length l)%nat -> skipn n (l ++ [x]) = skipn n l ++ [x].
Proof. intros Hn. rewrite skipn_app. replace (n - length l)%nat with 0%nat by lia. reflexivity. Qed.

Lemma pushed_last ev h :
  (length h <= 100)%nat ->
  pushed ev h = skipn (length (h ++ [ev]) - 100) (h ++ [ev]).
Proof.
  intros Hlen. unfold pushed. rewrite length_app. cbn [length].
  destruct (Nat.ltb_spec 100 (length h + 1)) as [Hgt|Hle].
  - replace (length h + 1 - 100)%nat with 1%nat by lia. reflexivity.
  - replace (length h + 1 - 100)%nat with 0%nat by lia. reflexivity.
Qed.

Lemma pushed_length ev h : (length h <= 100)%nat -> (length (pushed ev h) <= 100)%nat.
Proof.
  intros Hlen. unfold pushed. rewrite length_app. cbn [length].
  destruct (Nat.ltb_spec 100 (length h + 1)) as [Hgt|Hle].
  - destruct h as [|x h]; cbn [app tl length] in *; [lia|]. rewrite length_app. cbn. lia.
  - rewrite length_app. cbn [length]. lia.
Qed.

Lemma last_of_last {A} (l : list A) (x : A) :
  skipn (length (skipn (length l - 100) l ++ [x]) - 100) (skipn (length l - 100) l ++ [x])
  = skipn (length (l ++ [x]) - 100) (l ++ [x]).
Proof.
  rewrite !length_app, length_skipn. cbn [length].
  destruct (Nat.le_gt_cases (length l) 100) as [Hle|Hgt].
  - replace (length l - 100)%nat with 0%nat by lia. cbn [skipn]. f_equal. lia.
  - replace (length l - (length l - 100) + 1 - 100)%nat with 1%nat by lia.
    rewrite skipn_snoc by (rewrite length_skipn; lia).
    rewrite skipn_snoc by lia. f_equal.
    rewrite skipn_skipn. f_equal. lia.
Qed.

Lemma In_pushed_new ev h : In ev (pushed ev h).
Proof.
  unfold pushed. destruct (Nat.ltb_spec 100 (length (h ++ [ev]))) as [Hgt|Hle].
  - destruct h as [|x h]; cbn [app tl length] in *; [lia|].
    apply in_or_app. right. now left.
  - apply in_or_app. right. now left.
Qed.

Lemma In_pushed ev h x : In x (pushed ev h) -> In x h \/ x = ev.
Proof.
  unfold pushed. intros Hin.
  assert (Hin' : In x (h ++ [ev])).
  { destruct (Nat.ltb 100 (length (h ++ [ev]))); [|exact Hin].
    destruct (h ++ [ev]); [contradiction | now right]. }
  apply in_app_or in Hin' as [Hx|[<-|[]]]; [now left | now right].
Qed.

Lemma Forall_pushed (P : event -> Prop) ev h : Forall P h -> P ev -> Forall P (pushed ev h).
Proof.
  intros Hh Hev. apply List.Forall_forall. intros x Hx.
  destruct (In_pushed _ _ _ Hx) as [Hin| ->]; [|exact Hev].
  rewrite List.Forall_forall in Hh. now apply Hh.
Qed.

Lemma total_cons ev h : total (ev :: h) = (weight ev + total h)%Z.
Proof. reflexivity. Qed.

(** The score of a history of numbers is their sum. *)
Lemma fold_add_risk_numeric h z :
  Forall numeric h -> fold_left add_risk h (Some z) = Some (z + total h)%Z.
Proof.
  revert z. induction h as [|ev h IH]; intros z Hall.
  - cbn. f_equal. lia.
  - apply List.Forall_cons_iff in Hall as [[w Hw] Hall].
    change (fold_left add_risk (ev :: h) (Some z))
      with (fold_left add_risk h (add_risk (Some z) ev)).
    assert (add_risk (Some z) ev = Some (z + w)%Z) as ->
      by (unfold add_risk; now rewrite Hw).
    rewrite IH, total_cons by assumption.
    assert (weight ev = w) as -> by (unfold weight; now rewrite Hw).
    f_equal. lia.
Qed.

Lemma Forall_recent (P : event -> Prop) now h : Forall P h -> Forall P (recentEvents now h).
Proof.
  intros Hh. apply List.Forall_forall. intros x Hx.
  apply filter_In in Hx as [Hx _]. rewrite List.Forall_forall in Hh. now apply Hh.
Qed.

Lemma riskScore_numeric now h :
  Forall numeric h -> riskScore now h = Some (total (recentEvents now h)).
Proof.
  intros Hh. unfold riskScore.
  rewrite fold_add_risk_numeric by now apply Forall_recent. f_equal.
Qed.

(** One entry that is not a number makes the score a text. *)
Lemma fold_add_risk_none h : fold_left add_risk h None = None.
Proof. induction h as [|ev h IH]; [reflexivity | exact IH]. Qed.

Lemma fold_add_risk_inherited h sum ev :
  In ev h -> riskLevel ev = Inherited -> fold_left add_risk h sum = None.
Proof.
  revert sum. induction h as [|x h IH]; intros sum Hin Hev; [contradiction|].
  cbn [fold_left]. destruct Hin as [->|Hin].
  - unfold add_risk at 2. rewrite Hev.
    destruct sum; apply fold_add_risk_none.
  - now apply IH.
Qed.

Lemma riskScore_inherited now h ev :
  In ev h -> riskLevel ev = Inherited -> (now - timestamp ev < 60000)%Z ->
  riskScore now h = None.
Proof.
  intros Hin Hev Hwin. unfold riskScore.
  apply (fold_add_risk_inherited _ _ ev); [|exact Hev].
  apply filter_In. split; [exact Hin|]. now apply Z.ltb_lt.
Qed.

Lemma total_nonneg h :
  Forall (fun ev => 0 <= weight ev)%Z h -> (0 <= total h)%Z.
Proof.
  induction 1 as [|ev h Hev _ IH]; [cbn; lia|]. rewrite total_cons. lia.
Qed.

Lemma total_member h ev :
  Forall (fun ev => 0 <= weight ev)%Z h -> In ev h -> (weight ev <= total h)%Z.
Proof.
  induction 1 as [|x h Hx Hall IH]; [contradiction|].
  rewrite total_cons. pose proof (total_nonneg h Hall).
  intros [->|Hin]; [lia|]. specialize (IH Hin). lia.
Qed.

(** The weights of the table. *)
Lemma calculateRiskLevel_range type :
  match _calculateRiskLevel type with
  | Weight w => (1 <= w <= 5)%Z
  | Inherited => In type objectPrototypeNames
  end.
Proof.
  unfold _calculateRiskLevel, riskLevels. cbn [table_get].
  repeat match goal with
         | |- context [streq ?a type] => destruct (streq a type); [lia|]
         end.
  destruct (includes objectPrototypeNames type) eqn:E; [|lia].
  now apply SandboxFacts.includes_true.
Qed.

Lemma calculateRiskLevel_inherited type :
  In type objectPrototypeNames -> _calculateRiskLevel type = Inherited.
Proof.
  intros Hin. unfold _calculateRiskLevel.
  assert (Ht : table_get riskLevels type = None).
  { cbn in Hin.
    repeat (destruct Hin as [<-|Hin]; [reflexivity|]). contradiction. }
  rewrite Ht. apply SandboxFacts.includes_true in Hin. now rewrite Hin.
Qed.

Lemma warnings_app a b : warnings (a ++ b) = (warnings a + warnings b)%nat.
Proof. unfold warnings. now rewrite List.filter_app, length_app. Qed.

Lemma tallies_seq {A B} (m : M A) (k : A -> M B) :
  tallies m -> (forall a, tallies (k a)) -> tallies (seq m k).
Proof.
  intros Hm Hk st. rewrite seq_effs, seq_after, warnings_app.
  specialize (Hm st). destruct (snd (m st)) as [a|x].
  - specialize (Hk a (after (m st))). lia.
  - cbn [warnings List.filter length]. lia.
Qed.

Lemma tallies_ret {A} (a : A) : tallies (ret a).
Proof. intros st. reflexivity. Qed.

Section WithHost.
Context `{Host}.

Lemma tallies_showWarning e : tallies (_showWarning e).
Proof.
intros st. unfold _showWarning, seq, get, put, emit, ret, throw, effs, after, raised.
destruct (warningShown st) eqn:E; cbn; [now rewrite E|].
destruct (render_throws e); reflexivity.
Qed.

Lemma tallies_blockAccess e : tallies (_blockAccess e).
Proof.
intros st. unfold _blockAccess, seq, get, put, emit, ret, throw, effs, after, raised.
destruct (render_throws e); reflexivity.
Qed.

Lemma tallies_checkThreatLevel e : tallies (_checkThreatLevel e).
Proof.
unfold _checkThreatLevel. apply tallies_seq; [intros st; reflexivity|].
intros st. apply tallies_seq.
- destruct (_ && _); [apply tallies_showWarning | apply tallies_ret].
- intros _. destruct (score_ge _ _); [apply tallies_blockAccess | apply tallies_ret].
Qed.

Lemma tallies_forward type details : tallies (forward type details).
Proof.
intros st. unfold forward, seq, emit, throw, effs, after.
destruct (SecurityCore.logSecurityEvent type details) as [calls|x]; cbn; [|reflexivity].
assert (Hw : warnings (List.map Sink calls) = 0%nat).
{ unfold warnings. induction calls; [reflexivity | assumption]. }
fold (warnings (List.map Sink calls)). now rewrite Hw.
Qed.

Lemma tallies_recordEvent e type details : tallies (recordEvent e type details).
Proof.
unfold recordEvent. apply tallies_seq; [intros st; reflexivity|].
intros _. apply tallies_seq; [apply tallies_checkThreatLevel|].
intros _. apply tallies_forward.
Qed.

Lemma tallies_recordAll calls st :
(warnings (snd (recordAll calls st)) + raised st
 = raised (fst (recordAll calls st)))%nat.
Proof.
revert st. induction calls as [|[[e type] details] calls IH]; intros st; [reflexivity|].
cbn [recordAll].
pose proof (tallies_recordEvent e type details st) as H1.
destruct (recordEvent e type details st) as [[st1 effs1] r] eqn:E1.
cbn [effs after fst snd] in H1. specialize (IH st1).
destruct (recordAll calls st1) as [st2 effs2]. cbn [fst snd] in *.
rewrite warnings_app. lia.
Qed.

(** The effects of a call, method by method. *)
Lemma recordEvent_effs e type details st :
effs (recordEvent e type details st)
= let st1 := {| eventHistory := pushed (eventOf e type details) (eventHistory st);
    warningShown := warningShown st;
    blockedIps := blockedIps st |} in
effs (_checkThreatLevel e st1)
++ match snd (_checkThreatLevel e st1) with
 | Ok _ =>
 effs (forward type match details with VUndefined => VObject [] | d => d end
       (after (_checkThreatLevel e st1)))
 | Throw _ => []
 end.
Proof.
unfold recordEvent. fold (eventOf e type details).
rewrite seq_effs, pushEvent_run. cbn [effs after fst snd app].
now rewrite seq_effs.
Qed.

Lemma checkThreatLevel_quiet e st :
riskScore (now_check e) (eventHistory st) = None ->
_checkThreatLevel e st = (st, [], Ok tt).
Proof.
intros Hs. unfold _checkThreatLevel, seq, get, ret. rewrite Hs. reflexivity.
Qed.

Lemma forward_quiet type details st :
warnings (effs (forward type details st)) = 0%nat
/\ blocks (effs (forward type details st)) = 0%nat.
Proof.
split; [|apply forward_effs_blocks].
pose proof (tallies_forward type details st) as Ht.
assert (Hsame : raised (after (forward type details st)) = raised st).
{ unfold forward, seq, emit, throw, after.
destruct (SecurityCore.logSecurityEvent type details); reflexivity. }
lia.
Qed.

(** The warning is rendered when the score is 3 or 4 and no warning is
up. *)
Lemma checkThreatLevel_warnings e st :
warnings (effs (_checkThreatLevel e st))
= if score_ge (riskScore (now_check e) (eventHistory st)) suspiciousThreshold
 && score_lt (riskScore (now_check e) (eventHistory st)) blockThreshold
 && negb (warningShown st)
then 1%nat else 0%nat.
Proof.
unfold _checkThreatLevel. rewrite seq_effs. cbn [get effs after fst snd app].
set (score := riskScore _ _). rewrite seq_effs, warnings_app.
destruct (score_ge score suspiciousThreshold && score_lt score blockThreshold) eqn:Hw.
- apply andb_true_iff in Hw as [_ Hlt].
assert (Hb : score_ge score blockThreshold = false).
{ destruct score; [|reflexivity]. unfold score_ge, score_lt in *. lia. }
rewrite Hb.
assert (Hshow : warnings (effs (_showWarning e st))
      = if negb (warningShown st) then 1%nat else 0%nat).
{ unfold _showWarning, seq, get, put, emit, ret, throw, effs.
destruct (warningShown st); [reflexivity|]. destruct (render_throws e); reflexivity. }
rewrite Hshow. cbn [andb].
destruct (snd (_showWarning e st)); cbn [ret effs fst snd warnings List.filter length]; lia.
- cbn [ret effs after fst snd andb].
destruct (score_ge score blockThreshold); [|reflexivity].
unfold _blockAccess, seq, get, put, emit, ret, throw, effs.
destruct (render_throws e); reflexivity.
Qed.

(** The two thresholds, on a history of numbers. *)
Lemma eventOf_numeric e type details :
~ In type objectPrototypeNames -> numeric (eventOf e type details).
Proof.
intros Htype. unfold numeric, eventOf. cbn [riskLevel].
pose proof (calculateRiskLevel_range type) as Hr.
destruct (_calculateRiskLevel type) as [w|]; [now exists w | contradiction].
Qed.

Lemma recordEvent_thresholds e type details st :
Forall numeric (eventHistory st) ->
~ In type objectPrototypeNames ->
blocks (effs (recordEvent e type details st))
= (if (5 <=? total (recentEvents (now_check e)
              (pushed (eventOf e type details) (eventHistory st))))%Z
 then 1%nat else 0%nat)
/\ warnings (effs (recordEvent e type details st))
 = (if (3 <=? total (recentEvents (now_check e)
                 (pushed (eventOf e type details) (eventHistory st))))%Z
 && (total (recentEvents (now_check e)
              (pushed (eventOf e type details) (eventHistory st))) <? 5)%Z
 && negb (warningShown st)
then 1%nat else 0%nat).
Proof.
intros Hnum Htype.
set (score := total _).
assert (Hscore : riskScore (now_check e)
           (pushed (eventOf e type details) (eventHistory st)) = Some score).
{ apply riskScore_numeric. apply Forall_pushed; [exact Hnum|].
now apply eventOf_numeric. }
split.
- rewrite recordEvent_blocks, Hscore. reflexivity.
- rewrite recordEvent_effs. cbv zeta.
rewrite warnings_app, checkThreatLevel_warnings.
cbn [eventHistory warningShown]. rewrite Hscore.
cbn [score_ge score_lt].
assert (Hrest : forall r st',
warnings
match r : result unit with
| Ok _ =>
  effs (forward type match details with VUndefined => VObject [] | d => d end st')
| Throw _ => []
end = 0%nat).
{ intros [u|x] st'; [apply forward_quiet | reflexivity]. }
rewrite Hrest. unfold suspiciousThreshold, blockThreshold. lia.
Qed.

(** The flag after a call. *)
Lemma recordEvent_flag e type details st :
warningShown st = false ->
warnings (effs (recordEvent e type details st)) = 0%nat ->
warningShown (after (recordEvent e type details st)) = false.
Proof.
intros Hflag Hw. pose proof (tallies_recordEvent e type details st) as Ht.
unfold raised in Ht. rewrite Hflag, Hw in Ht.
destruct (warningShown (after (recordEvent e type details st))); [discriminate | reflexivity].
Qed.
End WithHost.

End MonitorMore.

Module HistoryFacts.
Import Run ThreatMonitor ThreatFacts MonitorMore.

Section WithHost.
Context `{Host}.

Abbreviation entryOf := (fun c : env * jsstring * value =>
                    eventOf (fst (fst c)) (snd (fst c)) (snd c)).

Lemma recordAll_history calls st :
eventHistory (fst (recordAll calls st))
= fold_left (fun h c => pushed (entryOf c) h) calls (eventHistory st).
Proof.
revert st. induction calls as [|[[e type] details] calls IH]; intros st; [reflexivity|].
cbn [recordAll fold_left].
pose proof (recordEvent_history e type details st) as Hh. unfold after in Hh.
destruct (recordEvent e type details st) as [[st1 effs1] r1]. cbn [fst] in Hh.
specialize (IH st1). destruct (recordAll calls st1) as [st2 effs2]. cbn [fst] in *.
now rewrite IH, Hh.
Qed.

Lemma fold_pushed_last calls l :
fold_left (fun h c => pushed (entryOf c) h) calls (skipn (length l - 100) l)
= skipn (length (l ++ List.map entryOf calls) - 100) (l ++ List.map entryOf calls).
Proof.
revert l. induction calls as [|c calls IH]; intros l.
- cbn [fold_left List.map]. now rewrite app_nil_r.
- cbn [fold_left List.map].
rewrite pushed_last by (rewrite length_skipn; lia).
rewrite last_of_last, IH, <- app_assoc. reflexivity.
Qed.

Lemma In_skipn {A} (n : nat) (l : list A) x : In x (skipn n l) -> In x l.
Proof.
intros Hin. rewrite <- (firstn_skipn n l). apply in_or_app. now right.
Qed.

(** What [_sanitizeEventData] leaves in an object. *)
Lemma In_fold_scrubStep entries acc k v :
In (k, v) (fold_left scrubStep entries acc) ->
In (k, v) acc \/
(exists v0, v = truncate v0) /\ ~ In (toLowerCase k) scrubbedFields.
Proof.
revert acc. induction entries as [|[k0 v0] entries IH]; intros acc; cbn [fold_left].
- now left.
- intros Hin. destruct (IH _ Hin) as [Hacc|Hr]; [|now right].
unfold scrubStep in Hacc.
destruct (includes scrubbedFields (toLowerCase k0)) eqn:E; [now left|].
destruct (DetailsFacts.In_obj_set _ _ _ _ _ Hacc) as [Ho|Eq]; [now left|].
injection Eq as -> ->. right. split; [now exists v0|].
now apply SandboxFacts.includes_false.
Qed.

Lemma truncate_length v0 s : truncate v0 = VString s -> (length s <= 203)%nat.
Proof.
assert (Hcut : forall t : jsstring, (length (substring0 200 t ++ js "...") <= 203)%nat).
{ intros t. unfold substring0. rewrite length_app, length_firstn.
change (length (js "...")) with 3%nat. lia. }
destruct v0 as [| |b|x|t|xs|props]; unfold truncate; try discriminate.
destruct (Nat.ltb_spec 200 (length t)) as [Hgt|Hle]; intros E.
- assert (Es : s = substring0 200 t ++ js "...") by congruence. rewrite Es. apply Hcut.
- assert (Es : s = t) by congruence. rewrite Es. lia.
Qed.

Lemma sanitizeEventData_shape data props k v :
_sanitizeEventData data = VObject props -> In (k, v) props ->
~ In (toLowerCase k) scrubbedFields /\ forall s, v = VString s -> (length s <= 203)%nat.
Proof.
intros Hs Hin.
assert (Hfold : exists entries, props = fold_left scrubStep entries []).
{ destruct data; cbn [_sanitizeEventData] in Hs; try discriminate;
injection Hs as <-; eexists; reflexivity. }
destruct Hfold as (entries & ->).
destruct (In_fold_scrubStep _ _ _ _ Hin) as [[]|[(v0 & ->) Hk]].
split; [exact Hk|]. intros s. apply truncate_length.
Qed.
End WithHost.

(** A literal is found wherever it stands, in either case. *)
Lemma prefix_ci_found literal w rest :
  asciiUpper w = asciiUpper literal -> prefix_ci literal (w ++ rest) = true.
Proof.
  revert w. induction literal as [|p literal IH]; intros w; [reflexivity|].
  destruct w as [|u w]; [discriminate|].
  cbn [asciiUpper List.map app prefix_ci]. intros E. injection E as Eu Ew.
  rewrite Eu, N.eqb_refl. cbn [andb]. now apply IH.
Qed.

Lemma anywhere_found here before s :
  here s = true -> anywhere here (before ++ s) = true.
Proof.
  intros Hs. induction before as [|u before IH]; cbn [app].
  - destruct s; cbn [anywhere]; now rewrite Hs.
  - cbn [anywhere]. rewrite IH. apply orb_true_r.
Qed.

End HistoryFacts.

(** X20 ([ThreatMonitor.recordEvent], src/assets/js/core/threat-monitor.js).
    After any sequence of calls on a fresh monitor the history holds the
    entries of the last hundred calls, in the order of the calls, and never
    more than a hundred. *)
Theorem history_keeps_last_hundred `{Host}
    (calls : list (ThreatMonitor.env * jsstring * value)) :
  let entries :=
    List.map (fun c => ThreatMonitor.eventOf (fst (fst c)) (snd (fst c)) (snd c)) calls in
  ThreatMonitor.eventHistory (fst (ThreatMonitor.recordAll calls ThreatMonitor.initial))
  = skipn (length entries - 100) entries
  /\ (length (ThreatMonitor.eventHistory
                (fst (ThreatMonitor.recordAll calls ThreatMonitor.initial))) <= 100)%nat.
Proof.
  intros entries.
  assert (Heq :
    ThreatMonitor.eventHistory (fst (ThreatMonitor.recordAll calls ThreatMonitor.initial))
    = skipn (length entries - 100) entries).
  { rewrite HistoryFacts.recordAll_history.
    exact (HistoryFacts.fold_pushed_last calls []). }
  split; [exact Heq|]. rewrite Heq, length_skipn. lia.
Qed.

(** X21 ([ThreatMonitor._calculateRiskLevel] and
    [ThreatMonitor._checkThreatLevel]).  The weight of an event type is
    read from an object literal, so a type named like a member every object
    inherits ([constructor], [toString], ...) gets that member as its
    weight.  While such an entry is younger than 60 s the score is no
    number and compares false with both thresholds: a call neither renders
    the warning nor blocks, whatever else the history holds. *)
Theorem inherited_type_name_silences_monitor `{Host}
    (e : ThreatMonitor.env) (type : jsstring) (details : value)
    (st : ThreatMonitor.state) (ev : ThreatMonitor.event) :
  In ev (ThreatMonitor.pushed (ThreatMonitor.eventOf e type details)
           (ThreatMonitor.eventHistory st)) ->
  In (ThreatMonitor.type ev) ThreatMonitor.objectPrototypeNames ->
  ThreatMonitor.riskLevel ev = ThreatMonitor._calculateRiskLevel (ThreatMonitor.type ev) ->
  (ThreatMonitor.now_check e - ThreatMonitor.timestamp ev < 60000)%Z ->
  ThreatMonitor.warnings (Run.effs (ThreatMonitor.recordEvent e type details st)) = 0%nat
  /\ ThreatMonitor.blocks (Run.effs (ThreatMonitor.recordEvent e type details st)) = 0%nat.
Proof.
  intros Hin Hname Hlevel Hwin.
  rewrite (MonitorMore.calculateRiskLevel_inherited _ Hname) in Hlevel.
  rewrite MonitorMore.recordEvent_effs. cbv zeta.
  rewrite MonitorMore.checkThreatLevel_quiet
    by (cbn [ThreatMonitor.eventHistory];
        now apply (MonitorMore.riskScore_inherited _ _ ev)).
  cbn [Run.effs Run.after fst snd app].
  apply MonitorMore.forward_quiet.
Qed.

Lemma inherited_type_name_silences_monitor_witness :
  ThreatMonitor.warnings
    (Run.effs (ThreatMonitor.recordEvent (H := AsciiHost.host) (Examples.at_time 2000)
                 (js "POSSIBLE_XSS_SCAN") VUndefined
                 (Run.after (ThreatMonitor.recordEvent (H := AsciiHost.host)
                               (Examples.at_time 1000) (js "toString") VUndefined
                               ThreatMonitor.initial)))) = 0%nat
  /\ ThreatMonitor.blocks
       (Run.effs (ThreatMonitor.recordEvent (H := AsciiHost.host) (Examples.at_time 2000)
                    (js "POSSIBLE_XSS_SCAN") VUndefined
                    (Run.after (ThreatMonitor.recordEvent (H := AsciiHost.host)
                                  (Examples.at_time 1000) (js "toString") VUndefined
                                  ThreatMonitor.initial)))) = 0%nat.
Proof.
  apply (inherited_type_name_silences_monitor (H := AsciiHost.host)
           (Examples.at_time 2000) (js "POSSIBLE_XSS_SCAN") VUndefined
           (Run.after (ThreatMonitor.recordEvent (H := AsciiHost.host)
                         (Examples.at_time 1000) (js "toString") VUndefined
                         ThreatMonitor.initial))
           (ThreatMonitor.eventOf (H := AsciiHost.host) (Examples.at_time 1000)
              (js "toString") VUndefined)).
  - vm_compute. tauto.
  - vm_compute. tauto.
  - reflexivity.
  - vm_compute. reflexivity.
Defined.

(** X22 ([ThreatMonitor.recordEvent] with [_checkThreatLevel],
    [_showWarning] and [_blockAccess]).  On a history whose weights are
    numbers the score of a call is the sum of the weights of the entries
    younger than 60 s, the new one included.  The call enters
    [_blockAccess] exactly when that sum is at least 5, and renders the
    warning exactly when the sum is 3 or 4 and no warning is up. *)
Theorem threshold_law `{Host}
    (e : ThreatMonitor.env) (type : jsstring) (details : value)
    (st : ThreatMonitor.state) :
  Forall ThreatMonitor.numeric (ThreatMonitor.eventHistory st) ->
  ~ In type ThreatMonitor.objectPrototypeNames ->
  let score :=
    ThreatMonitor.total
      (ThreatMonitor.recentEvents (ThreatMonitor.now_check e)
         (ThreatMonitor.pushed (ThreatMonitor.eventOf e type details)
            (ThreatMonitor.eventHistory st))) in
  ThreatMonitor.blocks (Run.effs (ThreatMonitor.recordEvent e type details st))
  = (if (5 <=? score)%Z then 1%nat else 0%nat)
  /\ ThreatMonitor.warnings (Run.effs (ThreatMonitor.recordEvent e type details st))
     = (if (3 <=? score)%Z && (score <? 5)%Z && negb (ThreatMonitor.warningShown st)
        then 1%nat else 0%nat).
Proof.
  intros Hnum Htype score. subst score.
  now apply MonitorMore.recordEvent_thresholds.
Qed.

Lemma threshold_law_witness :
  ThreatMonitor.blocks
    (Run.effs (ThreatMonitor.recordEvent (H := AsciiHost.host) (Examples.at_time 1000)
                 (js "RAPID_KEYSTROKES") VUndefined ThreatMonitor.initial)) = 0%nat
  /\ ThreatMonitor.warnings
       (Run.effs (ThreatMonitor.recordEvent (H := AsciiHost.host) (Examples.at_time 1000)
                    (js "RAPID_KEYSTROKES") VUndefined ThreatMonitor.initial)) = 1%nat.
Proof.
  apply (threshold_law (H := AsciiHost.host) (Examples.at_time 1000)
           (js "RAPID_KEYSTROKES") VUndefined ThreatMonitor.initial).
  - constructor.
  - vm_compute. intuition discriminate.
Defined.

(** X23 ([ThreatMonitor.handleError] with its four patterns).  An error
    whose message matches none of the patterns leaves the monitor as it
    is.  One whose message matches is recorded once, as POSSIBLE_XSS_SCAN
    with weight 5: on a history of weights that are numbers and not
    negative, that one error enters [_blockAccess].  Every message that
    holds the text [javascript:], in whatever case of its letters, is such
    a message. *)
Theorem matching_error_blocks_at_once `{Host}
    (e : ThreatMonitor.env) (event : ThreatMonitor.error_event)
    (st : ThreatMonitor.state) :
  Forall (fun ev => ThreatMonitor.numeric ev /\ (0 <= ThreatMonitor.weight ev)%Z)
    (ThreatMonitor.eventHistory st) ->
  (ThreatMonitor.now_check e - ThreatMonitor.now_event e < 60000)%Z ->
  (existsb (fun pattern => pattern (ThreatMonitor.message event))
     ThreatMonitor.scanPatterns = false ->
   ThreatMonitor.handleError e event st = (st, [], Ok tt))
  /\ (existsb (fun pattern => pattern (ThreatMonitor.message event))
        ThreatMonitor.scanPatterns = true ->
      ThreatMonitor.blocks (Run.effs (ThreatMonitor.handleError e event st)) = 1%nat
      /\ exists entry,
           ThreatMonitor.eventHistory (Run.after (ThreatMonitor.handleError e event st))
           = ThreatMonitor.pushed entry (ThreatMonitor.eventHistory st)
           /\ ThreatMonitor.type entry = js "POSSIBLE_XSS_SCAN"
           /\ ThreatMonitor.riskLevel entry = ThreatMonitor.Weight 5)
  /\ (forall before found rest,
        ThreatMonitor.message event = before ++ found ++ rest ->
        asciiUpper found = asciiUpper (js "javascript:") ->
        existsb (fun pattern => pattern (ThreatMonitor.message event))
          ThreatMonitor.scanPatterns = true).
Proof.
  intros Hhist Hwin. split; [|split].
  - intros Hno. unfold ThreatMonitor.handleError. now rewrite Hno.
  - intros Hyes. unfold ThreatMonitor.handleError. rewrite Hyes.
    set (details := VObject _).
    split.
    + rewrite ThreatFacts.recordEvent_blocks.
      set (entry := ThreatMonitor.eventOf e (js "POSSIBLE_XSS_SCAN") details).
      assert (Hw : ThreatMonitor.riskLevel entry = ThreatMonitor.Weight 5) by reflexivity.
      assert (Hall : Forall (fun ev => ThreatMonitor.numeric ev
                                       /\ (0 <= ThreatMonitor.weight ev)%Z)
                       (ThreatMonitor.pushed entry (ThreatMonitor.eventHistory st))).
      { apply MonitorMore.Forall_pushed; [exact Hhist|].
        split; [now exists 5%Z|]. unfold ThreatMonitor.weight. rewrite Hw. lia. }
      rewrite MonitorMore.riskScore_numeric
        by (apply (List.Forall_impl _ (fun ev H => proj1 H) Hall)).
      assert (Hrecent : In entry
                (ThreatMonitor.recentEvents (ThreatMonitor.now_check e)
                   (ThreatMonitor.pushed entry (ThreatMonitor.eventHistory st)))).
      { apply filter_In. split; [apply MonitorMore.In_pushed_new|].
        apply Z.ltb_lt. exact Hwin. }
      pose proof (MonitorMore.total_member _ entry
                    (MonitorMore.Forall_recent _ _ _
                       (List.Forall_impl _ (fun ev H => proj2 H) Hall)) Hrecent) as Hsum.
      unfold ThreatMonitor.weight in Hsum at 1. rewrite Hw in Hsum.
      unfold ThreatMonitor.score_ge, ThreatMonitor.blockThreshold.
      destruct (Z.leb_spec 5 (ThreatMonitor.total
                                (ThreatMonitor.recentEvents (ThreatMonitor.now_check e)
                                   (ThreatMonitor.pushed entry
                                      (ThreatMonitor.eventHistory st))))); [reflexivity | lia].
    + exists (ThreatMonitor.eventOf e (js "POSSIBLE_XSS_SCAN") details).
      split; [apply ThreatFacts.recordEvent_history|]. split; reflexivity.
  - intros before found rest Hm Hfound. rewrite Hm.
    unfold ThreatMonitor.scanPatterns. cbn [existsb].
    assert (Hj : ThreatMonitor.javascript_pattern (before ++ found ++ rest) = true).
    { unfold ThreatMonitor.javascript_pattern.
      apply HistoryFacts.anywhere_found. now apply HistoryFacts.prefix_ci_found. }
    rewrite Hj. now rewrite !orb_true_r.
Qed.

Lemma matching_error_blocks_at_once_witness :
  ThreatMonitor.blocks
    (Run.effs (ThreatMonitor.handleError (H := AsciiHost.host) (Examples.at_time 1000)
                 {| ThreatMonitor.message := js "Blocked a frame from opening JavaScript:void(0)";
                    ThreatMonitor.filename := js "app.js";
                    ThreatMonitor.lineno := 12%float |}
                 ThreatMonitor.initial)) = 1%nat.
Proof.
  pose proof (matching_error_blocks_at_once (H := AsciiHost.host) (Examples.at_time 1000)
                {| ThreatMonitor.message := js "Blocked a frame from opening JavaScript:void(0)";
                   ThreatMonitor.filename := js "app.js";
                   ThreatMonitor.lineno := 12%float |}
                ThreatMonitor.initial (@List.Forall_nil _ _)) as Hall.
  assert (Hwin : (ThreatMonitor.now_check (Examples.at_time 1000)
                  - ThreatMonitor.now_event (Examples.at_time 1000) < 60000)%Z)
    by (vm_compute; reflexivity).
  destruct (Hall Hwin) as (_ & Hyes & Hfound).
  apply Hyes.
  apply (Hfound (js "Blocked a frame from opening ") (js "JavaScript:") (js "void(0)"));
    reflexivity.
Defined.

(** X24 ([ThreatMonitor._showWarning], through any sequence of
    [recordEvent] calls).  The flag [warningShown] is set before the
    warning is rendered and nothing in [recordEvent] resets it: over any
    sequence of calls the warning is rendered at most once, and not at all
    when a warning is up at the start. *)
Theorem warning_rendered_at_most_once `{Host}
    (calls : list (ThreatMonitor.env * jsstring * value)) (st : ThreatMonitor.state) :
  (ThreatMonitor.warnings (snd (ThreatMonitor.recordAll calls st))
   + (if ThreatMonitor.warningShown st then 1 else 0)
   = if ThreatMonitor.warningShown (fst (ThreatMonitor.recordAll calls st))
     then 1 else 0)%nat
  /\ (ThreatMonitor.warnings (snd (ThreatMonitor.recordAll calls st)) <= 1)%nat.
Proof.
  pose proof (MonitorMore.tallies_recordAll calls st) as Ht.
  unfold ThreatMonitor.raised in Ht. split; [exact Ht|].
  destruct (ThreatMonitor.warningShown (fst (ThreatMonitor.recordAll calls st))); lia.
Qed.

(** X25 ([ThreatMonitor._sanitizeEventData], as [recordEvent] applies it
    to the entries it keeps).  Whatever details the calls on a fresh
    monitor were given, an entry of the history whose details are an
    object holds no top-level field named password, token or cookie, in
    any case of the letters, and no top-level string longer than 203 code
    units. *)
Theorem history_details_are_scrubbed `{Host}
    (calls : list (ThreatMonitor.env * jsstring * value))
    (ev : ThreatMonitor.event) (props : list (jsstring * value))
    (k : jsstring) (v : value) :
  In ev (ThreatMonitor.eventHistory
           (fst (ThreatMonitor.recordAll calls ThreatMonitor.initial))) ->
  ThreatMonitor.details ev = VObject props ->
  In (k, v) props ->
  ~ In (toLowerCase k) ThreatMonitor.scrubbedFields
  /\ forall s, v = VString s -> (length s <= 203)%nat.
Proof.
  intros Hev Hdetails Hin.
  rewrite HistoryFacts.recordAll_history in Hev.
  rewrite (HistoryFacts.fold_pushed_last calls []) in Hev.
  apply HistoryFacts.In_skipn in Hev.
  apply in_map_iff in Hev as ([[e type] details] & <- & _).
  cbn [fst snd ThreatMonitor.eventOf ThreatMonitor.details] in Hdetails.
  exact (HistoryFacts.sanitizeEventData_shape _ _ _ _ Hdetails Hin).
Qed.

Lemma history_details_are_scrubbed_witness :
  ~ In (@toLowerCase AsciiHost.host (js "note")) ThreatMonitor.scrubbedFields
  /\ forall s, VString (List.repeat 97 200 ++ js "...") = VString s -> (length s <= 203)%nat.
Proof.
  apply (history_details_are_scrubbed (H := AsciiHost.host)
           [(Examples.at_time 1000, js "INVALID_GPX", Examples.leaky_details)]
           (ThreatMonitor.eventOf (H := AsciiHost.host) (Examples.at_time 1000)
              (js "INVALID_GPX") Examples.leaky_details)
           [(js "note", VString (List.repeat 97 200 ++ js "..."))]
           (js "note") (VString (List.repeat 97 200 ++ js "..."))).
  - vm_compute. tauto.
  - vm_compute. reflexivity.
  - left. reflexivity.
Defined.

Module ListenerFacts.
Import Run ThreatMonitor ThreatFacts MonitorMore.

Lemma total_app a b : total (a ++ b) = (total a + total b)%Z.
Proof.
  induction a as [|x a IH]; [reflexivity|].
  cbn [app]. rewrite !total_cons, IH. lia.
Qed.

Section WithHost.
Context `{Host}.

(** A call on a short history all of whose entries, the new one
included, are younger than 60 s. *)
Lemma recordEvent_recent e type details st h (s w : Z) :
eventHistory st = h ->
(length h < 100)%nat ->
Forall numeric h ->
total h = s ->
_calculateRiskLevel type = Weight w ->
Forall (fun ev => (now_check e - timestamp ev < 60000)%Z) (h ++ [eventOf e type details]) ->
blocks (effs (recordEvent e type details st))
= (if (5 <=? s + w)%Z then 1%nat else 0%nat)
/\ warnings (effs (recordEvent e type details st))
 = (if (3 <=? s + w)%Z && (s + w <? 5)%Z && negb (warningShown st)
then 1%nat else 0%nat)
/\ eventHistory (after (recordEvent e type details st)) = h ++ [eventOf e type details].
Proof.
intros Hh Hlen Hnum Hs Hweight Hwin.
assert (Htype : ~ In type objectPrototypeNames).
{ intros Hin. rewrite (calculateRiskLevel_inherited _ Hin) in Hweight. discriminate. }
assert (Hpushed : pushed (eventOf e type details) (eventHistory st)
          = h ++ [eventOf e type details]).
{ rewrite Hh. unfold pushed.
destruct (Nat.ltb_spec 100 (length (h ++ [eventOf e type details]))) as [Hgt|Hle];
[|reflexivity].
rewrite length_app in Hgt. cbn [length] in Hgt. lia. }
assert (Hnum' : Forall numeric (eventHistory st)) by now rewrite Hh.
destruct (recordEvent_thresholds e type details st Hnum' Htype) as [Hb Hw].
assert (Hscore : total (recentEvents (now_check e)
                  (pushed (eventOf e type details) (eventHistory st)))
         = (s + w)%Z).
{ rewrite Hpushed, (recentEvents_all _ _ Hwin), total_app, total_cons, Hs.
unfold weight, eventOf. cbn [riskLevel]. rewrite Hweight. cbn [total fold_right]. lia. }
rewrite Hscore in Hb, Hw.
split; [exact Hb|]. split; [exact Hw|].
now rewrite recordEvent_history.
Qed.

(** With details that are an object and a rendering that returns, the
call returns. *)
Lemma recordEvent_returns e type props st :
render_throws e = None ->
snd (recordEvent e type (VObject props) st) = Ok tt.
Proof.
intros Hr. unfold recordEvent, seq, pushEvent, get, put, _checkThreatLevel, _showWarning,
_blockAccess, forward, emit, ret, throw.
cbn -[riskScore score_ge score_lt pushed _sanitizeEventData _calculateRiskLevel
SecurityCore.logSecurityEvent].
rewrite Hr.
destruct (score_ge _ suspiciousThreshold && score_lt _ blockThreshold);
destruct (warningShown st); destruct (score_ge _ blockThreshold);
cbn -[riskScore score_ge score_lt pushed _sanitizeEventData _calculateRiskLevel];
reflexivity.
Qed.

(** A keystroke without the control key. *)
Lemma trackKeystrokes_plain ke k t :
ctrlKey k = false ->
trackKeystrokes ke k t
= if match lastKeystroke t with
 | Some last => negb (last =? 0)%Z && (now_compare ke - last <? 50)%Z
 | None => false
 end && streq (targetTagName k) (js "INPUT")
then
let '(st, effects, r) :=
recordEvent (rapid_env ke) (js "RAPID_KEYSTROKES")
(VObject [(js "target",
         VString match targetId k with [] => js "unknown" | id => id end)])
(monitor t) in
match r with
| Ok _ => ({| monitor := st; lastKeystroke := Some (now_stamp ke) |}, effects, Ok tt)
| Throw x => ({| monitor := st; lastKeystroke := lastKeystroke t |}, effects, Throw x)
end
else ({| monitor := monitor t; lastKeystroke := Some (now_stamp ke) |}, [], Ok tt).
Proof.
intros Hctrl. unfold trackKeystrokes. rewrite Hctrl. cbn [andb orb].
unfold seq at 1. cbn [ret]. unfold seq at 1. cbn [get].
destruct (match lastKeystroke t with
| Some last => negb (last =? 0)%Z && (now_compare ke - last <? 50)%Z
| None => false
end && streq (targetTagName k) (js "INPUT")).
- unfold seq, onMonitor, modify.
destruct (recordEvent _ _ _ (monitor t)) as [[st effects] [u|x]]; cbn [app];
[now rewrite app_nil_r | reflexivity].
- reflexivity.
Qed.
End WithHost.

End ListenerFacts.

(** X26 ([ThreatMonitor.handleMessage]).  A message of the page's own
    origin leaves the monitor as it is.  A message of another origin is
    recorded as CROSS_ORIGIN_MESSAGE with weight 2: of three such messages
    within a minute on a fresh monitor the first has no consequence, the
    second renders the warning, and the third enters [_blockAccess]. *)
Theorem cross_origin_messages_warn_then_block `{Host}
    (location_origin : jsstring) (e1 e2 e3 : ThreatMonitor.env)
    (m1 m2 m3 : ModuleSandbox.message_event) (t0 : Z) :
  Forall (fun m => ModuleSandbox.origin m <> location_origin) [m1; m2; m3] ->
  Forall (fun e => (t0 <= ThreatMonitor.now_event e
                    /\ ThreatMonitor.now_check e < t0 + 60000)%Z) [e1; e2; e3] ->
  let first := ThreatMonitor.handleMessage location_origin e1 m1 ThreatMonitor.initial in
  let second := ThreatMonitor.handleMessage location_origin e2 m2 (Run.after first) in
  let third := ThreatMonitor.handleMessage location_origin e3 m3 (Run.after second) in
  (ThreatMonitor.warnings (Run.effs first) = 0%nat
   /\ ThreatMonitor.blocks (Run.effs first) = 0%nat)
  /\ (ThreatMonitor.warnings (Run.effs second) = 1%nat
      /\ ThreatMonitor.blocks (Run.effs second) = 0%nat)
  /\ ThreatMonitor.blocks (Run.effs third) = 1%nat
  /\ forall e m st,
       ModuleSandbox.origin m = location_origin ->
       ThreatMonitor.handleMessage location_origin e m st = (st, [], Ok tt).
Proof.
  intros Horigins Htimes.
  apply List.Forall_cons_iff in Horigins as [Ho1 Horigins].
  apply List.Forall_cons_iff in Horigins as [Ho2 Horigins].
  apply List.Forall_cons_iff in Horigins as [Ho3 _].
  apply List.Forall_cons_iff in Htimes as [[Ha1 Hc1] Htimes].
  apply List.Forall_cons_iff in Htimes as [[Ha2 Hc2] Htimes].
  apply List.Forall_cons_iff in Htimes as [[Ha3 Hc3] _].
  assert (Hforeign : forall m, ModuleSandbox.origin m <> location_origin ->
            negb (streq (ModuleSandbox.origin m) location_origin) = true).
  { intros m Hm. apply negb_true_iff. unfold streq. now apply bool_decide_eq_false_2. }
  unfold ThreatMonitor.handleMessage.
  rewrite (Hforeign _ Ho1), (Hforeign _ Ho2), (Hforeign _ Ho3).
  set (d1 := VObject _). set (d2 := VObject _). set (d3 := VObject _).
  assert (Hname : ~ In (js "CROSS_ORIGIN_MESSAGE") ThreatMonitor.objectPrototypeNames)
    by (vm_compute; intuition discriminate).
  destruct (ListenerFacts.recordEvent_recent e1 (js "CROSS_ORIGIN_MESSAGE") d1
              ThreatMonitor.initial [] 0 2 eq_refl) as (Hb1 & Hw1 & Hh1);
    [cbn; lia | constructor | reflexivity | reflexivity
     | repeat constructor; cbn [ThreatMonitor.eventOf ThreatMonitor.timestamp]; lia |].
  cbv zeta. rewrite Hb1, Hw1.
  split; [split; reflexivity|].
  pose proof (MonitorMore.recordEvent_flag e1 (js "CROSS_ORIGIN_MESSAGE") d1
                ThreatMonitor.initial eq_refl Hw1) as Hf1.
  set (st1 := Run.after (ThreatMonitor.recordEvent e1 (js "CROSS_ORIGIN_MESSAGE") d1
                           ThreatMonitor.initial)) in *.
  destruct (ListenerFacts.recordEvent_recent e2 (js "CROSS_ORIGIN_MESSAGE") d2
              st1 _ 2 2 Hh1) as (Hb2 & Hw2 & Hh2);
    [cbn; lia
     | repeat constructor; now exists 2%Z
     | reflexivity | reflexivity
     | repeat constructor; cbn [ThreatMonitor.eventOf ThreatMonitor.timestamp]; lia |].
  rewrite Hf1 in Hw2. rewrite Hb2, Hw2.
  split; [split; reflexivity|].
  set (st2 := Run.after (ThreatMonitor.recordEvent e2 (js "CROSS_ORIGIN_MESSAGE") d2 st1))
    in *.
  destruct (ListenerFacts.recordEvent_recent e3 (js "CROSS_ORIGIN_MESSAGE") d3
              st2 _ 4 2 Hh2) as (Hb3 & _ & _);
    [cbn; lia
     | repeat constructor; now exists 2%Z
     | reflexivity | reflexivity
     | repeat constructor; cbn [ThreatMonitor.eventOf ThreatMonitor.timestamp]; lia |].
  rewrite Hb3.
  split; [reflexivity|].
  intros e m st Hm. unfold streq. rewrite (bool_decide_eq_true_2 _ Hm). reflexivity.
Qed.

Lemma cross_origin_messages_warn_then_block_witness :
  ThreatMonitor.blocks
    (Run.effs
       (ThreatMonitor.handleMessage (H := AsciiHost.host) (js "https://trail.example")
          (Examples.at_time 3000) Examples.foreign_message
          (Run.after
             (ThreatMonitor.handleMessage (H := AsciiHost.host) (js "https://trail.example")
                (Examples.at_time 2000) Examples.foreign_message
                (Run.after
                   (ThreatMonitor.handleMessage (H := AsciiHost.host)
                      (js "https://trail.example") (Examples.at_time 1000)
                      Examples.foreign_message ThreatMonitor.initial)))))) = 1%nat.
Proof.
  apply (cross_origin_messages_warn_then_block (H := AsciiHost.host)
           (js "https://trail.example")
           (Examples.at_time 1000) (Examples.at_time 2000) (Examples.at_time 3000)
           Examples.foreign_message Examples.foreign_message Examples.foreign_message
           0%Z).
  - repeat constructor; discriminate.
  - repeat constructor; cbn; lia.
Defined.

(** X27 ([ThreatMonitor.trackKeystrokes]).  The first keystroke is never
    counted as rapid.  A keystroke without the control key that follows the
    last one by less than 50 ms in an INPUT is recorded as RAPID_KEYSTROKES
    with weight 3: of three such keystrokes in a row on a fresh monitor the
    second renders the warning and the third enters [_blockAccess]. *)
Theorem rapid_typing_warns_then_blocks `{Host}
    (ke1 ke2 ke3 : ThreatMonitor.key_env) (k1 k2 k3 : ThreatMonitor.keystroke) (t0 : Z) :
  Forall (fun k => ThreatMonitor.ctrlKey k = false
                   /\ ThreatMonitor.targetTagName k = js "INPUT") [k1; k2; k3] ->
  Forall (fun ke =>
            (t0 <= ThreatMonitor.now_event (ThreatMonitor.rapid_env ke)
             /\ ThreatMonitor.now_check (ThreatMonitor.rapid_env ke) < t0 + 60000)%Z
            /\ ThreatMonitor.render_throws (ThreatMonitor.rapid_env ke) = None)
    [ke2; ke3] ->
  (ThreatMonitor.now_stamp ke1 <> 0
   /\ ThreatMonitor.now_compare ke2 - ThreatMonitor.now_stamp ke1 < 50)%Z ->
  (ThreatMonitor.now_stamp ke2 <> 0
   /\ ThreatMonitor.now_compare ke3 - ThreatMonitor.now_stamp ke2 < 50)%Z ->
  ThreatMonitor.trackKeystrokes ke1 k1 ThreatMonitor.untouched
  = ({| ThreatMonitor.monitor := ThreatMonitor.initial;
        ThreatMonitor.lastKeystroke := Some (ThreatMonitor.now_stamp ke1) |}, [], Ok tt)
  /\ ThreatMonitor.warnings
       (snd (ThreatMonitor.trackAll [(ke1, k1); (ke2, k2); (ke3, k3)]
               ThreatMonitor.untouched)) = 1%nat
  /\ ThreatMonitor.blocks
       (snd (ThreatMonitor.trackAll [(ke1, k1); (ke2, k2); (ke3, k3)]
               ThreatMonitor.untouched)) = 1%nat.
Proof.
  intros Hkeys Henvs [Hs1 Hc2] [Hs2 Hc3].
  apply List.Forall_cons_iff in Hkeys as [[Hk1 _] Hkeys].
  apply List.Forall_cons_iff in Hkeys as [[Hk2 Hi2] Hkeys].
  apply List.Forall_cons_iff in Hkeys as [[Hk3 Hi3] _].
  apply List.Forall_cons_iff in Henvs as [[[Ha2 Hn2] Hr2] Henvs].
  apply List.Forall_cons_iff in Henvs as [[[Ha3 Hn3] Hr3] _].
  assert (Hfirst :
    ThreatMonitor.trackKeystrokes ke1 k1 ThreatMonitor.untouched
    = ({| ThreatMonitor.monitor := ThreatMonitor.initial;
          ThreatMonitor.lastKeystroke := Some (ThreatMonitor.now_stamp ke1) |}, [], Ok tt)).
  { now rewrite (ListenerFacts.trackKeystrokes_plain _ _ _ Hk1). }
  split; [exact Hfirst|].
  cbn [ThreatMonitor.trackAll]. rewrite Hfirst.
  (* the second keystroke *)
  rewrite (ListenerFacts.trackKeystrokes_plain _ _ _ Hk2).
  cbn [ThreatMonitor.lastKeystroke ThreatMonitor.monitor].
  assert (Hrapid2 : negb (ThreatMonitor.now_stamp ke1 =? 0)%Z
                    && (ThreatMonitor.now_compare ke2 - ThreatMonitor.now_stamp ke1 <? 50)%Z
                    && streq (ThreatMonitor.targetTagName k2) (js "INPUT") = true).
  { rewrite Hi2. apply andb_true_iff. split; [|reflexivity].
    apply andb_true_iff. split; [apply negb_true_iff; lia | lia]. }
  rewrite Hrapid2.
  set (d2 := VObject _).
  destruct (ListenerFacts.recordEvent_recent (ThreatMonitor.rapid_env ke2)
              (js "RAPID_KEYSTROKES") d2 ThreatMonitor.initial [] 0 3 eq_refl)
    as (Hb2 & Hw2 & Hh2);
    [cbn; lia | constructor | reflexivity | reflexivity
     | repeat constructor; cbn [ThreatMonitor.eventOf ThreatMonitor.timestamp]; lia |].
  pose proof (ListenerFacts.recordEvent_returns (ThreatMonitor.rapid_env ke2)
                (js "RAPID_KEYSTROKES")
                [(js "target",
                  VString match ThreatMonitor.targetId k2 with
                          | [] => js "unknown"
                          | id => id
                          end)]
                ThreatMonitor.initial Hr2) as Hret2.
  fold d2 in Hret2.
  destruct (ThreatMonitor.recordEvent (ThreatMonitor.rapid_env ke2)
              (js "RAPID_KEYSTROKES") d2 ThreatMonitor.initial)
    as [[st2 effects2] r2] eqn:E2.
  cbn [Run.effs Run.after fst snd] in Hb2, Hw2, Hh2, Hret2. subst r2.
  (* the third keystroke *)
  rewrite (ListenerFacts.trackKeystrokes_plain _ _ _ Hk3).
  cbn [ThreatMonitor.lastKeystroke ThreatMonitor.monitor].
  assert (Hrapid3 : negb (ThreatMonitor.now_stamp ke2 =? 0)%Z
                    && (ThreatMonitor.now_compare ke3 - ThreatMonitor.now_stamp ke2 <? 50)%Z
                    && streq (ThreatMonitor.targetTagName k3) (js "INPUT") = true).
  { rewrite Hi3. apply andb_true_iff. split; [|reflexivity].
    apply andb_true_iff. split; [apply negb_true_iff; lia | lia]. }
  rewrite Hrapid3.
  set (d3 := VObject _).
  destruct (ListenerFacts.recordEvent_recent (ThreatMonitor.rapid_env ke3)
              (js "RAPID_KEYSTROKES") d3 st2 _ 3 3 Hh2)
    as (Hb3 & Hw3 & _);
    [cbn; lia
     | repeat constructor; now exists 3%Z
     | reflexivity | reflexivity
     | repeat constructor; cbn [ThreatMonitor.eventOf ThreatMonitor.timestamp]; lia |].
  destruct (ThreatMonitor.recordEvent (ThreatMonitor.rapid_env ke3)
              (js "RAPID_KEYSTROKES") d3 st2)
    as [[st3 effects3] r3] eqn:E3.
  cbn [Run.effs Run.after fst snd] in Hb3, Hw3.
  assert (Hw3' : ThreatMonitor.warnings effects3 = 0%nat) by (rewrite Hw3; reflexivity).
  assert (Hb3' : ThreatMonitor.blocks effects3 = 1%nat) by (rewrite Hb3; reflexivity).
  assert (Hw2' : ThreatMonitor.warnings effects2 = 1%nat) by (rewrite Hw2; reflexivity).
  assert (Hb2' : ThreatMonitor.blocks effects2 = 0%nat) by (rewrite Hb2; reflexivity).
  destruct r3; cbn [snd app];
    rewrite !MonitorMore.warnings_app, !ThreatFacts.blocks_app, Hw2', Hb2', Hw3', Hb3';
    split; reflexivity.
Qed.

Lemma rapid_typing_warns_then_blocks_witness :
  ThreatMonitor.trackKeystrokes (H := AsciiHost.host) (Examples.key_at 1000)
    Examples.letter_in_input ThreatMonitor.untouched
  = ({| ThreatMonitor.monitor := ThreatMonitor.initial;
        ThreatMonitor.lastKeystroke := Some (ThreatMonitor.now_stamp (Examples.key_at 1000)) |},
     [], Ok tt)
  /\ ThreatMonitor.warnings
       (snd (ThreatMonitor.trackAll (H := AsciiHost.host)
               [(Examples.key_at 1000, Examples.letter_in_input);
                (Examples.key_at 1040, Examples.letter_in_input);
                (Examples.key_at 1080, Examples.letter_in_input)]
               ThreatMonitor.untouched)) = 1%nat
  /\ ThreatMonitor.blocks
       (snd (ThreatMonitor.trackAll (H := AsciiHost.host)
               [(Examples.key_at 1000, Examples.letter_in_input);
                (Examples.key_at 1040, Examples.letter_in_input);
                (Examples.key_at 1080, Examples.letter_in_input)]
               ThreatMonitor.untouched)) = 1%nat.
Proof.
  apply (rapid_typing_warns_then_blocks (H := AsciiHost.host)
           (Examples.key_at 1000) (Examples.key_at 1040) (Examples.key_at 1080)
           Examples.letter_in_input Examples.letter_in_input Examples.letter_in_input 0%Z).
  - repeat constructor.
  - repeat constructor; cbn; lia.
  - cbn. lia.
  - cbn. lia.
Defined.

(** ** The GPX listener and the translation proxy *)

Module GpxFacts.
Import GPXParser.

Section WithHost.
Context `{Host}.
Variable location_origin : jsstring.

(** A message event settles nothing, or settles one request that was
pending and is pending no longer. *)
Lemma onMessage_cases event pendingResolvers pending settled :
onMessage location_origin event pendingResolvers = Ok (pending, settled) ->
(pending = pendingResolvers /\ settled = []) \/
exists s, settled = [s] /\ settled_id s ∈ pendingResolvers
/\ pending = pendingResolvers ∖ {[settled_id s]}.
Proof.
unfold onMessage.
destruct (negb (streq (ModuleSandbox.origin event) location_origin)).
{ intros E. injection E as <- <-. now left. }
destruct (get_prop (ModuleSandbox.data event) (js "type")) as [ty|x]; cbn [bind];
[|discriminate].
destruct (is_string ty (js "GPX_PARSED")).
- destruct (get_prop (ModuleSandbox.data event) (js "id")) as [id|x]; cbn [bind];
[|discriminate].
unfold resolverAt.
destruct (bool_decide (ToString id ∈ pendingResolvers)) eqn:Hin.
+ apply bool_decide_eq_true in Hin.
destruct (get_prop (ModuleSandbox.data event) (js "data")) as [parsed|x]; cbn [bind];
[|discriminate].
intros E. injection E as <- <-. right. eexists. split; [reflexivity|]. now split.
+ destruct (includes ThreatMonitor.objectPrototypeNames (ToString id)); [discriminate|].
intros E. injection E as <- <-. now left.
- destruct (is_string ty (js "GPX_ERROR")).
+ destruct (get_prop (ModuleSandbox.data event) (js "id")) as [id|x]; cbn [bind];
[|discriminate].
unfold resolverAt.
destruct (bool_decide (ToString id ∈ pendingResolvers)) eqn:Hin.
* apply bool_decide_eq_true in Hin.
destruct (get_prop (ModuleSandbox.data event) (js "error")) as [error|x]; cbn [bind];
[|discriminate].
intros E. injection E as <- <-. right. eexists. split; [reflexivity|]. now split.
* destruct (includes ThreatMonitor.objectPrototypeNames (ToString id)); [discriminate|].
intros E. injection E as <- <-. now left.
+ intros E. injection E as <- <-. now left.
Qed.

Lemma listen_settles events pendingResolvers :
List.NoDup (List.map settled_id (listen location_origin events pendingResolvers))
/\ Forall (fun s => settled_id s ∈ pendingResolvers)
 (listen location_origin events pendingResolvers).
Proof.
revert pendingResolvers. induction events as [|event events IH]; intros pendingResolvers.
- split; constructor.
- cbn [listen].
destruct (onMessage location_origin event pendingResolvers) as [[pending settled]|x] eqn:E;
[|apply IH].
destruct (onMessage_cases _ _ _ _ E) as [[-> ->]|(s & -> & Hs & ->)]; [apply IH|].
destruct (IH (pendingResolvers ∖ {[settled_id s]})) as [Hnd Hall].
cbn [app List.map]. split.
+ constructor; [|exact Hnd].
intros Hin. apply in_map_iff in Hin as (s' & Hid & Hs').
rewrite List.Forall_forall in Hall. specialize (Hall _ Hs').
rewrite Hid in Hall. apply elem_of_difference in Hall as [_ Hn].
apply Hn. now apply elem_of_singleton.
+ constructor; [exact Hs|].
apply (List.Forall_impl _ (P := fun s0 => settled_id s0 ∈ pendingResolvers ∖ {[settled_id s]}));
[|exact Hall].
intros s0 Hs0. now apply elem_of_difference in Hs0 as [Hs0 _].
Qed.
End WithHost.

End GpxFacts.

(** X28 ([GPXParser.init], the listener, src/unnamed/part_001).
    Whatever message events arrive, each request is settled at most once,
    and only requests that were pending are settled: a second answer under
    the same id, and an answer under an id that was never registered, do
    nothing. *)
Theorem gpx_request_settled_at_most_once `{Host}
    (location_origin : jsstring) (events : list ModuleSandbox.message_event)
    (pendingResolvers : gset jsstring) :
  List.NoDup (List.map GPXParser.settled_id
                (GPXParser.listen location_origin events pendingResolvers))
  /\ Forall (fun s => GPXParser.settled_id s ∈ pendingResolvers)
       (GPXParser.listen location_origin events pendingResolvers).
Proof. apply GpxFacts.listen_settles. Qed.

(** X29 ([GPXParser.parse] after the read, and the listener of
    [GPXParser.init]).  The request that [parse] registers is resolved with
    the data of a GPX_PARSED message of the page's own origin that carries
    its id, and rejected with the error text of such a GPX_ERROR message;
    either way it is pending no longer.  The same messages from another
    origin are ignored.  An id that is the name of a member every object
    inherits, and that no request has, makes the listener throw a
    TypeError. *)
Theorem gpx_answer_settles_request `{Host}
    (location_origin requestId content : jsstring) (pendingResolvers : gset jsstring)
    (parsed : value) (error : jsstring) :
  ToString (VString requestId) = requestId ->
  ToString (VString error) = error ->
  let answer type payload origin :=
    {| ModuleSandbox.origin := origin;
       ModuleSandbox.data :=
         VObject ((js "type", VString type) :: (js "id", VString requestId) :: payload) |} in
  exists pending,
    GPXParser.parse_resume (Ok content) requestId pendingResolvers
    = Ok (pending, [GPXParser.PostMessage (js "PARSE_GPX") requestId content])
    /\ requestId ∈ pending
    /\ GPXParser.onMessage location_origin
         (answer (js "GPX_PARSED") [(js "data", parsed)] location_origin) pending
       = Ok (pending ∖ {[requestId]}, [GPXParser.Resolve requestId parsed])
    /\ GPXParser.onMessage location_origin
         (answer (js "GPX_ERROR") [(js "error", VString error)] location_origin) pending
       = Ok (pending ∖ {[requestId]},
             [GPXParser.Reject requestId (Exn (js "Error") error)])
    /\ (forall origin type payload,
          origin <> location_origin ->
          GPXParser.onMessage location_origin (answer type payload origin) pending
          = Ok (pending, []))
    /\ (In requestId ThreatMonitor.objectPrototypeNames ->
        requestId ∉ pendingResolvers ->
        GPXParser.onMessage location_origin
          (answer (js "GPX_PARSED") [(js "data", parsed)] location_origin) pendingResolvers
        = Throw (TypeError "resolver.resolve is not a function")).
Proof.
  intros Hid Herror answer. exists ({[requestId]} ∪ pendingResolvers).
  assert (Hin : requestId ∈ ({[requestId]} ∪ pendingResolvers : gset jsstring))
    by (apply elem_of_union; left; now apply elem_of_singleton).
  split; [reflexivity|]. split; [exact Hin|].
  assert (Hsame : negb (streq location_origin location_origin) = false).
  { unfold streq. now rewrite bool_decide_eq_true_2. }
  split; [|split; [|split]].
  - unfold GPXParser.onMessage, answer.
    cbn [ModuleSandbox.origin ModuleSandbox.data]. rewrite Hsame.
    cbn [get_prop obj_get bind].
    change (streq (js "type") (js "type")) with true.
    change (streq (js "type") (js "id")) with false.
    change (streq (js "id") (js "id")) with true.
    change (streq (js "type") (js "data")) with false.
    change (streq (js "id") (js "data")) with false.
    change (streq (js "data") (js "data")) with true.
    cbn [from_option is_string].
    change (streq (js "GPX_PARSED") (js "GPX_PARSED")) with true. cbv iota.
    unfold id. rewrite Hid. unfold GPXParser.resolverAt.
    rewrite (bool_decide_eq_true_2 _ Hin). reflexivity.
  - unfold GPXParser.onMessage, answer.
    cbn [ModuleSandbox.origin ModuleSandbox.data]. rewrite Hsame.
    cbn [get_prop obj_get bind].
    change (streq (js "type") (js "type")) with true.
    change (streq (js "type") (js "id")) with false.
    change (streq (js "id") (js "id")) with true.
    change (streq (js "type") (js "error")) with false.
    change (streq (js "id") (js "error")) with false.
    change (streq (js "error") (js "error")) with true.
    cbn [from_option is_string].
    change (streq (js "GPX_ERROR") (js "GPX_PARSED")) with false.
    change (streq (js "GPX_ERROR") (js "GPX_ERROR")) with true. cbv iota.
    unfold id. rewrite Hid, Herror. unfold GPXParser.resolverAt.
    rewrite (bool_decide_eq_true_2 _ Hin). reflexivity.
  - intros origin type payload Ho. unfold GPXParser.onMessage, answer.
    cbn [ModuleSandbox.origin]. unfold streq. now rewrite (bool_decide_eq_false_2 _ Ho).
  - intros Hproto Hfree. unfold GPXParser.onMessage, answer.
    cbn [ModuleSandbox.origin ModuleSandbox.data]. rewrite Hsame.
    cbn [get_prop obj_get bind].
    change (streq (js "type") (js "type")) with true.
    change (streq (js "type") (js "id")) with false.
    change (streq (js "id") (js "id")) with true.
    cbn [from_option is_string].
    change (streq (js "GPX_PARSED") (js "GPX_PARSED")) with true. cbv iota.
    unfold id. rewrite Hid. unfold GPXParser.resolverAt.
    rewrite (bool_decide_eq_false_2 _ Hfree).
    apply SandboxFacts.includes_true in Hproto. now rewrite Hproto.
Qed.

Lemma gpx_answer_settles_request_witness :
  exists pending,
    GPXParser.parse_resume (Ok (js "<gpx></gpx>")) (js "req_k3x9")
      (∅ : gset jsstring)
    = Ok (pending, [GPXParser.PostMessage (js "PARSE_GPX") (js "req_k3x9") (js "<gpx></gpx>")])
    /\ js "req_k3x9" ∈ pending
    /\ GPXParser.onMessage (H := AsciiHost.host) (js "https://trail.example")
         {| ModuleSandbox.origin := js "https://trail.example";
            ModuleSandbox.data :=
              VObject [(js "type", VString (js "GPX_PARSED"));
                       (js "id", VString (js "req_k3x9"));
                       (js "data", VArray [])] |} pending
       = Ok (pending ∖ {[js "req_k3x9"]}, [GPXParser.Resolve (js "req_k3x9") (VArray [])]).
Proof.
  destruct (gpx_answer_settles_request (H := AsciiHost.host) (js "https://trail.example")
              (js "req_k3x9") (js "<gpx></gpx>") ∅ (VArray []) (js "INVALID_GPX")
              eq_refl eq_refl) as (pending & Hresume & Hin & Hparsed & _).
  exists pending. split; [exact Hresume|]. split; [exact Hin | exact Hparsed].
Defined.

Module ProxyFacts.
Import Run Storage SafeProxy.

Lemma sanitizeLanguage_allowed lang : In (_sanitizeLanguage lang) allowedLangs.
Proof.
  unfold _sanitizeLanguage. destruct lang; try (left; reflexivity).
  destruct (includes allowedLangs s) eqn:E; [|left; reflexivity].
  now apply SandboxFacts.includes_true.
Qed.

Lemma sanitize_empty s : XSSProtection.sanitize_string s = [] -> s = [].
Proof.
  intros E. pose proof (SanitizeMore.sanitize_length s) as Hl. rewrite E in Hl.
  destruct s; [reflexivity | cbn in Hl; lia].
Qed.
End ProxyFacts.

(** X30 ([SafeProxy.translate] and [SafeProxy._sanitizeLanguage],
    src/unnamed/part_001).  [translate] never rejects: it resolves to a
    value, or to [null] after one TRANSLATION_FAILED event.  An empty text,
    and a text whose sanitized form is longer than 2000 code units, which
    every text longer than 2000 is, is refused with INVALID_TEXT before any
    request is made.  At most one request is made, to the proxy address,
    and the language it names is one of the five of the allow-list. *)
Theorem translate_never_rejects `{Storage.Platform}
    (e : SafeProxy.env) (text : jsstring) (targetLang : value) :
  ((exists effects v,
      SafeProxy.translate e text targetLang tt = (tt, effects, Ok v)
      /\ forall x, In x effects -> SafeProxy.is_fetch x = true)
   \/ (exists effects message,
         SafeProxy.translate e text targetLang tt
         = (tt,
            effects ++ [SafeProxy.LogSecurityEvent (js "TRANSLATION_FAILED")
                          (VObject [(js "error", VString message)])],
            Ok VNull)
         /\ forall x, In x effects -> SafeProxy.is_fetch x = true))
  /\ (text = [] \/ (2000 < length (XSSProtection.sanitize_string text))%nat
      \/ (2000 < length text)%nat ->
      SafeProxy.translate e text targetLang tt
      = (tt,
         [SafeProxy.LogSecurityEvent (js "TRANSLATION_FAILED")
            (VObject [(js "error", VString (js "INVALID_TEXT"))])],
         Ok VNull))
  /\ (length (List.filter SafeProxy.is_fetch
                (Run.effs (SafeProxy.translate e text targetLang tt))) <= 1)%nat
  /\ (forall url token body,
        In (SafeProxy.Fetch url token body)
          (Run.effs (SafeProxy.translate e text targetLang tt)) ->
        url = SafeProxy.proxyUrl
        /\ exists lang uri,
             In lang SafeProxy.allowedLangs
             /\ Storage.encodeURIComponent (XSSProtection.sanitize_string text) = Ok uri
             /\ body = Storage.text_of
                         (Storage.JSON_stringify (SafeProxy.request lang uri))).
Proof.
  set (lang := SafeProxy._sanitizeLanguage
                 match targetLang with VUndefined => VString (js "zh-TW") | l => l end).
  assert (Hlang : In lang SafeProxy.allowedLangs)
    by apply ProxyFacts.sanitizeLanguage_allowed.
  destruct (match XSSProtection.sanitize_string text with [] => true | _ => false end
            || Nat.ltb 2000 (length (XSSProtection.sanitize_string text))) eqn:Hbad.
  - (* the text is refused *)
    assert (Hrun :
      SafeProxy.translate e text targetLang tt
      = (tt,
         [SafeProxy.LogSecurityEvent (js "TRANSLATION_FAILED")
            (VObject [(js "error", VString (js "INVALID_TEXT"))])],
         Ok VNull)).
    { unfold SafeProxy.translate, Run.try_catch, Run.seq at 1. rewrite Hbad. reflexivity. }
    rewrite Hrun. cbn [Run.effs fst snd List.filter SafeProxy.is_fetch length].
    split; [|split; [|split]].
    + right. exists [], (js "INVALID_TEXT"). split; [reflexivity | intros x []].
    + reflexivity.
    + lia.
    + intros url token body [Hx|[]]. discriminate.
  - (* the text is accepted *)
    apply orb_false_iff in Hbad as [Hempty Hlong].
    apply Nat.ltb_ge in Hlong.
    assert (Hrun :
      SafeProxy.translate e text targetLang tt
      = match SafeProxy.getCsrfToken e with
        | Throw x =>
            (tt, [SafeProxy.LogSecurityEvent (js "TRANSLATION_FAILED")
                    (VObject [(js "error", VString (exn_message x))])], Ok VNull)
        | Ok token =>
            match Storage.encodeURIComponent (XSSProtection.sanitize_string text) with
            | Throw x =>
                (tt, [SafeProxy.LogSecurityEvent (js "TRANSLATION_FAILED")
                        (VObject [(js "error", VString (exn_message x))])], Ok VNull)
            | Ok uri =>
                let body := Storage.text_of
                              (Storage.JSON_stringify (SafeProxy.request lang uri)) in
                let failed x :=
                  (tt, [SafeProxy.Fetch SafeProxy.proxyUrl token body;
                        SafeProxy.LogSecurityEvent (js "TRANSLATION_FAILED")
                          (VObject [(js "error", VString (exn_message x))])], Ok VNull) in
                match SafeProxy.respond e body with
                | Throw x => failed x
                | Ok response =>
                    if SafeProxy.ok response then
                      match bind (SafeProxy.json response) (fun result =>
                            bind (SafeProxy.first_of result) (fun r0 =>
                            bind (SafeProxy.first_of r0) SafeProxy.first_of)) with
                      | Ok v => (tt, [SafeProxy.Fetch SafeProxy.proxyUrl token body], Ok v)
                      | Throw x => failed x
                      end
                    else failed (Exn (js "Error")
                                   (js "PROXY_ERROR_" ++ SafeProxy.status response))
                end
            end
        end).
    { unfold SafeProxy.translate, Run.try_catch, Run.seq, Run.lift, Run.emit, Run.ret,
        Run.throw.
      fold lang.
      destruct (XSSProtection.sanitize_string text) as [|u safeText] eqn:Hsafe;
        [discriminate|].
      assert (Hl : Nat.ltb 2000 (length (u :: safeText)) = false)
        by now apply Nat.ltb_ge.
      cbn [orb]. rewrite Hl.
      destruct (SafeProxy.getCsrfToken e) as [token|x]; [|reflexivity].
      destruct (Storage.encodeURIComponent (u :: safeText)) as [uri|x]; [|reflexivity].
      cbv zeta.
      destruct (SafeProxy.respond e _) as [response|x]; [|reflexivity].
      destruct (SafeProxy.ok response); [|reflexivity].
      destruct (SafeProxy.json response) as [result|x]; cbn [bind]; [|reflexivity].
      destruct (SafeProxy.first_of result) as [r0|x]; cbn [bind]; [|reflexivity].
      destruct (SafeProxy.first_of r0) as [r1|x]; cbn [bind]; [|reflexivity].
      destruct (SafeProxy.first_of r1) as [r2|x]; reflexivity. }
    rewrite Hrun. split; [|split; [|split]].
    + destruct (SafeProxy.getCsrfToken e) as [token|x];
        [|right; exists [], (exn_message x); split; [reflexivity | intros y []]].
      destruct (Storage.encodeURIComponent _) as [uri|x];
        [|right; exists [], (exn_message x); split; [reflexivity | intros y []]].
      cbv zeta.
      assert (Hfetch : forall body y,
                In y [SafeProxy.Fetch SafeProxy.proxyUrl token body] ->
                SafeProxy.is_fetch y = true)
        by (intros body y [<-|[]]; reflexivity).
      destruct (SafeProxy.respond e _) as [response|x];
        [|right; eexists [_], (exn_message x); split; [reflexivity | apply Hfetch]].
      destruct (SafeProxy.ok response);
        [|right; eexists [_], _; split; [reflexivity | apply Hfetch]].
      destruct (bind _ _) as [v|x];
        [left; eexists [_], v; split; [reflexivity | apply Hfetch]
        |right; eexists [_], (exn_message x); split; [reflexivity | apply Hfetch]].
    + intros [->|[Hgt|Hgt]].
      * discriminate.
      * lia.
      * pose proof (SanitizeMore.sanitize_length text). lia.
    + destruct (SafeProxy.getCsrfToken e) as [token|x]; [|cbn; lia].
      destruct (Storage.encodeURIComponent _) as [uri|x]; [|cbn; lia].
      cbv zeta.
      destruct (SafeProxy.respond e _) as [response|x]; [|cbn; lia].
      destruct (SafeProxy.ok response); [|cbn; lia].
      destruct (bind _ _) as [v|x]; cbn; lia.
    + intros url token body.
      destruct (SafeProxy.getCsrfToken e) as [token'|x];
        [|intros [Hx|[]]; discriminate].
      destruct (Storage.encodeURIComponent _) as [uri|x] eqn:Huri;
        [|intros [Hx|[]]; discriminate].
      cbv zeta.
      assert (Hshape : forall rest,
                (forall y, In y rest -> SafeProxy.is_fetch y = false) ->
                In (SafeProxy.Fetch url token body)
                  (SafeProxy.Fetch SafeProxy.proxyUrl token'
                     (Storage.text_of
                        (Storage.JSON_stringify (SafeProxy.request lang uri))) :: rest) ->
                url = SafeProxy.proxyUrl
                /\ exists lang0 uri0,
                     In lang0 SafeProxy.allowedLangs
                     /\ Ok uri = Ok uri0
                     /\ body = Storage.text_of
                                 (Storage.JSON_stringify (SafeProxy.request lang0 uri0))).
      { intros rest Hrest [E|Hin].
        - injection E as <- <- <-. split; [reflexivity|]. now exists lang, uri.
        - specialize (Hrest _ Hin). discriminate. }
      destruct (SafeProxy.respond e _) as [response|x];
        [|apply Hshape; intros y [<-|[]]; reflexivity].
      destruct (SafeProxy.ok response);
        [|apply Hshape; intros y [<-|[]]; reflexivity].
      destruct (bind _ _) as [v|x];
        [apply Hshape; intros y [] | apply Hshape; intros y [<-|[]]; reflexivity].
Qed.
